(** * merge_plate_run.py: merging plate acquisitions into a target plate

    A shallow embedding of [scripts/omero/hcs_scripts/merge_plate_run.py].

    The script drives an OMERO server through the Blitz gateway.  The server
    side is modelled as a relational store: one finite map per table, keyed
    by the object identifier, with the references between objects kept as
    identifiers (a well names its plate, a well sample names its well and
    its plate acquisition, a plate acquisition names its plate).  The script
    itself is embedded in a state-and-exception monad over that store; a
    Python exception aborts the computation and keeps what was saved up to
    that point.

    The gateway itself (omero-py, [omero.gateway]) is not part of the
    repository; its calls are modelled after its documented behaviour.  A
    wrapper reads the store when it is asked first and keeps what it read:
    the wells of a plate wrapper, each with its samples, are loaded by the
    first [listChildren] and listed from that copy afterwards. *)

From stdpp Require Import gmap strings list fin_maps fin_sets pretty sorting.
From Stdlib Require Import ZArith NArith Ascii.
From Stdlib Require OrderedTypeEx.

Local Open Scope Z_scope.

(** ** The object graph *)

(** The [NamingConvention] of the rows or of the columns of a plate. *)
Inductive NamingConvention := letter | number.

Record Plate := mkPlate {
  plate_name : string;
  plate_screen : option Z;         (* getParent(): the screen, if any *)
  plate_rowNamingConvention : option NamingConvention;
  plate_columnNamingConvention : option NamingConvention
}.

(** Rows and columns are counted from 0. *)
Record Well := mkWell {
  well_plate : Z;
  well_row : N;
  well_column : N
}.

Record WellSample := mkWellSample {
  ws_well : Z;
  ws_plateAcquisition : option Z   (* _obj.plateAcquisition, may be unset *)
}.

Record PlateAcquisition := mkRun {
  run_name : string;
  run_plate : Z;
  run_startTime : option Z         (* getStartTime(): None when not set *)
}.

Record Store := mkStore {
  plates : gmap Z Plate;
  wells : gmap Z Well;
  samples : gmap Z WellSample;
  runs : gmap Z PlateAcquisition
}.

(** A loaded object is its identifier together with its row. *)
Abbreviation PlateObj := (Z * Plate)%type.
Abbreviation WellObj := (Z * Well)%type.
Abbreviation SampleObj := (Z * WellSample)%type.
Abbreviation RunObj := (Z * PlateAcquisition)%type.

(** An entry of [plate_run_l]: the tuple [(plate_o, run_o)].  The plate is
    [None] when [run_o.getParent()] finds no plate. *)
Abbreviation WorkItem := (option PlateObj * RunObj)%type.

(** ** The gateway *)

(** [conn.getObject("Plate", plate_id)] *)
Definition getObject_Plate (st : Store) (plate_id : Z) : option PlateObj :=
  (λ p, (plate_id, p)) <$> plates st !! plate_id.

(** [conn.getObjects("Plate", ids)]: the rows whose identifier is among
    [ids], each once and in the order of the table; none for an empty
    [ids]. *)
Definition getObjects_Plate (st : Store) (ids : list Z) : list PlateObj :=
  filter (λ kp, kp.1 ∈ ids) (map_to_list (plates st)).

(** [conn.getObjects("PlateAcquisition", ids)] *)
Definition getObjects_PlateAcquisition (st : Store) (ids : list Z) : list RunObj :=
  filter (λ kr, kr.1 ∈ ids) (map_to_list (runs st)).

(** [plate_o.listPlateAcquisitions()] *)
Definition listPlateAcquisitions (st : Store) (plate_id : Z) : list RunObj :=
  filter (λ kr, run_plate kr.2 = plate_id) (map_to_list (runs st)).

(** [d[k] = v] on a dictionary, kept as the list of its items in the order
    the keys were inserted. *)
Fixpoint dict_set {K V} `{EqDecision K} (k : K) (v : V) (d : list (K * V)) :
    list (K * V) :=
  match d with
  | [] => [(k, v)]
  | kv :: d' => if decide (kv.1 = k) then (k, v) :: d' else kv :: dict_set k v d'
  end.

(** The query of [plate._listChildren()]: the wells whose plate is
    [plate_id], in the order of the table. *)
Definition wells_of_plate (st : Store) (plate_id : Z) : list WellObj :=
  filter (λ kw, well_plate kw.2 = plate_id) (map_to_list (wells st)).

Definition well_position (well : Well) : N * N := (well_row well, well_column well).

(** [_childcache[(well.row, well.column)] = well] for each well of the
    query: of two wells at one position the later one stays. *)
Definition childcache (ws : list WellObj) : list (N * N * WellObj) :=
  foldl (λ d (well : WellObj), dict_set (well_position well.2) well d) [] ws.

(** [plate.listChildren()] on a plate wrapper that has not listed its
    wells before: the values of [_childcache]. *)
Definition plate_listChildren (st : Store) (plate_id : Z) : list WellObj :=
  (childcache (wells_of_plate st plate_id)).*2.

(** [well.listChildren()]: the well samples of a well. *)
Definition well_listChildren (st : Store) (well_id : Z) : list SampleObj :=
  filter (λ ks, ws_well ks.2 = well_id) (map_to_list (samples st)).

(** The wells of a plate wrapper as [listChildren] loads them: the query
    fetches each well together with its samples, and [well.listChildren()]
    lists the samples fetched then. *)
Abbreviation Children := (list (WellObj * list SampleObj)).

Definition load_children (st : Store) (plate_id : Z) : Children :=
  (λ well : WellObj, (well, well_listChildren st well.1)) <$> plate_listChildren st plate_id.

(** [_letterGridLabel(i)]: 0 is "A", 25 is "Z", 26 is "AA".  The loop
    [while i > 0] runs at most [i] times. *)
Definition letter_of (i : N) : ascii := ascii_of_N (65 + i mod 26).

Fixpoint letterGridLabel_loop (fuel : nat) (i : N) (r : string) : string :=
  match fuel with
  | O => r
  | S fuel =>
      if decide (0 < i)%N
      then let i := (i - 1)%N in
           letterGridLabel_loop fuel (i / 26)%N (String (letter_of i) r)
      else r
  end.

Definition letterGridLabel (i : N) : string :=
  letterGridLabel_loop (N.to_nat i) (i / 26)%N (String (letter_of i) "").

(** [plate.getRowLabels()[row]]: numbers from 1 when the rows are named
    by number, letters otherwise. *)
Definition getRowLabel (plate : Plate) (row : N) : string :=
  match plate_rowNamingConvention plate with
  | Some number => pretty (row + 1)%N
  | _ => letterGridLabel row
  end.

(** [plate.getColumnLabels()[column]]: letters when the columns are named
    by letter, numbers from 1 otherwise. *)
Definition getColumnLabel (plate : Plate) (column : N) : string :=
  match plate_columnNamingConvention plate with
  | Some letter => letterGridLabel column
  | _ => pretty (column + 1)%N
  end.

(** [well.getWellPos()]: the label of the well, "A1" say, made of the label
    of its row and the label of its column in the naming of [plate], the
    plate the well belongs to. *)
Definition getWellPos (plate : Plate) (well : Well) : string :=
  getRowLabel plate (well_row well) +:+ getColumnLabel plate (well_column well).

(** Identifiers handed out by the server on a save are larger than every
    identifier the store holds or refers to. *)
Definition store_ids (st : Store) : list Z :=
  (map_to_list (wells st)).*1
  ++ ((λ ks : SampleObj, ws_well ks.2) <$> map_to_list (samples st))
  ++ (map_to_list (runs st)).*1
  ++ omap (λ ks : SampleObj, ws_plateAcquisition ks.2) (map_to_list (samples st)).

Definition fresh_id (st : Store) : Z := 1 + foldr Z.max 0 (store_ids st).

(** ** Exceptions and the script monad *)

Inductive exn :=
  | AssertionError (msg : string)
  | AttributeError (msg : string)
  | KeyError (key : string).

Definition M (A : Type) : Type := Store → (exn + A) * Store.

Definition ret {A} (a : A) : M A := λ st, (inr a, st).
Definition raise {A} (e : exn) : M A := λ st, (inl e, st).
Definition bind {A B} (m : M A) (f : A → M B) : M B := λ st,
  match m st with
  | (inl e, st') => (inl e, st')
  | (inr a, st') => f a st'
  end.
Definition gets {A} (f : Store → A) : M A := λ st, (inr (f st), st).
Definition modify (f : Store → Store) : M unit := λ st, (inr (), f st).

#[global] Instance M_ret : MRet M := @ret.
#[global] Instance M_bind : MBind M := λ A B f m, bind m f.

(** The message of the [AttributeError] raised on [None.attr]. *)
Definition NoneType_has_no (attr : string) : string :=
  "'NoneType' object has no attribute '" +:+ attr +:+ "'".

(** [assert cond, msg] *)
Definition assert (cond : bool) (msg : string) : M unit :=
  if cond then ret () else raise (AssertionError msg).

(** [for x in l: acc = body(acc, x)] *)
Fixpoint for_loop {A S} (l : list A) (acc : S) (body : S → A → M S) : M S :=
  match l with
  | [] => ret acc
  | x :: l' => acc' ← body acc x; for_loop l' acc' body
  end.

(** ** Python helpers *)

(** [sep.join(l)] *)
Definition join (sep : string) (l : list string) : string := String.concat sep l.

(** [str(l)] for a list of integers *)
Definition str_list (l : list Z) : string :=
  "[" +:+ join ", " (pretty <$> l) +:+ "]".

(** [sorted(l, key=key)]: the keys are computed first, one for each
    element and in order, and a key that raises aborts the call; then comes
    a stable sort of the decorated list that only uses [<] on the keys. *)
Section sorted.
Context {K A : Type} (ltb : K → K → bool).

Fixpoint insert_sorted (x : K * A) (l : list (K * A)) : list (K * A) :=
  match l with
  | [] => [x]
  | y :: l' => if ltb y.1 x.1 then y :: insert_sorted x l' else x :: y :: l'
  end.

Definition sort_decorated (l : list (K * A)) : list (K * A) :=
  foldr insert_sorted [] l.

Fixpoint keys_of (key : A → exn + K) (l : list A) : exn + list K :=
  match l with
  | [] => inr []
  | x :: l' =>
      match key x with
      | inl e => inl e
      | inr k =>
          match keys_of key l' with
          | inl e => inl e
          | inr keys => inr (k :: keys)
          end
      end
  end.

Definition sorted (key : A → exn + K) (l : list A) : M (list A) :=
  match keys_of key l with
  | inl e => raise e
  | inr keys => ret (sort_decorated (zip keys l)).*2
  end.
End sorted.

(** [<] on strings and on pairs of strings *)
Definition str_ltb (a b : string) : bool := String.ltb a b.
Definition pair_ltb (a b : string * string) : bool :=
  str_ltb a.1 b.1 || (bool_decide (a.1 = b.1) && str_ltb a.2 b.2).

(** ** The script *)

Definition P_DTYPE : string := "Data_Type".
Definition P_IDS : string := "IDs".
Definition P_TARGET_PLATE_ID : string := "Target Plate ID".
Definition P_SORTING : string := "Order runs by".

(** The values [run_script] offers for the two enumerated parameters. *)
Definition source_types : list string := ["Plate"; "Acquisition"].
Definition sort_ways : list string :=
  ["Plate name"; "Acquisition name"; "Acquisition start time"].

(** [source_ids] is an [int] or an iterable of them. *)
Inductive SourceIds :=
  | IdInt (i : Z)
  | IdList (l : list Z).

Definition as_list (source_ids : SourceIds) : list Z :=
  match source_ids with IdInt i => [i] | IdList l => l end.

(** [set(source_ids).difference({target_plate_id})]; the iteration order
    of a Python set is not specified; each identifier is kept once, at
    its last occurrence. *)
Definition set_difference (source_ids : list Z) (target_plate_id : Z) : list Z :=
  remove_dups (filter (λ i, i ≠ target_plate_id) source_ids).

(** *** Sources without a run get one (lines 66-80) *)

Definition all_well_samples (st : Store) (plate_id : Z) : list SampleObj :=
  well ← plate_listChildren st plate_id; well_listChildren st well.1.

(** [plate_acq_o.addAllWellSampleSet(all_ws)] points every sample at the
    new acquisition. *)
Definition addAllWellSampleSet (run_id : Z) (all_ws : list SampleObj)
    (m : gmap Z WellSample) : gmap Z WellSample :=
  foldl (λ m ws, <[ws.1 := mkWellSample (ws_well ws.2) (Some run_id)]> m) m all_ws.

Definition save_new_run (plate_o : PlateObj) : M unit := λ st,
  let run_id := fresh_id st in
  let all_ws := all_well_samples st plate_o.1 in
  (inr (),
   mkStore (plates st) (wells st)
     (addAllWellSampleSet run_id all_ws (samples st))
     (<[run_id := mkRun (plate_name plate_o.2) plate_o.1 None]> (runs st))).

(** The body of the loop of line 66. *)
Definition ensure_run (_ : unit) (plate_id : Z) : M unit :=
  plate_o ← gets (λ st, getObject_Plate st plate_id);
  match plate_o with
  | None => raise (AttributeError (NoneType_has_no "listPlateAcquisitions"))
  | Some plate_o =>
      acqs ← gets (λ st, listPlateAcquisitions st plate_id);
      if decide (length acqs = 0%nat) then save_new_run plate_o else ret ()
  end.

(** *** The work list (lines 61-86) *)

Definition expand_plates (st : Store) (source_ids : list Z) : list WorkItem :=
  plate_o ← getObjects_Plate st source_ids;
  (λ run_o, (Some plate_o, run_o)) <$> listPlateAcquisitions st plate_o.1.

Definition expand_runs (st : Store) (source_ids : list Z) : list WorkItem :=
  (λ run_o : RunObj, (getObject_Plate st (run_plate run_o.2), run_o))
    <$> getObjects_PlateAcquisition st source_ids.

Definition resolve (target_plate_id : Z) (source_ids : list Z)
    (source_type : string) : M (list WorkItem) :=
  if decide (source_type = "Plate") then
    let source_ids := set_difference source_ids target_plate_id in
    _ ← for_loop source_ids () ensure_run;
    gets (λ st, expand_plates st source_ids)
  else
    gets (λ st, expand_runs st source_ids).

(** *** Ordering (lines 88-95) *)

Definition item_startTime (x : WorkItem) : option Z := run_startTime x.2.2.

Definition msg_no_start_time : string :=
  "Some runs don't have a start acquisition time.".

Definition tuple_has_no_getStartTime : string :=
  "'tuple' object has no attribute 'getStartTime'".

(** [lambda x: (x[0].getName(), x[1].getName())] *)
Definition key_plate_run_name (x : WorkItem) : exn + string * string :=
  match x.1 with
  | None => inl (AttributeError (NoneType_has_no "getName"))
  | Some plate => inr (plate_name plate.2, run_name x.2.2)
  end.

(** [lambda x: x[1].getName()] *)
Definition key_run_name (x : WorkItem) : exn + string := inr (run_name x.2.2).

(** [lambda x: x.getStartTime()]: [x] is the tuple [(plate, run)], which
    has no such attribute. *)
Definition key_start_time (x : WorkItem) : exn + Z :=
  inl (AttributeError tuple_has_no_getStartTime).

Definition order_runs (sort_way : string) (plate_run_l : list WorkItem) :
    M (list WorkItem) :=
  if decide (sort_way = "Plate & run name") then
    sorted pair_ltb key_plate_run_name plate_run_l
  else if decide (sort_way = "Acquisition name") then
    sorted str_ltb key_run_name plate_run_l
  else if decide (sort_way = "Acquisition start time") then
    let all_time := item_startTime <$> plate_run_l in
    _ ← assert (bool_decide (None ∉ all_time)) msg_no_start_time;
    sorted Z.ltb key_start_time plate_run_l
  else ret plate_run_l.

(** *** Screen safety (lines 99-112) *)

Definition msg_not_in_screen (plate_l : list Z) : string :=
  "Screen safety error: plate " +:+ join ", " (pretty <$> plate_l)
  +:+ " not part of a screen".

Definition msg_different_screens (screen_l : list Z) : string :=
  "Screen safety error: Plates belong to different Screens, " +:+ str_list screen_l.

(** One round of the loop of lines 102-107; [acc] is [(screen_l, plate_l)].
    The script never writes a plate, so the screen of the loaded plate is
    the one [plate.getParent()] finds. *)
Definition screen_step (acc : list Z * list Z) (plate : option PlateObj) :
    M (list Z * list Z) :=
  match plate with
  | None => raise (AttributeError (NoneType_has_no "getParent"))
  | Some plate =>
      match plate_screen plate.2 with
      | None => ret (acc.1, acc.2 ++ [plate.1])
      | Some screen => ret (acc.1 ++ [screen], acc.2)
      end
  end.

Definition screen_safety (plate_run_l : list WorkItem) (target_plate : PlateObj) : M unit :=
  '(screen_l, plate_l) ← for_loop (plate_run_l.*1 ++ [Some target_plate]) ([], []) screen_step;
  let screen_l := remove_dups screen_l in
  _ ← assert (bool_decide (length plate_l = 0%nat)) (msg_not_in_screen plate_l);
  assert (bool_decide (length screen_l = 1%nat)) (msg_different_screens screen_l).

(** *** The index of the target's wells (lines 114-116, 150-152) *)

(** [well_d], keyed by the labels of the wells of [plate].  The plate is
    loaded just before, so its wells are read from the store; the script
    writes no plate, so the naming of the loaded plate is the one
    [getWellPos] finds. *)
Definition index_wells (st : Store) (plate : PlateObj) : gmap string Z :=
  foldl (λ well_d (well : WellObj), <[getWellPos plate.2 well.2 := well.1]> well_d)
    ∅ (plate_listChildren st plate.1).

(** *** Populating the target with missing wells (lines 118-129) *)

(** [update_service.saveAndReturnObject(new_well)] *)
Definition saveAndReturn_new_well (w : Well) : M Z := λ st,
  let well_id := fresh_id st in
  (inr well_id,
   mkStore (plates st) (<[well_id := w]> (wells st)) (samples st) (runs st)).

(** The body of the loop over the wells of a source plate; [acc] is
    [(well_d, new_well_count)].  The label is the one in the naming of
    [plate], the plate of the well. *)
Definition create_if_missing (target_plate_id : Z) (plate : Plate)
    (acc : gmap string Z * nat) (well : WellObj) : M (gmap string Z * nat) :=
  if decide (is_Some (acc.1 !! getWellPos plate well.2)) then ret acc
  else
    new_well ← saveAndReturn_new_well
      (mkWell target_plate_id (well_row well.2) (well_column well.2));
    ret (<[getWellPos plate well.2 := new_well]> acc.1, S acc.2).

(** An entry of [plate_run_l] whose plate wrapper has listed its wells. *)
Abbreviation Loaded := (WorkItem * Children)%type.

(** One round of the loop of line 120.  [plate.listChildren()] loads the
    wells of the wrapper; line 133 lists them again from the wrapper, so
    they are kept with the entry.  With [source_type = "Plate"] the entries
    of one plate share their wrapper, which loads at the first of them; the
    plate is not the target then, and up to line 138 the script writes only
    wells of the target, so the wells read at each entry are the same. *)
Definition populate_item (target_plate_id : Z)
    (acc : gmap string Z * nat * list Loaded) (item : WorkItem) :
    M (gmap string Z * nat * list Loaded) :=
  match item.1 with
  | None => raise (AttributeError (NoneType_has_no "listChildren"))
  | Some plate =>
      children ← gets (λ st, load_children st plate.1);
      well_d_count ←
        for_loop children.*1 acc.1 (create_if_missing target_plate_id plate.2);
      ret (well_d_count, acc.2 ++ [(item, children)])
  end.

Definition populate_target (target_plate_id : Z) (plate_run_l : list WorkItem)
    (well_d : gmap string Z) : M (gmap string Z * nat * list Loaded) :=
  for_loop plate_run_l (well_d, 0%nat, []) (populate_item target_plate_id).

(** *** Folding the runs into the target (lines 131-152) *)

(** The samples re-pointed in memory, each with its new well; they reach
    the store when the wells are saved. *)
Abbreviation Pending := (list (SampleObj * Z)).

(** The body of the loop over the samples of a well; [acc] is the pending
    moves and [count_well_sample]. *)
Definition move_sample (run_id well_oi : Z)
    (acc : Pending * nat) (ws : SampleObj) : M (Pending * nat) :=
  match ws_plateAcquisition ws.2 with
  | None => raise (AttributeError (NoneType_has_no "_id"))
  | Some r =>
      if decide (r = run_id) then ret (acc.1 ++ [(ws, well_oi)], S acc.2)
      else ret acc
  end.

(** The body of the loop of line 133, on a well of the plate with the
    samples loaded with it. *)
Definition move_well (plate : Plate) (run_id : Z) (well_d : gmap string Z)
    (acc : Pending * nat) (well : WellObj * list SampleObj) : M (Pending * nat) :=
  match well_d !! getWellPos plate well.1.2 with
  | None => raise (KeyError (getWellPos plate well.1.2))
  | Some well_oi => for_loop well.2 acc (move_sample run_id well_oi)
  end.

Definition setWell (m : gmap Z WellSample) (mv : SampleObj * Z) : gmap Z WellSample :=
  <[mv.1.1 := mkWellSample mv.2 (ws_plateAcquisition mv.1.2)]> m.

(** [for _, well_oi in well_d.items(): saveAndReturnObject(well_oi)] *)
Definition save_wells (pending : Pending) : M unit :=
  modify (λ st, mkStore (plates st) (wells st)
                  (foldl setWell (samples st) pending) (runs st)).

(** [run._obj.setPlate(target_plate._obj)] and its save *)
Definition save_run (run : RunObj) (target_plate_id : Z) : M unit :=
  modify (λ st, mkStore (plates st) (wells st) (samples st)
                  (<[run.1 := mkRun (run_name run.2) target_plate_id
                                (run_startTime run.2)]> (runs st))).

Abbreviation MergeState := (PlateObj * gmap string Z * nat)%type.

(** The body of the loop of line 132; the state is the target plate as
    last loaded, [well_d] and [count_well_sample]. *)
Definition merge_item (state : MergeState) (item : Loaded) : M MergeState :=
  let '(target_plate, well_d, count_well_sample) := state in
  match item.1.1 with
  | None => raise (AttributeError (NoneType_has_no "listChildren"))
  | Some plate =>
      '(pending, count_well_sample) ←
        for_loop item.2 ([], count_well_sample) (move_well plate.2 item.1.2.1 well_d);
      _ ← save_wells pending;
      _ ← save_run item.1.2 target_plate.1;
      reloaded ← gets (λ st, getObject_Plate st target_plate.1);
      match reloaded with
      | None => raise (AttributeError (NoneType_has_no "listChildren"))
      | Some target_plate =>
          well_d ← gets (λ st, index_wells st target_plate);
          ret (target_plate, well_d, count_well_sample)
      end
  end.

(** *** The message (lines 155-158) *)

Definition summary_message (count_well_sample n_runs : nat) (target_id : Z)
    (new_well_count : nat) : string :=
  let message :=
    pretty count_well_sample +:+ " Images from " +:+ pretty n_runs
    +:+ " Runs merged into Plate:" +:+ pretty target_id +:+ "." in
  if decide (0 < new_well_count)%nat
  then message +:+ " " +:+ pretty new_well_count +:+ " Wells created."
  else message.

(** *** [combine_plates] *)

(** The [print] calls (lines 97, 128, 154) write to the console only and
    are left out. *)

Definition msg_target_not_found : string := "Target Plate:None not found.".

(** Lines 114-160: the merge proper, once the work list is fixed. *)
Definition merge_runs (target_plate : PlateObj) (plate_run_l : list WorkItem) :
    M (string * PlateObj) :=
  well_d ← gets (λ st, index_wells st target_plate);
  '(well_d, new_well_count, loaded) ←
    populate_target target_plate.1 plate_run_l well_d;
  '(target_plate, _, count_well_sample) ←
    for_loop loaded (target_plate, well_d, 0%nat) merge_item;
  ret (summary_message count_well_sample (length plate_run_l)
         target_plate.1 new_well_count, target_plate).

Definition combine_plates (target_plate_id : Z) (source_ids : SourceIds)
    (source_type sort_way : string) (same_screen : bool) : M (string * PlateObj) :=
  let source_ids := as_list source_ids in
  target_plate ← gets (λ st, getObject_Plate st target_plate_id);
  match target_plate with
  | None => raise (AssertionError msg_target_not_found)
  | Some target_plate =>
      plate_run_l ← resolve target_plate_id source_ids source_type;
      plate_run_l ← order_runs sort_way plate_run_l;
      _ ← (if same_screen then screen_safety plate_run_l target_plate else ret ());
      merge_runs target_plate plate_run_l
  end.

(** [run_script] passes the four collected parameters and leaves
    [same_screen] at its default. *)
Definition run_script (target_plate_id : Z) (ids : list Z)
    (data_type sorting : string) : M (string * PlateObj) :=
  combine_plates target_plate_id (IdList ids) data_type sorting true.

(** *** [run_script]: the session with the client (lines 217-242) *)

(** [params] as lines 218-222 fill it from the inputs the client holds: the
    four declared parameters, each of its declared type, and no entry for a
    parameter the client holds no value for. *)
Record Params := mkParams {
  params_dtype : option string;        (* params[P_DTYPE] *)
  params_ids : option (list Z);        (* params[P_IDS] *)
  params_target : option Z;            (* params[P_TARGET_PLATE_ID] *)
  params_sorting : option string       (* params[P_SORTING] *)
}.

(** What [client.setOutput] is given: [rstring(...)] or [robject(...)]. *)
Inductive rtype :=
  | rstring (s : string)
  | robject (plate : PlateObj).

Record Client := mkClient {
  client_params : Params;
  client_outputs : gmap string rtype;
  client_session_open : bool
}.

(** [client.setOutput(key, value)] *)
Definition setOutput (key : string) (value : rtype) (client : Client) : Client :=
  mkClient (client_params client) (<[key := value]> (client_outputs client))
    (client_session_open client).

(** [client.closeSession()] *)
Definition closeSession (client : Client) : Client :=
  mkClient (client_params client) (client_outputs client) false.

(** What leaves [run_script]: an exception raised in [combine_plates], or
    the [KeyError] of [params[k]] for a parameter that is not there. *)
Inductive script_exn :=
  | Raised (e : exn)
  | ParamKeyError (k : string).

(** [params[k]] *)
Definition getitem {A} (k : string) (v : option A) : script_exn + A :=
  match v with
  | Some a => inr a
  | None => inl (ParamKeyError k)
  end.

(** Lines 224-226: the parameters are read in the order of [keys], which is
    [P_DTYPE], [P_IDS], [P_TARGET_PLATE_ID], [P_SORTING]. *)
Definition read_params (params : Params) : script_exn + (string * list Z * Z * string) :=
  match getitem P_DTYPE (params_dtype params) with
  | inl e => inl e
  | inr dtype =>
      match getitem P_IDS (params_ids params) with
      | inl e => inl e
      | inr ids =>
          match getitem P_TARGET_PLATE_ID (params_target params) with
          | inl e => inl e
          | inr target =>
              match getitem P_SORTING (params_sorting params) with
              | inl e => inl e
              | inr sorting => inr (dtype, ids, target, sorting)
              end
          end
      end
  end.

(** The [try] block, lines 218-236: the exception that leaves it, if any,
    with the client and the store as they are then. *)
Definition run_script_try (client : Client) (st : Store) :
    option script_exn * Client * Store :=
  match read_params (client_params client) with
  | inl e => (Some e, client, st)
  | inr (dtype, ids, target, sorting) =>
      match run_script target ids dtype sorting st with
      | (inr (message, robj), st') =>
          (None,
           setOutput "Result" (robject robj)
             (setOutput "Message" (rstring message) client),
           st')
      | (inl e, st') => (Some (Raised e), client, st')
      end
  end.

(** Lines 217-242: an [AssertionError] is reported as the output "ERROR"
    and raised again with the same message; any other exception passes;
    the session is closed in every case. *)
Definition run_script_session (client : Client) (st : Store) :
    option script_exn * Client * Store :=
  let '(r, client, st') := run_script_try client st in
  let client :=
    match r with
    | Some (Raised (AssertionError err)) => setOutput "ERROR" (rstring err) client
    | _ => client
    end in
  (r, closeSession client, st').

(** ** Notions used in the statements *)

(** The screens of the plates that have one, and the identifiers of the
    plates that have none: [screen_l] and [plate_l] of lines 100-107. *)
Definition screens_of (ps : list PlateObj) : list Z :=
  omap (λ p : PlateObj, plate_screen p.2) ps.

Definition screenless (ps : list PlateObj) : list Z :=
  (filter (λ p : PlateObj, plate_screen p.2 = None) ps).*1.

(** [st'] differs from [st] at most by added runs and by the run the
    samples refer to. *)
Record synthesis_only (st st' : Store) : Prop := {
  syn_plates : plates st' = plates st;
  syn_wells : wells st' = wells st;
  syn_runs : runs st ⊆ runs st';
  syn_samples : ∀ sid, ws_well <$> samples st' !! sid = ws_well <$> samples st !! sid
}.

(** No two wells of the plate share a position. *)
Definition unique_positions (st : Store) (plate_id : Z) : Prop :=
  ∀ i j wi wj,
    wells st !! i = Some wi → wells st !! j = Some wj →
    well_plate wi = plate_id → well_plate wj = plate_id →
    well_position wi = well_position wj → i = j.

(** The wells of the store, each with its plate and position. *)
Definition placed_wells (st : Store) : list (Z * (N * N)) :=
  (λ kw : WellObj, (well_plate kw.2, well_position kw.2)) <$> map_to_list (wells st).

(** The exception is a failed [assert]. *)
Definition is_assertion (e : exn) : Prop :=
  match e with AssertionError _ => True | _ => False end.

(** The plate a sample sits on, through its well. *)
Definition sample_plate (st : Store) (x : WellSample) : option Z :=
  well_plate <$> wells st !! ws_well x.

(** The sample sits in a well of the plate. *)
Definition in_plate (st : Store) (plate_id : Z) (x : WellSample) : Prop :=
  sample_plate st x = Some plate_id.

(** The identifier of the plate of an entry of the work list. *)
Definition item_plate_id (item : WorkItem) : option Z := fst <$> item.1.

(** [rid] is a run of [st'] that [st] did not have: the run of one of the
    plates [ids], which had no run in [st], with the name of that plate. *)
Definition synthesized_run (st st' : Store) (ids : list Z) (rid : Z)
    (run : PlateAcquisition) : Prop :=
  runs st !! rid = None ∧ runs st' !! rid = Some run
  ∧ run_plate run ∈ ids
  ∧ listPlateAcquisitions st (run_plate run) = []
  ∧ ∃ p, plates st !! run_plate run = Some p
       ∧ run = mkRun (plate_name p) (run_plate run) None.

(** [st'] is [st] with runs synthesized for plates among [ids]: plates and
    wells are the same and every sample names the well it named; a run of
    [st] is unchanged, a run that is new is synthesized, at most one for a
    plate; a sample that is not as it was sits in a well of a plate that
    got a run, and only its run changed, to that run. *)
Record synthesized (st : Store) (ids : list Z) (st' : Store) : Prop := {
  syn_only : synthesis_only st st';
  syn_new_runs : ∀ rid run,
    runs st' !! rid = Some run → runs st !! rid = None →
    synthesized_run st st' ids rid run;
  syn_one_run : ∀ rid run rid' run',
    synthesized_run st st' ids rid run → synthesized_run st st' ids rid' run' →
    run_plate run = run_plate run' → rid = rid';
  syn_changed_samples : ∀ sid,
    samples st' !! sid = samples st !! sid
    ∨ ∃ x rid run,
        samples st !! sid = Some x
        ∧ synthesized_run st st' ids rid run ∧ in_plate st (run_plate run) x
        ∧ samples st' !! sid = Some (mkWellSample (ws_well x) (Some rid))
}.

(** The plates line 66 goes through. *)
Definition source_plate_ids (target_plate_id : Z) (source_ids : list Z)
    (source_type : string) : list Z :=
  if decide (source_type = "Plate") then set_difference source_ids target_plate_id
  else [].

(** Every entry of the index is a well of the plate. *)
Definition target_index (st : Store) (plate_id : Z) (well_d : gmap string Z) : Prop :=
  ∀ label i, well_d !! label = Some i →
    ∃ w, wells st !! i = Some w ∧ well_plate w = plate_id.

(** What lines 118-129 may have changed between [st0] and [st]: wells were
    added, all of them to the target. *)
Record populated (tid : Z) (st0 st : Store) : Prop := {
  pop_plates : plates st = plates st0;
  pop_samples : samples st = samples st0;
  pop_runs : runs st = runs st0;
  pop_wells : wells st0 ⊆ wells st;
  pop_new : ∀ i w, wells st !! i = Some w → wells st0 !! i = None →
    well_plate w = tid ∧ ∀ sid x, samples st0 !! sid = Some x → ws_well x ≠ i
}.

(** The entry has listed the wells of its plate between [st0] and the end
    of the loop of line 120. *)
Definition loaded_from (tid : Z) (st0 : Store) (item : Loaded) : Prop :=
  ∃ (plate : PlateObj) s,
    item.1.1 = Some plate ∧ populated tid st0 s ∧ item.2 = load_children s plate.1.

(** The invariant of the loops of lines 120-129; [k0] wells had been
    created when the store was [st0]. *)
Definition populate_inv (tid : Z) (st0 : Store)
    (acc : gmap string Z * nat) (st : Store) : Prop :=
  populated tid st0 st ∧ target_index st tid acc.1
  ∧ size (wells st) = (size (wells st0) + acc.2)%nat.

(** The samples of a listing, well after well. *)
Definition listed_samples (children : Children) : list SampleObj :=
  children ≫= snd.

(** The listed samples of a run, each with the well of the target it moves
    to: what lines 133-140 collect in memory. *)
Definition run_moves (plate : Plate) (run_id : Z) (well_d : gmap string Z)
    (children : Children) : Pending :=
  child ← children;
  match well_d !! getWellPos plate child.1.2 with
  | Some well_oi =>
      (λ ws, (ws, well_oi))
        <$> filter (λ ws : SampleObj, ws_plateAcquisition ws.2 = Some run_id) child.2
  | None => []
  end.

(** A sample that names a run names a run of the store and sits in a well
    of the plate of that run. *)
Definition runs_consistent (st : Store) : Prop :=
  ∀ sid x r, samples st !! sid = Some x → ws_plateAcquisition x = Some r →
    ∃ run, runs st !! r = Some run ∧ in_plate st (run_plate run) x.

(** The same, as a check on the table of samples. *)
Definition sample_consistent (st : Store) (x : WellSample) : Prop :=
  match ws_plateAcquisition x with
  | None => True
  | Some r =>
      match runs st !! r with
      | None => False
      | Some run => sample_plate st x = Some (run_plate run)
      end
  end.

#[global] Instance sample_consistent_dec st x : Decision (sample_consistent st x).
Proof.
  unfold sample_consistent. destruct (ws_plateAcquisition x); [|apply _].
  destruct (runs st !! _); apply _.
Defined.

(** The samples that belong to one of the runs [rs]. *)
Definition of_runs (rs : list Z) (x : WellSample) : Prop :=
  ws_plateAcquisition x ∈ Some <$> rs.

#[global] Instance of_runs_dec rs x : Decision (of_runs rs x).
Proof. unfold of_runs. apply _. Defined.

Definition samples_of_runs (st : Store) (rs : list Z) : gmap Z WellSample :=
  filter (λ kx : Z * WellSample, of_runs rs kx.2) (samples st).

(** What an entry has listed holds the samples of its run, each once. *)
Definition exact_listing (st : Store) (item : Loaded) : Prop :=
  is_Some item.1.1
  ∧ NoDup (listed_samples item.2).*1
  ∧ (∀ ws : SampleObj, ws ∈ listed_samples item.2 → samples st !! ws.1 = Some ws.2)
  ∧ ∀ sid x, samples st !! sid = Some x → ws_plateAcquisition x = Some item.1.2.1 →
      (sid, x) ∈ listed_samples item.2.

(** The state of the fold after the runs [rs]: [n] samples were counted,
    the samples of [st1] that belong to these runs; each of them sits in a
    well of the target now and is otherwise as it was, and every other
    sample is as it was. *)
Record folded (tid : Z) (st1 st2 : Store) (rs : list Z) (n : nat) (s : Store) : Prop := {
  fold_plates : plates s = plates st2;
  fold_wells : wells s = wells st2;
  fold_count : n = size (samples_of_runs st1 rs);
  fold_absent : ∀ sid, samples st1 !! sid = None → samples s !! sid = None;
  fold_kept : ∀ sid x,
    samples st1 !! sid = Some x → ¬ of_runs rs x → samples s !! sid = Some x;
  fold_moved : ∀ sid x,
    samples st1 !! sid = Some x → of_runs rs x →
    ∃ tw w', samples s !! sid = Some (mkWellSample tw (ws_plateAcquisition x))
      ∧ wells st2 !! tw = Some w' ∧ well_plate w' = tid
}.

(** The list is in ascending order of the keys, as [sorted] compares them:
    no entry has a key that is [<] the key of an entry before it. *)
Definition ascending {K A} (ltb : K → K → bool) (key : A → exn + K) (l : list A) : Prop :=
  StronglySorted
    (λ a b, ∀ ka kb, key a = inr ka → key b = inr kb → ltb kb ka = false) l.

#[global] Instance exn_eq_dec : EqDecision exn.
Proof. solve_decision. Defined.

(** The entries with the key [k], in the order of the list. *)
Definition with_key {K A} `{EqDecision K} (key : A → exn + K) (k : K) (l : list A) : list A :=
  filter (λ x, key x = inr k) l.

(** What makes [<] an order that a sort can rely on. *)
Record strict_order {K} (ltb : K → K → bool) : Prop := {
  so_irrefl : ∀ a, ltb a a = false;
  so_asym : ∀ a b, ltb a b = true → ltb b a = false;
  so_trans : ∀ a b c, ltb b a = false → ltb c b = false → ltb c a = false
}.

(** Between [st] and [st'] no plate has changed, no well has changed or
    gone, the same samples are there, and every run of [st] is still there
    under its name and with its start time. *)
Record preserved (st st' : Store) : Prop := {
  pres_plates : plates st' = plates st;
  pres_wells : wells st ⊆ wells st';
  pres_samples : ∀ sid, is_Some (samples st' !! sid) ↔ is_Some (samples st !! sid);
  pres_runs : ∀ rid run, runs st !! rid = Some run →
    ∃ run', runs st' !! rid = Some run'
      ∧ run_name run' = run_name run ∧ run_startTime run' = run_startTime run
}.

(** The samples an entry has listed are samples of the store. *)
Definition listed_in (st : Store) (item : Loaded) : Prop :=
  ∀ ws : SampleObj, ws ∈ listed_samples item.2 → is_Some (samples st !! ws.1).

(** The well [w] is at the position of a well of the plate of one of the
    entries [wl]. *)
Definition at_source_position (st : Store) (wl : list WorkItem) (w : Well) : Prop :=
  ∃ (item : WorkItem) (plate : PlateObj) j w0,
    item ∈ wl ∧ item.1 = Some plate
    ∧ wells st !! j = Some w0 ∧ well_plate w0 = plate.1
    ∧ well_position w0 = well_position w.

(** The wells added since [st0] are at positions of wells of the work
    list's plates. *)
Definition created_at_sources (st0 : Store) (wl : list WorkItem) (st : Store) : Prop :=
  wells st0 ⊆ wells st
  ∧ ∀ i w, wells st !! i = Some w → wells st0 !! i = None → at_source_position st wl w.

#[global] Instance NamingConvention_eq_dec : EqDecision NamingConvention.
Proof. solve_decision. Defined.

(** The two plates name their rows and their columns alike. *)
Definition same_naming (p q : Plate) : Prop :=
  plate_rowNamingConvention p = plate_rowNamingConvention q
  ∧ plate_columnNamingConvention p = plate_columnNamingConvention q.

#[global] Instance same_naming_dec p q : Decision (same_naming p q).
Proof. unfold same_naming. apply _. Defined.

(** The invariant of the loops of lines 120-129 when the plates of the
    work list are named like the target [tp]: no two wells of the target
    share a position, the label of each of them is in the index, and a well
    that was added is at a position the target had no well at. *)
Definition positions_inv (tp : PlateObj) (st0 : Store)
    (acc : gmap string Z * nat) (st : Store) : Prop :=
  wells st0 ⊆ wells st
  ∧ unique_positions st tp.1
  ∧ (∀ i w, wells st !! i = Some w → well_plate w = tp.1 →
       is_Some (acc.1 !! getWellPos tp.2 w))
  ∧ ∀ i w, wells st !! i = Some w → wells st0 !! i = None →
      ∀ j w0, wells st0 !! j = Some w0 → well_plate w0 = tp.1 →
        well_position w0 ≠ well_position w.

(** Every sample in a well of the plate belongs to some run. *)
Definition all_have_run (st : Store) (pid : Z) : Prop :=
  map_Forall (λ _ x, in_plate st pid x → is_Some (ws_plateAcquisition x)) (samples st).

#[global] Instance in_plate_dec st pid x : Decision (in_plate st pid x).
Proof. unfold in_plate. apply _. Defined.

#[global] Instance all_have_run_dec st pid : Decision (all_have_run st pid).
Proof. unfold all_have_run. apply _. Defined.

(** A plate that has a run has no sample outside of every run; a plate
    without a run gets one for all its samples at line 79. *)
Definition foldable (st : Store) (pid : Z) : Prop :=
  length (listPlateAcquisitions st pid) ≠ 0%nat → all_have_run st pid.

#[global] Instance foldable_dec st pid : Decision (foldable st pid).
Proof. unfold foldable. apply _. Defined.

(** The plates all belong to the screen [s]. *)
Definition in_screen (st : Store) (s : Z) (ids : list Z) : Prop :=
  Forall (λ pid, plate_screen <$> plates st !! pid = Some (Some s)) ids.

#[global] Instance in_screen_dec st s ids : Decision (in_screen st s ids).
Proof. unfold in_screen. apply _. Defined.

(** Every key of the index is the label, in the naming of [tp], of a well
    of the target. *)
Definition target_labels (tp : PlateObj) (st : Store) (well_d : gmap string Z) : Prop :=
  ∀ key, is_Some (well_d !! key) →
    ∃ i w, wells st !! i = Some w ∧ well_plate w = tp.1 ∧ getWellPos tp.2 w = key.

(** The label of every well an entry has listed is in the index. *)
Definition labels_in (well_d : gmap string Z) (item : Loaded) : Prop :=
  ∀ plate : PlateObj, item.1.1 = Some plate →
    ∀ child : WellObj * list SampleObj, child ∈ item.2 →
      is_Some (well_d !! getWellPos plate.2 child.1.2).

(** The plate [pid] exists and names its rows and columns as [tp]. *)
Definition named_like (st : Store) (tp : Plate) (pid : Z) : Prop :=
  match plates st !! pid with
  | Some p => same_naming p tp
  | None => False
  end.

#[global] Instance named_like_dec st tp pid : Decision (named_like st tp pid).
Proof. unfold named_like. destruct (plates st !! pid); apply _. Defined.

(** No two wells of the plate have the same label. *)
Definition unique_labels (st : Store) (plate : PlateObj) : Prop :=
  ∀ i j wi wj,
    wells st !! i = Some wi → wells st !! j = Some wj →
    well_plate wi = plate.1 → well_plate wj = plate.1 →
    getWellPos plate.2 wi = getWellPos plate.2 wj → i = j.

(** The wells of the plate, each with its label. *)
Definition well_labels (st : Store) (plate : PlateObj) : list string :=
  (λ well : WellObj, getWellPos plate.2 well.2) <$> wells_of_plate st plate.1.

(** ** Worked stores *)

Module Scenario.
(** Target plate 1 in screen 7 with wells A1, B1; source plate 2 in the
    same screen with wells A1, C1 and one run "R1": two samples in A1,
    one in C1. *)
Definition st0 : Store := mkStore
  (list_to_map [(1, mkPlate "P1" (Some 7) None None); (2, mkPlate "P2" (Some 7) None None)])
  (list_to_map [(10, mkWell 1 0 0); (11, mkWell 1 1 0);
                (20, mkWell 2 0 0); (21, mkWell 2 2 0)])
  (list_to_map [(100, mkWellSample 20 (Some 5)); (101, mkWellSample 20 (Some 5));
                (102, mkWellSample 21 (Some 5))])
  (list_to_map [(5, mkRun "R1" 2 None)]).
End Scenario.


Module Timed.
(** Both plates in screen 7; the source plate 2 has two runs with start
    times, the later one stored first. *)
Definition st0 : Store := mkStore
  (list_to_map [(1, mkPlate "P1" (Some 7) None None); (2, mkPlate "P2" (Some 7) None None)])
  (list_to_map [(10, mkWell 1 0 0); (20, mkWell 2 0 0)])
  (list_to_map [(100, mkWellSample 20 (Some 5)); (101, mkWellSample 20 (Some 6))])
  (list_to_map [(5, mkRun "late" 2 (Some 200)); (6, mkRun "early" 2 (Some 100))]).
End Timed.

Module Screenless.
(** No plate belongs to a screen; the run of plate 2 has no start time. *)
Definition st0 : Store := mkStore
  (list_to_map [(1, mkPlate "P1" None None None); (2, mkPlate "P2" None None None)])
  (list_to_map [(10, mkWell 1 0 0); (20, mkWell 2 0 0)])
  (list_to_map [(100, mkWellSample 20 (Some 5))])
  (list_to_map [(5, mkRun "R1" 2 None)]).
End Screenless.

Module TwoScreens.
(** Target plate 1 in screen 7; source plate 2 in screen 8, with one
    sample and no run. *)
Definition st0 : Store := mkStore
  (list_to_map [(1, mkPlate "P1" (Some 7) None None); (2, mkPlate "P2" (Some 8) None None)])
  (list_to_map [(10, mkWell 1 0 0); (20, mkWell 2 0 0)])
  (list_to_map [(100, mkWellSample 20 None)])
  ∅.
End TwoScreens.

Module Partial.
(** Target plate 1 and the source plates 2 and 3, all in screen 7.  Plate 2
    has the run "R2" with one sample; plate 3 has the run "R3" with one
    sample, and a second sample that belongs to no run. *)
Definition st0 : Store := mkStore
  (list_to_map [(1, mkPlate "P1" (Some 7) None None); (2, mkPlate "P2" (Some 7) None None);
                (3, mkPlate "P3" (Some 7) None None)])
  (list_to_map [(10, mkWell 1 0 0); (20, mkWell 2 0 0); (30, mkWell 3 0 0)])
  (list_to_map [(100, mkWellSample 20 (Some 5)); (101, mkWellSample 30 (Some 6));
                (102, mkWellSample 30 None)])
  (list_to_map [(5, mkRun "R2" 2 None); (6, mkRun "R3" 3 None)]).

(** The target as loaded, and the work list for the sources 2 and 3 sorted
    by run name, each entry with the wells its plate lists. *)
Definition target_plate : PlateObj := (1, mkPlate "P1" (Some 7) None None).

Definition loaded : list Loaded :=
  [((Some (2, mkPlate "P2" (Some 7) None None), (5, mkRun "R2" 2 None)),
    [((20, mkWell 2 0 0), [(100, mkWellSample 20 (Some 5))])]);
   ((Some (3, mkPlate "P3" (Some 7) None None), (6, mkRun "R3" 3 None)),
    [((30, mkWell 3 0 0), [(101, mkWellSample 30 (Some 6));
                           (102, mkWellSample 30 None)])])].
End Partial.

Module Naming.
(** Target plate 1 and source plate 2, both in screen 7 and each with one
    well, at row 0 and column 0.  The target has the default naming, rows
    by letter and columns by number; the source names its rows by number
    and its columns by letter.  The source has the run "R1" with one
    sample. *)
Definition st0 : Store := mkStore
  (list_to_map [(1, mkPlate "P1" (Some 7) None None);
                (2, mkPlate "P2" (Some 7) (Some number) (Some letter))])
  (list_to_map [(10, mkWell 1 0 0); (20, mkWell 2 0 0)])
  (list_to_map [(100, mkWellSample 20 (Some 5))])
  (list_to_map [(5, mkRun "R1" 2 None)]).
End Naming.

(** * Properties *)

(** ** Reasoning about the monad *)

Lemma bind_unfold {A B} (m : M A) (f : A → M B) st :
  (m ≫= f) st = match m st with
                | (inl e, st') => (inl e, st')
                | (inr a, st') => f a st'
                end.
Proof. reflexivity. Qed.

Lemma bind_ok_inv {A B} (m : M A) (f : A → M B) st b st' :
  (m ≫= f) st = (inr b, st') →
  ∃ a st1, m st = (inr a, st1) ∧ f a st1 = (inr b, st').
Proof.
  rewrite bind_unfold. destruct (m st) as [[e|a] st1]; [done|]. eauto.
Qed.

Lemma bind_err_inv {A B} (m : M A) (f : A → M B) st e st' :
  (m ≫= f) st = (inl e, st') →
  m st = (inl e, st') ∨ ∃ a st1, m st = (inr a, st1) ∧ f a st1 = (inl e, st').
Proof.
  rewrite bind_unfold. destruct (m st) as [[e1|a] st1]; simpl; intros H; [left; by simplify_eq|right; eauto].
Qed.

Lemma bind_inv {A B} (m : M A) (f : A → M B) st r st' :
  (m ≫= f) st = (r, st') →
  (∃ e, m st = (inl e, st') ∧ r = inl e)
  ∨ ∃ a st1, m st = (inr a, st1) ∧ f a st1 = (r, st').
Proof.
  rewrite bind_unfold. destruct (m st) as [[e1|a] st1]; simpl; intros H; [left|right; by eauto].
  exists e1. by simplify_eq.
Qed.

Lemma for_loop_cons {A S} (x : A) l (acc : S) body st :
  for_loop (x :: l) acc body st
  = match body acc x st with
    | (inl e, st') => (inl e, st')
    | (inr acc', st') => for_loop l acc' body st'
    end.
Proof. reflexivity. Qed.

(** A property of the store that every iteration keeps, whatever its
    outcome, is kept by the loop. *)
Lemma for_loop_store {A S} (P : Store → Prop) (l : list A) (body : S → A → M S) :
  (∀ x acc st r st', x ∈ l → P st → body acc x st = (r, st') → P st') →
  ∀ acc st r st', P st → for_loop l acc body st = (r, st') → P st'.
Proof.
  induction l as [|x l IH]; intros Hbody acc st r st' HP Hrun.
  - by inversion Hrun; subst.
  - rewrite for_loop_cons in Hrun.
    destruct (body acc x st) as [[e|acc1] st1] eqn:Hx.
    + inversion Hrun; subst. eapply (Hbody x); [left|done..].
    + assert (P st1) by (eapply (Hbody x); [left|done..]).
      eapply IH; [|done..]. intros ??????. apply Hbody. by right.
Qed.

(** An invariant on accumulator and store that successful iterations keep
    holds when the loop completes. *)
Lemma for_loop_ok {A S} (I : S → Store → Prop) (l : list A) (body : S → A → M S) :
  (∀ x acc st acc' st', x ∈ l → I acc st → body acc x st = (inr acc', st') → I acc' st') →
  ∀ acc st r st', I acc st → for_loop l acc body st = (inr r, st') → I r st'.
Proof.
  induction l as [|x l IH]; intros Hbody acc st r st' HI Hrun.
  - by inversion Hrun; subst.
  - rewrite for_loop_cons in Hrun.
    destruct (body acc x st) as [[e|acc1] st1] eqn:Hx; [done|].
    assert (I acc1 st1) by (eapply (Hbody x); [left|done..]).
    eapply IH; [|done..]. intros ??????. apply Hbody. by right.
Qed.

(** The exceptions an iteration can raise are those the loop can raise. *)
Lemma for_loop_exn {A S} (E : exn → Prop) (l : list A) (body : S → A → M S) :
  (∀ x acc st e st', x ∈ l → body acc x st = (inl e, st') → E e) →
  ∀ acc st e st', for_loop l acc body st = (inl e, st') → E e.
Proof.
  induction l as [|x l IH]; intros Hbody acc st e st' Hrun; [done|].
  rewrite for_loop_cons in Hrun.
  destruct (body acc x st) as [[e1|acc1] st1] eqn:Hx.
  - inversion Hrun; subst. eapply (Hbody x); [left|done].
  - eapply IH; [|done]. intros ???????. eapply Hbody; [by right|done].
Qed.

(** ** Ordering *)

Lemma order_runs_fall_through sort_way plate_run_l st :
  sort_way ≠ "Plate & run name" → sort_way ≠ "Acquisition name" →
  sort_way ≠ "Acquisition start time" →
  order_runs sort_way plate_run_l st = (inr plate_run_l, st).
Proof. intros. unfold order_runs. by rewrite !decide_False. Qed.

Lemma order_runs_start_time_missing plate_run_l st :
  None ∈ item_startTime <$> plate_run_l →
  order_runs "Acquisition start time" plate_run_l st
  = (inl (AssertionError msg_no_start_time), st).
Proof.
  intros Hin. unfold order_runs. rewrite !decide_False, decide_True by done.
  rewrite bind_unfold. by rewrite bool_decide_eq_false_2 by tauto.
Qed.

Lemma order_runs_start_time_present item plate_run_l st :
  None ∉ item_startTime <$> (item :: plate_run_l) →
  order_runs "Acquisition start time" (item :: plate_run_l) st
  = (inl (AttributeError tuple_has_no_getStartTime), st).
Proof.
  intros Hin. unfold order_runs. rewrite !decide_False, decide_True by done.
  rewrite bind_unfold. by rewrite bool_decide_eq_true_2.
Qed.

(** ** Screen safety *)

Lemma screen_loop_spec (ps : list (option PlateObj)) acc st :
  for_loop ps acc screen_step st
  = match mapM id ps with
    | None => (inl (AttributeError (NoneType_has_no "getParent")), st)
    | Some ps' => (inr (acc.1 ++ screens_of ps', acc.2 ++ screenless ps'), st)
    end.
Proof.
  revert acc. induction ps as [|[p|] ps IH]; intros [sl pl].
  - unfold screens_of, screenless. simpl. by rewrite !app_nil_r.
  - rewrite for_loop_cons. unfold screen_step at 1. simpl.
    destruct (plate_screen p.2) as [s|] eqn:Hs; simpl; rewrite IH; simpl;
      destruct (mapM id ps) as [ps'|]; simpl; try done.
    + unfold screens_of, screenless. simpl. rewrite Hs. simpl.
      rewrite filter_cons_False by (rewrite Hs; done). by rewrite <-app_assoc.
    + unfold screens_of, screenless. simpl. rewrite Hs. simpl.
      rewrite filter_cons_True by done. simpl. by rewrite <-app_assoc.
  - done.
Qed.

Lemma remove_dups_singleton (l : list Z) :
  length (remove_dups l) = 1%nat ↔ ∃ s, l ≠ [] ∧ ∀ x, x ∈ l → x = s.
Proof.
  split.
  - intros Hlen. destruct (remove_dups l) as [|s [|??]] eqn:Hr; try done.
    exists s. split.
    + intros ->. done.
    + intros x Hx. rewrite <-elem_of_remove_dups, Hr in Hx.
      by apply list_elem_of_singleton in Hx.
  - intros (s & Hne & Hall).
    assert (remove_dups l ⊆ [s]) as Hsub.
    { intros x Hx. rewrite elem_of_remove_dups in Hx. apply Hall in Hx as ->. by left. }
    assert (NoDup (remove_dups l)) as Hnd by apply NoDup_remove_dups.
    destruct (remove_dups l) as [|a [|b r]] eqn:Hr; [|done|].
    + destruct l as [|x l]; [done|]. assert (x ∈ remove_dups (x :: l)) as Hx.
      { apply elem_of_remove_dups. by left. }
      rewrite Hr in Hx. by apply elem_of_nil in Hx.
    + assert (a = s) as -> by (apply list_elem_of_singleton, Hsub; by left).
      assert (b = s) as -> by (apply list_elem_of_singleton, Hsub; right; by left).
      apply NoDup_cons in Hnd as [Hn _]. exfalso. apply Hn. by left.
Qed.

Lemma screenless_nil (ps : list PlateObj) :
  screenless ps = [] ↔ ∀ p, p ∈ ps → is_Some (plate_screen p.2).
Proof.
  unfold screenless. induction ps as [|p ps IH]; simpl.
  - split; [|done]. intros _ p Hp. by apply elem_of_nil in Hp.
  - destruct (plate_screen p.2) as [s|] eqn:Hs.
    + rewrite filter_cons_False by (rewrite Hs; done). rewrite IH. split.
      * intros H q [->|Hq]%elem_of_cons; [rewrite Hs; eauto|eauto].
      * intros H q Hq. apply H. by right.
    + rewrite filter_cons_True by done. simpl. split; [done|].
      intros H. destruct (H p) as [? Hp]; [by left|]. congruence.
Qed.

Lemma elem_of_screens_of (ps : list PlateObj) s :
  s ∈ screens_of ps ↔ ∃ p, p ∈ ps ∧ plate_screen p.2 = Some s.
Proof. unfold screens_of. by rewrite list_elem_of_omap. Qed.

Lemma mapM_id_Some {A} (l : list (option A)) (k : list A) :
  mapM id l = Some k ↔ l = Some <$> k.
Proof.
  rewrite mapM_Some. split.
  - induction 1 as [|x y l k Hxy _ IH]; [done|]. simpl in *. by subst.
  - intros ->. induction k; constructor; done.
Qed.

Lemma mapM_id_snoc {A} (l : list (option A)) (x : A) :
  mapM id (l ++ [Some x]) = (λ k, k ++ [x]) <$> mapM id l.
Proof.
  induction l as [|[y|] l IH]; simpl; [done| |done].
  rewrite IH. by destruct (mapM id l).
Qed.

Lemma ret_inv {A} (a : A) st r st' : ret a st = (r, st') → r = inr a ∧ st' = st.
Proof. unfold ret. intros Heq. injection Heq. done. Qed.

Lemma raise_inv {A} e st (r : exn + A) st' :
  raise e st = (r, st') → r = inl e ∧ st' = st.
Proof. unfold raise. intros Heq. injection Heq. done. Qed.

Lemma sorted_store {K A} (ltb : K → K → bool) (key : A → exn + K) l st r st' :
  sorted ltb key l st = (r, st') → st' = st.
Proof.
  unfold sorted. destruct (keys_of key l); [intros []%raise_inv|intros []%ret_inv]; done.
Qed.

Lemma order_runs_store sort_way plate_run_l st r st' :
  order_runs sort_way plate_run_l st = (r, st') → st' = st.
Proof.
  unfold order_runs. case_decide; [|case_decide; [|case_decide]].
  - apply sorted_store.
  - apply sorted_store.
  - rewrite bind_unfold. unfold assert. case_bool_decide; simpl.
    + apply sorted_store.
    + intros []%raise_inv; done.
  - intros []%ret_inv; done.
Qed.

Lemma order_runs_nil sort_way st : order_runs sort_way [] st = (inr [], st).
Proof.
  unfold order_runs. case_decide; [done|]. case_decide; [done|]. case_decide; done.
Qed.

Lemma screen_safety_spec plate_run_l target_plate st :
  screen_safety plate_run_l target_plate st
  = match mapM id plate_run_l.*1 with
    | None => (inl (AttributeError (NoneType_has_no "getParent")), st)
    | Some ps =>
        if decide (screenless (ps ++ [target_plate]) = []) then
          if decide (length (remove_dups (screens_of (ps ++ [target_plate]))) = 1%nat)
          then (inr (), st)
          else (inl (AssertionError (msg_different_screens
                       (remove_dups (screens_of (ps ++ [target_plate]))))), st)
        else (inl (AssertionError (msg_not_in_screen (screenless (ps ++ [target_plate])))), st)
    end.
Proof.
  unfold screen_safety. rewrite bind_unfold, screen_loop_spec, mapM_id_snoc.
  destruct (mapM id plate_run_l.*1) as [ps|]; simpl; [|done].
  rewrite bind_unfold. unfold assert.
  case_bool_decide as Hlen; case_decide as Hnil; simpl.
  - case_bool_decide; by case_decide.
  - by destruct (screenless (ps ++ [target_plate])).
  - by rewrite Hnil in Hlen.
  - done.
Qed.

Lemma screen_safety_store plate_run_l target_plate st r st' :
  screen_safety plate_run_l target_plate st = (r, st') → st' = st.
Proof.
  rewrite screen_safety_spec.
  destruct (mapM _ _); repeat case_decide; intros Heq; injection Heq; congruence.
Qed.

(** C3 (as the code has it): with the check enabled, the merge passes
    the screen-safety check exactly when every involved plate, the target
    and the plate of every entry of the work list, has a screen and it is
    the same screen for all of them.  A plate without a screen makes the
    check fail, also when no involved plate has one. *)
Theorem screen_safety_accepts_iff (plate_run_l : list WorkItem)
    (target_plate : PlateObj) (st : Store) :
  (screen_safety plate_run_l target_plate st).1 = inr ()
  ↔ ∃ s, ∀ p, p ∈ plate_run_l.*1 ++ [Some target_plate] →
           ∃ plate : PlateObj, p = Some plate ∧ plate_screen plate.2 = Some s.
Proof.
  rewrite screen_safety_spec.
  destruct (mapM id plate_run_l.*1) as [ps|] eqn:Hps.
  - apply mapM_id_Some in Hps.
    assert (∀ s, (∀ p, p ∈ plate_run_l.*1 ++ [Some target_plate] →
                   ∃ plate : PlateObj, p = Some plate ∧ plate_screen plate.2 = Some s)
                 ↔ ∀ plate : PlateObj, plate ∈ ps ++ [target_plate] →
                     plate_screen plate.2 = Some s) as Hmem.
    { intros s. rewrite Hps. split.
      - intros H plate Hin. destruct (H (Some plate)) as (q & [= <-] & Hq); [|done].
        replace [Some target_plate] with (Some <$> [target_plate]) by done.
        rewrite <-fmap_app. apply list_elem_of_fmap. eauto.
      - intros H p Hin.
        replace [Some target_plate] with (Some <$> [target_plate]) in Hin by done.
        rewrite <-fmap_app in Hin. apply list_elem_of_fmap in Hin as (q & -> & Hq).
        eauto. }
    setoid_rewrite Hmem. clear Hmem Hps.
    set (all := ps ++ [target_plate]).
    assert (all ≠ []) as Hne by (unfold all; by destruct ps).
    case_decide as Hless.
    + rewrite screenless_nil in Hless. case_decide as Hlen; simpl.
      * split; [intros _|done]. apply remove_dups_singleton in Hlen as (s & _ & Hs).
        exists s. intros plate Hin. destruct (Hless _ Hin) as [s' Hs'].
        rewrite Hs'. f_equal. apply Hs, elem_of_screens_of. eauto.
      * split; [done|]. intros (s & Hs). exfalso. apply Hlen.
        apply remove_dups_singleton. exists s. split.
        -- destruct all as [|p all'] eqn:Hall; [done|].
           intros Hnil. assert (s ∈ screens_of (p :: all')) as Hin.
           { apply elem_of_screens_of. exists p. split; [by left|]. apply Hs. by left. }
           rewrite Hnil in Hin. by apply elem_of_nil in Hin.
        -- intros x (p & Hp & Hx)%elem_of_screens_of. apply Hs in Hp. congruence.
    + simpl. split; [done|]. intros (s & Hs). exfalso. apply Hless.
      apply screenless_nil. intros p Hp. rewrite (Hs _ Hp). eauto.
  - simpl. split; [done|]. intros (s & Hs). exfalso.
    apply mapM_None in Hps. apply Exists_exists in Hps as (p & Hp & Hnone).
    simpl in Hnone. subst p. destruct (Hs None) as (? & ? & _); [|done].
    apply elem_of_app. by left.
Qed.

(** A target without a screen fails the check, whatever the work list. *)
Lemma screen_safety_target_screenless plate_run_l (target_plate : PlateObj) st :
  plate_screen target_plate.2 = None →
  (∀ item : WorkItem, item ∈ plate_run_l → is_Some item.1) →
  ∃ ids, target_plate.1 ∈ ids
    ∧ screen_safety plate_run_l target_plate st
      = (inl (AssertionError (msg_not_in_screen ids)), st).
Proof.
  intros Hnone Hsome. rewrite screen_safety_spec.
  destruct (mapM id plate_run_l.*1) as [ps|] eqn:Hps.
  - assert (target_plate.1 ∈ screenless (ps ++ [target_plate])) as Hin.
    { unfold screenless. apply list_elem_of_fmap. exists target_plate. split; [done|].
      apply list_elem_of_filter. split; [done|]. apply elem_of_app. right. by left. }
    rewrite decide_False; [eauto|]. intros Hnil. rewrite Hnil in Hin.
    by apply elem_of_nil in Hin.
  - apply mapM_None in Hps. apply Exists_exists in Hps as (p & Hp & Hnone').
    simpl in Hnone'. subst p. apply list_elem_of_fmap in Hp as (item & Hi & Hin).
    destruct (Hsome _ Hin) as [? Hs]. congruence.
Qed.

(** ** The stages of [combine_plates] *)

Lemma getObject_Plate_Some st plate_id (plate_o : PlateObj) :
  getObject_Plate st plate_id = Some plate_o ↔
  plate_o.1 = plate_id ∧ plates st !! plate_id = Some plate_o.2.
Proof.
  unfold getObject_Plate. destruct plate_o as [i p]. simpl.
  destruct (plates st !! plate_id) as [q|]; simpl.
  - split; [by intros [= <- <-]|by intros [-> [= ->]]].
  - split; [done|by intros [_ ?]].
Qed.

Lemma getObject_Plate_None st plate_id :
  getObject_Plate st plate_id = None ↔ plates st !! plate_id = None.
Proof. unfold getObject_Plate. by destruct (plates st !! plate_id). Qed.

Lemma combine_plates_no_target st tid srcs stype sw ss :
  getObject_Plate st tid = None →
  combine_plates tid srcs stype sw ss st = (inl (AssertionError msg_target_not_found), st).
Proof. intros H. unfold combine_plates. rewrite bind_unfold. unfold gets. by rewrite H. Qed.

Lemma combine_plates_staged st tid srcs stype sw ss tp :
  getObject_Plate st tid = Some tp →
  combine_plates tid srcs stype sw ss st
  = (plate_run_l ← resolve tid (as_list srcs) stype;
     plate_run_l ← order_runs sw plate_run_l;
     _ ← (if ss then screen_safety plate_run_l tp else ret ());
     merge_runs tp plate_run_l) st.
Proof. intros H. unfold combine_plates. rewrite bind_unfold. unfold gets. by rewrite H. Qed.

Lemma combine_plates_ordered st tid srcs stype sw ss tp wl0 st1 wl :
  getObject_Plate st tid = Some tp →
  resolve tid (as_list srcs) stype st = (inr wl0, st1) →
  order_runs sw wl0 st1 = (inr wl, st1) →
  combine_plates tid srcs stype sw ss st
  = (_ ← (if ss then screen_safety wl tp else ret ()); merge_runs tp wl) st1.
Proof.
  intros Ht Hr Ho. rewrite (combine_plates_staged _ _ _ _ _ _ _ Ht).
  rewrite bind_unfold, Hr. by rewrite bind_unfold, Ho.
Qed.

(** C4: the label "Plate name" that [run_script] offers matches no
    sorting branch: the work list is handed on as it was resolved, without
    an error, and the merge goes on with it in that order. *)
Theorem plate_name_label_does_not_sort (plate_run_l : list WorkItem) (st : Store) :
  "Plate name" ∈ sort_ways ∧ ("Plate & run name" ∉ sort_ways)
  ∧ order_runs "Plate name" plate_run_l st = (inr plate_run_l, st)
  ∧ ∀ tid srcs stype ss tp st0,
      getObject_Plate st0 tid = Some tp →
      resolve tid (as_list srcs) stype st0 = (inr plate_run_l, st) →
      combine_plates tid srcs stype "Plate name" ss st0
      = (_ ← (if ss then screen_safety plate_run_l tp else ret ());
         merge_runs tp plate_run_l) st.
Proof.
  split_and!.
  - unfold sort_ways. set_solver.
  - unfold sort_ways. intros H.
    repeat (apply elem_of_cons in H as [H|H]; [discriminate|]).
    by apply elem_of_nil in H.
  - by apply order_runs_fall_through.
  - intros tid srcs stype ss tp st0 Ht Hr.
    apply (combine_plates_ordered _ _ _ _ _ _ _ plate_run_l); [done..|].
    by apply order_runs_fall_through.
Qed.

(** ** Only the target among the sources *)

Lemma set_difference_only_target source_ids tid :
  (∀ i, i ∈ source_ids → i = tid) → set_difference source_ids tid = [].
Proof.
  intros Hall. unfold set_difference.
  replace (filter (λ i, i ≠ tid) source_ids) with (@nil Z); [done|].
  induction source_ids as [|i l IH]; [done|].
  rewrite filter_cons_False.
  - apply IH. intros j Hj. apply Hall. by right.
  - intros Hne. apply Hne, Hall. by left.
Qed.

Lemma getObjects_Plate_nil st : getObjects_Plate st [] = [].
Proof.
  unfold getObjects_Plate. induction (map_to_list (plates st)) as [|kp l IH]; [done|].
  rewrite filter_cons_False; [done|]. apply not_elem_of_nil.
Qed.

Lemma resolve_only_target st tid source_ids :
  (∀ i, i ∈ source_ids → i = tid) → resolve tid source_ids "Plate" st = (inr [], st).
Proof.
  intros Hall. unfold resolve. rewrite decide_True by done.
  rewrite set_difference_only_target by done.
  rewrite bind_unfold. simpl. unfold gets, expand_plates. by rewrite getObjects_Plate_nil.
Qed.

Lemma merge_runs_nil (tp : PlateObj) st :
  merge_runs tp [] st = (inr (summary_message 0 0 tp.1 0, tp), st).
Proof. reflexivity. Qed.

Lemma combine_plates_only_target st tid srcs sw ss :
  (∀ i, i ∈ as_list srcs → i = tid) →
  combine_plates tid srcs "Plate" sw ss st
  = match getObject_Plate st tid with
    | None => (inl (AssertionError msg_target_not_found), st)
    | Some tp =>
        if ss && bool_decide (plate_screen tp.2 = None)
        then (inl (AssertionError (msg_not_in_screen [tid])), st)
        else (inr (summary_message 0 0 tid 0, tp), st)
    end.
Proof.
  intros Hall. destruct (getObject_Plate st tid) as [tp|] eqn:Ht.
  - rewrite (combine_plates_ordered st tid srcs "Plate" sw ss tp [] st []);
      [|done|by apply resolve_only_target|by apply order_runs_nil].
    apply getObject_Plate_Some in Ht as [Hid _].
    rewrite bind_unfold. destruct ss; simpl.
    + rewrite screen_safety_spec. simpl. unfold screenless, screens_of. simpl.
      destruct (plate_screen tp.2) as [s|] eqn:Hs.
      * rewrite filter_cons_False by (rewrite Hs; done). simpl.
        by rewrite merge_runs_nil, Hid.
      * rewrite filter_cons_True by done. simpl. by rewrite Hid.
    + by rewrite merge_runs_nil, Hid.
  - by apply combine_plates_no_target.
Qed.

(** C8: with [source_type = "Plate"] the target's own identifier is
    dropped from the sources; a call whose sources are only the target
    leaves the store as it was, and when it returns it reports zero images,
    zero runs and no created well. *)
Theorem self_merge_is_noop (st : Store) (tid : Z) (srcs : SourceIds)
    (sw : string) (ss : bool) :
  (∀ i, i ∈ as_list srcs → i = tid) →
  set_difference (as_list srcs) tid = []
  ∧ (combine_plates tid srcs "Plate" sw ss st).2 = st
  ∧ (∀ tp, getObject_Plate st tid = Some tp →
       (ss = false ∨ is_Some (plate_screen tp.2)) →
       (combine_plates tid srcs "Plate" sw ss st).1
       = inr ("0 Images from 0 Runs merged into Plate:" +:+ pretty tid +:+ ".", tp))
  ∧ (∀ r, (combine_plates tid srcs "Plate" sw ss st).1 = inr r →
       r.1 = summary_message 0 0 tid 0).
Proof.
  intros Hall. split; [by apply set_difference_only_target|].
  rewrite combine_plates_only_target by done.
  destruct (getObject_Plate st tid) as [tp|]; [|by split_and!].
  destruct (ss && bool_decide (plate_screen tp.2 = None)) eqn:Hb; simpl.
  - split_and!; [done| |done]. intros tp' [= <-] Hok.
    apply andb_prop in Hb as [-> Hn%bool_decide_eq_true].
    destruct Hok as [|[? Hs]]; congruence.
  - split_and!; [done|by intros tp' [= <-] _|by intros r [= <-]].
Qed.

(** ** Sources that do not exist *)

Lemma save_new_run_plates plate_o st r st' :
  save_new_run plate_o st = (r, st') → plates st' = plates st ∧ wells st' = wells st.
Proof. unfold save_new_run. intros Heq. injection Heq as <- <-. done. Qed.

Lemma ensure_run_cases plate_id st :
  (plates st !! plate_id = None
   ∧ ensure_run () plate_id st
     = (inl (AttributeError (NoneType_has_no "listPlateAcquisitions")), st))
  ∨ (∃ p, plates st !! plate_id = Some p
     ∧ ensure_run () plate_id st
       = if decide (length (listPlateAcquisitions st plate_id) = 0%nat)
         then save_new_run (plate_id, p) st else (inr (), st)).
Proof.
  unfold ensure_run. rewrite bind_unfold. unfold gets, getObject_Plate.
  destruct (plates st !! plate_id) as [p|]; simpl; [right|left; done].
  exists p. split; [done|]. rewrite bind_unfold. by case_decide.
Qed.

Lemma ensure_run_plates plate_id st r st' :
  ensure_run () plate_id st = (r, st') → plates st' = plates st ∧ wells st' = wells st.
Proof.
  destruct (ensure_run_cases plate_id st) as [[_ ->]|(p & _ & ->)].
  - intros Heq. injection Heq as <- <-. done.
  - case_decide; [apply save_new_run_plates|]. intros Heq. injection Heq as <- <-. done.
Qed.

Lemma ensure_runs_missing (ids : list Z) st i :
  i ∈ ids → plates st !! i = None →
  ∃ st', for_loop ids () ensure_run st
         = (inl (AttributeError (NoneType_has_no "listPlateAcquisitions")), st').
Proof.
  revert st. induction ids as [|j ids IH]; intros st Hin Hnone.
  { by apply elem_of_nil in Hin. }
  rewrite for_loop_cons.
  destruct (ensure_run_cases j st) as [[_ Hj]|(p & Hp & Hj)].
  - rewrite Hj. eauto.
  - apply elem_of_cons in Hin as [->|Hin]; [congruence|].
    destruct (ensure_run () j st) as [[e|[]] st1] eqn:Hrun.
    + rewrite Hj in Hrun. case_decide; [|done]. unfold save_new_run in Hrun. done.
    + apply ensure_run_plates in Hrun as [Hpl _]. apply IH; [done|]. by rewrite Hpl.
Qed.

(** C10: with [source_type = "Plate"] only the target is checked for
    existence.  A source identifier that names no plate makes
    [plate_o.listPlateAcquisitions()] fail on [None]: an [AttributeError],
    not a reported error; a missing target is the assertion of line 59. *)
Theorem missing_source_plate_raises_attribute_error (st : Store) (tid : Z)
    (srcs : SourceIds) (sw : string) (ss : bool) (i : Z) :
  i ∈ as_list srcs → i ≠ tid → plates st !! i = None →
  match plates st !! tid with
  | Some _ =>
      ∃ st', combine_plates tid srcs "Plate" sw ss st
             = (inl (AttributeError (NoneType_has_no "listPlateAcquisitions")), st')
  | None =>
      combine_plates tid srcs "Plate" sw ss st
      = (inl (AssertionError msg_target_not_found), st)
  end.
Proof.
  intros Hin Hne Hnone. destruct (plates st !! tid) as [p|] eqn:Ht.
  - rewrite (combine_plates_staged st tid srcs "Plate" sw ss (tid, p))
      by (by apply getObject_Plate_Some).
    rewrite bind_unfold. unfold resolve. rewrite decide_True by done.
    rewrite bind_unfold.
    destruct (ensure_runs_missing (set_difference (as_list srcs) tid) st i) as [st' ->];
      [|done|by eauto].
    unfold set_difference. apply elem_of_remove_dups, list_elem_of_filter. done.
  - apply combine_plates_no_target. by apply getObject_Plate_None.
Qed.

(** ** Fresh identifiers *)

Lemma foldr_max_ge (l : list Z) x : x ∈ l → x ≤ foldr Z.max 0 l.
Proof.
  induction l as [|y l IH]; [by intros ?%elem_of_nil|].
  intros [->|Hin]%elem_of_cons; simpl; [lia|]. apply IH in Hin. lia.
Qed.

Lemma fresh_id_gt st x : x ∈ store_ids st → x < fresh_id st.
Proof. intros Hin%foldr_max_ge. unfold fresh_id. lia. Qed.

Lemma fresh_id_wells_gt st i w : wells st !! i = Some w → i < fresh_id st.
Proof.
  intros Hw. apply fresh_id_gt. unfold store_ids. rewrite !elem_of_app. left.
  apply list_elem_of_fmap. exists (i, w). split; [done|]. by apply elem_of_map_to_list.
Qed.

Lemma fresh_id_runs_gt st i r : runs st !! i = Some r → i < fresh_id st.
Proof.
  intros Hr. apply fresh_id_gt. unfold store_ids. rewrite !elem_of_app. right. right. left.
  apply list_elem_of_fmap. exists (i, r). split; [done|]. by apply elem_of_map_to_list.
Qed.

Lemma fresh_id_ws_well_gt st i s : samples st !! i = Some s → ws_well s < fresh_id st.
Proof.
  intros Hs. apply fresh_id_gt. unfold store_ids. rewrite !elem_of_app. right. left.
  apply list_elem_of_fmap. exists (i, s). split; [done|]. by apply elem_of_map_to_list.
Qed.

Lemma fresh_id_ws_run_gt st i s r :
  samples st !! i = Some s → ws_plateAcquisition s = Some r → r < fresh_id st.
Proof.
  intros Hs Hr. apply fresh_id_gt. unfold store_ids. rewrite !elem_of_app. do 3 right.
  apply list_elem_of_omap. exists (i, s). split; [|done]. by apply elem_of_map_to_list.
Qed.

Lemma fresh_id_wells st : wells st !! fresh_id st = None.
Proof.
  destruct (wells st !! fresh_id st) as [w|] eqn:Hw; [|done].
  apply fresh_id_wells_gt in Hw. lia.
Qed.

Lemma fresh_id_runs st : runs st !! fresh_id st = None.
Proof.
  destruct (runs st !! fresh_id st) as [r|] eqn:Hr; [|done].
  apply fresh_id_runs_gt in Hr. lia.
Qed.

(** ** What the synthesis of runs changes *)

Lemma synthesis_only_refl st : synthesis_only st st.
Proof. by split. Qed.

Lemma synthesis_only_trans st1 st2 st3 :
  synthesis_only st1 st2 → synthesis_only st2 st3 → synthesis_only st1 st3.
Proof.
  intros [Hp1 Hw1 Hr1 Hs1] [Hp2 Hw2 Hr2 Hs2]. split; [congruence|congruence| |].
  - by trans (runs st2).
  - intros sid. by rewrite Hs2.
Qed.

Lemma addAllWellSampleSet_lookup run_id (all_ws : list SampleObj) (m : gmap Z WellSample) sid :
  (∀ ws, ws ∈ all_ws → m !! ws.1 = Some ws.2) →
  addAllWellSampleSet run_id all_ws m !! sid
  = if decide (sid ∈ all_ws.*1)
    then (λ s, mkWellSample (ws_well s) (Some run_id)) <$> m !! sid
    else m !! sid.
Proof.
  unfold addAllWellSampleSet. intros Hall.
  assert (∀ m0 : gmap Z WellSample,
    (∀ i, i ∈ all_ws.*1 → ws_well <$> m0 !! i = ws_well <$> m !! i) →
    foldl (λ m ws, <[ws.1 := mkWellSample (ws_well ws.2) (Some run_id)]> m) m0 all_ws !! sid
    = if decide (sid ∈ all_ws.*1)
      then (λ s, mkWellSample (ws_well s) (Some run_id)) <$> m !! sid
      else m0 !! sid) as Hgen; [|by apply Hgen].
  induction all_ws as [|[i s] l IH]; intros m0 Hm0.
  { destruct (decide (sid ∈ [].*1)) as [H|]; [by apply elem_of_nil in H|done]. }
  assert (m !! i = Some s) as Hi by (apply (Hall (i, s)); by left).
  cbn [foldl]. rewrite fmap_cons. cbn [fst snd]. rewrite IH.
  - destruct (decide (sid ∈ l.*1)) as [Hin|Hnin].
    + rewrite decide_True; [done|]. by right.
    + destruct (decide (sid = i)) as [->|Hne].
      * rewrite decide_True by (by left). rewrite lookup_insert_eq.
        by rewrite Hi.
      * rewrite decide_False by (intros [?|?]%elem_of_cons; done).
        by rewrite lookup_insert_ne.
  - intros ws Hws. apply Hall. by right.
  - intros j Hj. destruct (decide (j = i)) as [->|Hne].
    + rewrite lookup_insert_eq. by rewrite Hi.
    + rewrite lookup_insert_ne by done. apply Hm0. by right.
Qed.

Lemma elem_of_well_listChildren st well_id (ws : SampleObj) :
  ws ∈ well_listChildren st well_id ↔ samples st !! ws.1 = Some ws.2 ∧ ws_well ws.2 = well_id.
Proof.
  unfold well_listChildren. rewrite list_elem_of_filter. destruct ws as [i s].
  rewrite elem_of_map_to_list. simpl. tauto.
Qed.

(** ** The wells a plate lists *)

Section dict.
Context {K V : Type} `{EqDecision K}.
Implicit Types (d : list (K * V)).

Lemma dict_set_keys k v d :
  (dict_set k v d).*1 = if decide (k ∈ d.*1) then d.*1 else d.*1 ++ [k].
Proof.
  induction d as [|[k' v'] d IH].
  { rewrite fmap_nil. by rewrite decide_False by apply not_elem_of_nil. }
  cbn [dict_set fst]. destruct (decide (k' = k)) as [->|Hk].
  - rewrite !fmap_cons. cbn [fst]. by rewrite decide_True by (by left).
  - rewrite !fmap_cons. cbn [fst]. rewrite IH.
    destruct (decide (k ∈ d.*1)) as [Hin|Hnin].
    + by rewrite decide_True by (by right).
    + by rewrite decide_False by (intros [?|?]%elem_of_cons; done).
Qed.

Lemma dict_set_NoDup k v d : NoDup d.*1 → NoDup (dict_set k v d).*1.
Proof.
  intros Hnd. rewrite dict_set_keys. case_decide as Hk; [done|].
  apply NoDup_app. split_and!; [done| |apply NoDup_singleton].
  by intros x Hx ->%list_elem_of_singleton.
Qed.

Lemma elem_of_dict_set k v d kv :
  kv ∈ dict_set k v d → kv = (k, v) ∨ kv ∈ d.
Proof.
  induction d as [|[k' v'] d IH]; simpl.
  { intros ->%list_elem_of_singleton. by left. }
  case_decide; intros [->|Hin]%elem_of_cons.
  - by left.
  - right. by right.
  - right. by left.
  - destruct (IH Hin) as [->|?]; [by left|right; by right].
Qed.

Lemma dict_set_set k v d : (k, v) ∈ dict_set k v d.
Proof.
  induction d as [|[k' v'] d IH]; simpl; [by left|].
  case_decide; [by left|by right].
Qed.

Lemma dict_set_other k v d kv : kv ∈ d → kv.1 ≠ k → kv ∈ dict_set k v d.
Proof.
  induction d as [|[k' v'] d IH]; simpl; [by intros ?%elem_of_nil|].
  intros [->|Hin]%elem_of_cons Hne.
  - rewrite decide_False by done. by left.
  - case_decide; right; [done|by apply IH].
Qed.
End dict.

Lemma childcache_snoc (ws : list WellObj) (well : WellObj) :
  childcache (ws ++ [well]) = dict_set (well_position well.2) well (childcache ws).
Proof. unfold childcache. by rewrite foldl_app. Qed.

Lemma childcache_NoDup (ws : list WellObj) : NoDup (childcache ws).*1.
Proof.
  induction ws as [|well ws IH] using rev_ind; [constructor|].
  rewrite childcache_snoc. by apply dict_set_NoDup.
Qed.

Lemma elem_of_childcache (ws : list WellObj) pos (well : WellObj) :
  (pos, well) ∈ childcache ws → well ∈ ws ∧ well_position well.2 = pos.
Proof.
  induction ws as [|w ws IH] using rev_ind; [by intros ?%elem_of_nil|].
  rewrite childcache_snoc. intros [[= -> ->]|Hin]%elem_of_dict_set.
  - split; [|done]. apply elem_of_app. right. by left.
  - destruct (IH Hin). split; [|done]. apply elem_of_app. by left.
Qed.

Lemma childcache_position (ws : list WellObj) (well : WellObj) :
  well ∈ ws → well_position well.2 ∈ (childcache ws).*1.
Proof.
  induction ws as [|w ws IH] using rev_ind; [by intros ?%elem_of_nil|].
  rewrite childcache_snoc, dict_set_keys.
  intros [Hin| ->%list_elem_of_singleton]%elem_of_app; case_decide; try done.
  - by apply IH.
  - apply elem_of_app. left. by apply IH.
  - apply elem_of_app. right. by left.
Qed.

(** When the positions are pairwise different, every well is kept. *)
Lemma childcache_all (ws : list WellObj) (well : WellObj) :
  (∀ w1 w2 : WellObj, w1 ∈ ws → w2 ∈ ws →
     well_position w1.2 = well_position w2.2 → w1 = w2) →
  well ∈ ws → (well_position well.2, well) ∈ childcache ws.
Proof.
  induction ws as [|w ws IH] using rev_ind; [by intros _ ?%elem_of_nil|].
  intros Hinj Hin. rewrite childcache_snoc.
  apply elem_of_app in Hin as [Hin| ->%list_elem_of_singleton];
    [|apply dict_set_set].
  destruct (decide (well_position well.2 = well_position w.2)) as [Heq|Hne].
  - rewrite (Hinj well w); [apply dict_set_set| | |done]; apply elem_of_app;
      [by left|right; by left].
  - apply dict_set_other; [|done].
    apply IH; [|done]. intros w1 w2 H1 H2. apply Hinj; apply elem_of_app; by left.
Qed.

Lemma elem_of_wells_of_plate st plate_id (well : WellObj) :
  well ∈ wells_of_plate st plate_id
  ↔ wells st !! well.1 = Some well.2 ∧ well_plate well.2 = plate_id.
Proof.
  unfold wells_of_plate. rewrite list_elem_of_filter. destruct well as [i w].
  rewrite elem_of_map_to_list. simpl. tauto.
Qed.

(** A listed well is a well of the plate. *)
Lemma elem_of_plate_listChildren st plate_id (well : WellObj) :
  well ∈ plate_listChildren st plate_id →
  wells st !! well.1 = Some well.2 ∧ well_plate well.2 = plate_id.
Proof.
  unfold plate_listChildren. intros ([pos w] & -> & Hin)%list_elem_of_fmap.
  apply elem_of_childcache in Hin as [Hin _]. by apply elem_of_wells_of_plate.
Qed.

(** The listed wells have pairwise different positions. *)
Lemma plate_listChildren_positions st plate_id :
  NoDup ((λ well : WellObj, well_position well.2) <$> plate_listChildren st plate_id).
Proof.
  unfold plate_listChildren. rewrite <-list_fmap_compose.
  assert (∀ d : list (N * N * WellObj),
    (∀ kv, kv ∈ d → well_position kv.2.2 = kv.1) →
    ((λ well : WellObj, well_position well.2) ∘ snd) <$> d = d.*1) as Hkeys.
  { induction d as [|kv d IH]; intros Hd; [done|].
    rewrite !fmap_cons. f_equal; [apply Hd; by left|].
    apply IH. intros ??. apply Hd. by right. }
  rewrite Hkeys; [apply childcache_NoDup|].
  by intros [pos w] [_ ?]%elem_of_childcache.
Qed.

Lemma NoDup_plate_listChildren st plate_id : NoDup (plate_listChildren st plate_id).
Proof. eapply NoDup_fmap_1, plate_listChildren_positions. Qed.

(** Every position the plate has a well at is listed once. *)
Lemma plate_listChildren_position st plate_id i w :
  wells st !! i = Some w → well_plate w = plate_id →
  ∃ well : WellObj, well ∈ plate_listChildren st plate_id
    ∧ well_position well.2 = well_position w.
Proof.
  intros Hw Hp.
  assert ((i, w) ∈ wells_of_plate st plate_id) as Hin by (by apply elem_of_wells_of_plate).
  apply childcache_position, list_elem_of_fmap in Hin as ([pos well] & Hpos & Hin).
  simpl in Hpos. subst pos. exists well. split.
  - unfold plate_listChildren. apply list_elem_of_fmap. by exists (well_position w, well).
  - by apply elem_of_childcache in Hin as [_ ?].
Qed.

(** Then the plate lists all its wells. *)
Lemma plate_listChildren_all st plate_id i w :
  unique_positions st plate_id →
  wells st !! i = Some w → well_plate w = plate_id →
  (i, w) ∈ plate_listChildren st plate_id.
Proof.
  intros Huniq Hw Hp. unfold plate_listChildren.
  apply list_elem_of_fmap. exists (well_position w, (i, w)). split; [done|].
  apply (childcache_all _ (i, w)); [|by apply elem_of_wells_of_plate].
  intros [i1 w1] [i2 w2] [H1 Hp1]%elem_of_wells_of_plate [H2 Hp2]%elem_of_wells_of_plate Hpos.
  simpl in *. assert (i1 = i2) as -> by (by eapply Huniq). congruence.
Qed.

Lemma all_unique_positions st :
  NoDup (placed_wells st) → ∀ plate_id, unique_positions st plate_id.
Proof.
  intros Hnd pid i j wi wj Hi Hj Hpi Hpj Hpos.
  apply elem_of_map_to_list in Hi, Hj.
  apply list_elem_of_lookup_1 in Hi as [a Ha], Hj as [b Hb].
  assert (a = b) as ->; [|congruence].
  eapply NoDup_lookup; [exact Hnd| |];
    unfold placed_wells; rewrite list_lookup_fmap; [rewrite Ha|rewrite Hb]; simpl;
    [done|]. by rewrite Hpi, Hpos, Hpj.
Qed.

Lemma elem_of_listPlateAcquisitions st plate_id (run : RunObj) :
  run ∈ listPlateAcquisitions st plate_id ↔ runs st !! run.1 = Some run.2 ∧ run_plate run.2 = plate_id.
Proof.
  unfold listPlateAcquisitions. rewrite list_elem_of_filter. destruct run as [i r].
  rewrite elem_of_map_to_list. simpl. tauto.
Qed.

Lemma elem_of_all_well_samples st plate_id (ws : SampleObj) :
  ws ∈ all_well_samples st plate_id ↔
  samples st !! ws.1 = Some ws.2
  ∧ ∃ well : WellObj, well ∈ plate_listChildren st plate_id ∧ ws_well ws.2 = well.1.
Proof.
  unfold all_well_samples. rewrite list_elem_of_bind. split.
  - intros (well & [Hws Heq]%elem_of_well_listChildren & Hw). eauto.
  - intros (Hs & well & Hw & Hwell). exists well. split; [|done].
    by apply elem_of_well_listChildren.
Qed.

Lemma save_new_run_synthesis plate_o st r st' :
  save_new_run plate_o st = (r, st') → synthesis_only st st'.
Proof.
  unfold save_new_run. intros Heq. injection Heq as <- <-. split; simpl; [done..| |].
  - apply insert_subseteq, fresh_id_runs.
  - intros sid. rewrite addAllWellSampleSet_lookup.
    + case_decide; [|done]. by destruct (samples st !! sid).
    + by intros ws [? _]%elem_of_all_well_samples.
Qed.

Lemma ensure_run_synthesis plate_id st r st' :
  ensure_run () plate_id st = (r, st') → synthesis_only st st'.
Proof.
  destruct (ensure_run_cases plate_id st) as [[_ ->]|(p & _ & ->)].
  - intros Heq. injection Heq as <- <-. apply synthesis_only_refl.
  - case_decide; [apply save_new_run_synthesis|].
    intros Heq. injection Heq as <- <-. apply synthesis_only_refl.
Qed.

Lemma resolve_synthesis tid source_ids stype st r st' :
  resolve tid source_ids stype st = (r, st') → synthesis_only st st'.
Proof.
  unfold resolve. case_decide.
  - intros [(e & Hl & _)|(a & st1 & Hl & Hg)]%bind_inv.
    + revert Hl. apply for_loop_store; [|apply synthesis_only_refl].
      intros x acc s r0 s' _ Hs Hx. destruct acc.
      eapply synthesis_only_trans; [done|]. by eapply ensure_run_synthesis.
    + unfold gets in Hg. injection Hg as <- <-.
      revert Hl. apply for_loop_store; [|apply synthesis_only_refl].
      intros x acc s r0 s' _ Hs Hx. destruct acc.
      eapply synthesis_only_trans; [done|]. by eapply ensure_run_synthesis.
  - unfold gets. intros Heq. injection Heq as <- <-. apply synthesis_only_refl.
Qed.

(** Nothing is synthesized when every source plate that exists has a run. *)
Lemma ensure_runs_nothing_to_do (ids : list Z) st r st' :
  (∀ i p, i ∈ ids → plates st !! i = Some p → listPlateAcquisitions st i ≠ []) →
  for_loop ids () ensure_run st = (r, st') → st' = st.
Proof.
  intros Hruns. apply (for_loop_store (λ s, s = st)); [|done].
  intros x [] s r0 s' Hx -> Hrun.
  destruct (ensure_run_cases x st) as [[_ Hc]|(p & Hp & Hc)]; rewrite Hc in Hrun.
  - by injection Hrun as <- <-.
  - rewrite decide_False in Hrun; [by injection Hrun as <- <-|].
    specialize (Hruns x p Hx Hp). by destruct (listPlateAcquisitions st x).
Qed.

Lemma resolve_nothing_to_do tid source_ids stype st r st' :
  stype ≠ "Plate"
  ∨ (∀ i p, i ∈ source_ids → i ≠ tid → plates st !! i = Some p →
       listPlateAcquisitions st i ≠ []) →
  resolve tid source_ids stype st = (r, st') → st' = st.
Proof.
  intros Hcond. unfold resolve. case_decide as Hs.
  - destruct Hcond as [?|Hruns]; [done|].
    assert (∀ r0 st0, for_loop (set_difference source_ids tid) () ensure_run st = (r0, st0)
                      → st0 = st) as Hloop.
    { intros r0 st0. apply ensure_runs_nothing_to_do. intros i p Hi.
      unfold set_difference in Hi. apply elem_of_remove_dups, list_elem_of_filter in Hi as [? ?].
      by apply Hruns. }
    intros [(e & Hl & _)|(a & st1 & Hl & Hg)]%bind_inv.
    + by apply Hloop in Hl.
    + apply Hloop in Hl as ->. unfold gets in Hg. by injection Hg as <- <-.
  - unfold gets. intros Heq. by injection Heq as <- <-.
Qed.

(** ** Which stage raises what *)

Lemma raise_err_inv {A} e st e' st' :
  @raise A e st = (inl e', st') → e' = e ∧ st' = st.
Proof. unfold raise. intros Heq. by injection Heq as <- <-. Qed.

Ltac raised := intros [-> _]%raise_err_inv; cbn; tauto.

Lemma resolve_exn tid source_ids stype st e st' :
  resolve tid source_ids stype st = (inl e, st') → ¬ is_assertion e.
Proof.
  unfold resolve. case_decide; [|done].
  intros [Hl|(a & st1 & _ & Hg)]%bind_err_inv; [|done].
  revert Hl. apply (for_loop_exn (λ e, ¬ is_assertion e)). intros x [] s e0 s' _ Hx.
  destruct (ensure_run_cases x s) as [[_ Hc]|(p & _ & Hc)]; rewrite Hc in Hx.
  - injection Hx as <- <-. cbn. tauto.
  - case_decide; [|done]. unfold save_new_run in Hx. done.
Qed.

Lemma create_if_missing_ok tid plate acc well st :
  ∃ acc' st', create_if_missing tid plate acc well st = (inr acc', st').
Proof. unfold create_if_missing. case_decide; eauto. Qed.

Lemma populate_target_exn tid wl well_d st e st' :
  populate_target tid wl well_d st = (inl e, st') → ¬ is_assertion e.
Proof.
  unfold populate_target. apply (for_loop_exn (λ e, ¬ is_assertion e)). intros item acc s e0 s' _.
  unfold populate_item. destruct item.1 as [plate|]; [|raised].
  intros [Hg|(a & s1 & _ & H1)]%bind_err_inv; [done|].
  apply bind_err_inv in H1 as [Hl|(? & ? & _ & ?)]; [|done].
  revert Hl. apply (for_loop_exn (λ e, ¬ is_assertion e)). intros well acc0 s0 e1 s0' _ Hc.
  destruct (create_if_missing_ok tid plate.2 acc0 well s0) as (? & ? & Heq). congruence.
Qed.

Lemma move_well_exn plate run_id well_d acc well st e st' :
  move_well plate run_id well_d acc well st = (inl e, st') → ¬ is_assertion e.
Proof.
  unfold move_well. destruct (well_d !! _); [|raised]. apply (for_loop_exn (λ e, ¬ is_assertion e)). intros ws acc0 s0 e1 s0' _.
  unfold move_sample. destruct (ws_plateAcquisition _); [|raised].
  by case_decide.
Qed.

Lemma merge_item_exn state item st e st' :
  merge_item state item st = (inl e, st') → ¬ is_assertion e.
Proof.
  destruct state as [[tp well_d] n]. unfold merge_item.
  destruct item.1.1 as [plate|]; [|raised].
  intros [Hl|([pending n'] & s2 & _ & H2)]%bind_err_inv.
  { revert Hl. apply (for_loop_exn (λ e, ¬ is_assertion e)). intros ??????. by apply move_well_exn. }
  apply bind_err_inv in H2 as [?|([] & s3 & _ & H3)]; [done|].
  apply bind_err_inv in H3 as [?|([] & s4 & _ & H4)]; [done|].
  apply bind_err_inv in H4 as [?|(reloaded & s5 & _ & H5)]; [done|].
  destruct reloaded; [|revert H5; raised].
  by apply bind_err_inv in H5 as [?|(? & ? & _ & ?)].
Qed.

Lemma merge_runs_exn tp wl st e st' :
  merge_runs tp wl st = (inl e, st') → ¬ is_assertion e.
Proof.
  unfold merge_runs.
  intros [?|(well_d & s1 & _ & H1)]%bind_err_inv; [done|].
  apply bind_err_inv in H1 as [Hp|([[well_d' k] loaded] & s2 & _ & H2)].
  { by apply populate_target_exn in Hp. }
  apply bind_err_inv in H2 as [Hl|([[tp' wd] n] & s3 & _ & H3)]; [|done].
  revert Hl. apply (for_loop_exn (λ e, ¬ is_assertion e)). intros ??????. by apply merge_item_exn.
Qed.

(** An assertion can only fail before the merge proper: the store is the
    one the resolution of the work list left. *)
Lemma combine_plates_assertion_store st tid srcs stype sw ss msg st' :
  combine_plates tid srcs stype sw ss st = (inl (AssertionError msg), st') →
  st' = st
  ∨ ∃ wl, resolve tid (as_list srcs) stype st = (inr wl, st').
Proof.
  destruct (getObject_Plate st tid) as [tp|] eqn:Ht.
  - rewrite (combine_plates_staged _ _ _ _ _ _ _ Ht).
    intros [Hr|(wl0 & st1 & Hr & H1)]%bind_err_inv.
    { by apply resolve_exn in Hr. }
    right. exists wl0.
    apply bind_err_inv in H1 as [Ho|(wl & st2 & Ho & H2)].
    { by apply order_runs_store in Ho as ->. }
    apply order_runs_store in Ho as ->.
    apply bind_err_inv in H2 as [Hs|([] & st3 & Hs & H3)].
    { destruct ss; [by apply screen_safety_store in Hs as ->|done]. }
    by apply merge_runs_exn in H3.
  - rewrite combine_plates_no_target by done. intros [= _ <-]. by left.
Qed.

(** C9 (as the code has it): the screen-safety check includes the target
    plate, also when the work list is empty.  Whenever the call gets as far
    as the check (the target exists, the work list is resolved and ordered
    and each of its runs has its plate) and the target belongs to no screen,
    the merge fails with the screen-safety error naming the target; a call
    with [source_type = "Plate"] whose sources are only the target always
    gets that far. *)
Theorem screen_check_includes_target (st : Store) (tid : Z) (tp : PlateObj)
    (srcs : SourceIds) (stype sw : string) :
  getObject_Plate st tid = Some tp → plate_screen tp.2 = None →
  (∀ wl0 wl st1,
     resolve tid (as_list srcs) stype st = (inr wl0, st1) →
     order_runs sw wl0 st1 = (inr wl, st1) →
     (∀ item : WorkItem, item ∈ wl → is_Some item.1) →
     ∃ ids, tid ∈ ids
       ∧ combine_plates tid srcs stype sw true st
         = (inl (AssertionError (msg_not_in_screen ids)), st1))
  ∧ (stype = "Plate" → (∀ i, i ∈ as_list srcs → i = tid) →
     combine_plates tid srcs stype sw true st
     = (inl (AssertionError (msg_not_in_screen [tid])), st)).
Proof.
  intros Ht Hnone. split.
  - intros wl0 wl st1 Hr Ho Hsome.
    destruct (screen_safety_target_screenless wl tp st1 Hnone Hsome) as (ids & Hin & Hs).
    exists ids. apply getObject_Plate_Some in Ht as Hid. destruct Hid as [<- _].
    split; [done|].
    rewrite (combine_plates_ordered _ _ _ _ _ _ _ _ _ _ Ht Hr Ho).
    by rewrite bind_unfold, Hs.
  - intros -> Hall. rewrite combine_plates_only_target, Ht by done.
    by rewrite bool_decide_eq_true_2.
Qed.

(** ** The synthesized run *)

Lemma in_plate_iff st plate_id x :
  in_plate st plate_id x ↔ ∃ w, wells st !! ws_well x = Some w ∧ well_plate w = plate_id.
Proof.
  unfold in_plate, sample_plate. destruct (wells st !! ws_well x) as [w|]; simpl.
  - split; [intros [= <-]; eauto|by intros (? & [= <-] & <-)].
  - split; [done|by intros (? & ? & _)].
Qed.

Lemma in_plate_wells st st' plate_id x :
  wells st' = wells st → in_plate st' plate_id x ↔ in_plate st plate_id x.
Proof. unfold in_plate, sample_plate. by intros ->. Qed.

Lemma in_plate_unique st i j x : in_plate st i x → in_plate st j x → i = j.
Proof. unfold in_plate. congruence. Qed.

(** The samples line 76 collects sit in wells of the plate ... *)
Lemma all_well_samples_in_plate st plate_id sid :
  sid ∈ (all_well_samples st plate_id).*1 →
  ∃ x, samples st !! sid = Some x ∧ in_plate st plate_id x.
Proof.
  intros ([i x] & -> & [Hx (well & Hw & Heq)]%elem_of_all_well_samples)%list_elem_of_fmap.
  simpl in *. exists x. split; [done|]. apply in_plate_iff.
  apply elem_of_plate_listChildren in Hw as [Hw Hp]. exists well.2. by rewrite Heq.
Qed.

(** ... and they are all of them when no two wells of the plate share a
    position. *)
Lemma all_well_samples_all st plate_id sid x :
  unique_positions st plate_id →
  samples st !! sid = Some x → in_plate st plate_id x →
  sid ∈ (all_well_samples st plate_id).*1.
Proof.
  intros Huniq Hx (w & Hw & Hp)%in_plate_iff.
  apply list_elem_of_fmap. exists (sid, x). split; [done|].
  apply elem_of_all_well_samples. split; [done|]. exists (ws_well x, w).
  split; [|done]. by apply plate_listChildren_all.
Qed.

Lemma save_new_run_runs (plate_o : PlateObj) st r st' pid :
  save_new_run plate_o st = (r, st') →
  listPlateAcquisitions st' pid
  ≡ₚ (if decide (plate_o.1 = pid)
      then [(fresh_id st, mkRun (plate_name plate_o.2) plate_o.1 None)] else [])
     ++ listPlateAcquisitions st pid.
Proof.
  unfold save_new_run. intros Heq. injection Heq as <- <-.
  unfold listPlateAcquisitions. simpl.
  rewrite map_to_list_insert by apply fresh_id_runs.
  case_decide.
  - by rewrite filter_cons_True.
  - by rewrite filter_cons_False.
Qed.

Lemma save_new_run_samples_in (plate_o : PlateObj) st r st' sid x :
  unique_positions st plate_o.1 →
  save_new_run plate_o st = (r, st') →
  samples st !! sid = Some x → in_plate st plate_o.1 x →
  samples st' !! sid = Some (mkWellSample (ws_well x) (Some (fresh_id st))).
Proof.
  unfold save_new_run. intros Huniq Heq Hx Hin. injection Heq as <- <-. simpl.
  rewrite addAllWellSampleSet_lookup by (by intros ws [? _]%elem_of_all_well_samples).
  rewrite decide_True by (by eapply all_well_samples_all).
  by rewrite Hx.
Qed.

(** A sample is as it was, or sits in a well of the plate and belongs to
    the new run. *)
Lemma save_new_run_samples (plate_o : PlateObj) st r st' sid :
  save_new_run plate_o st = (r, st') →
  samples st' !! sid = samples st !! sid
  ∨ ∃ x, samples st !! sid = Some x ∧ in_plate st plate_o.1 x
      ∧ samples st' !! sid = Some (mkWellSample (ws_well x) (Some (fresh_id st))).
Proof.
  unfold save_new_run. intros Heq. injection Heq as <- <-. simpl.
  rewrite addAllWellSampleSet_lookup by (by intros ws [? _]%elem_of_all_well_samples).
  case_decide as Hin; [|by left].
  apply all_well_samples_in_plate in Hin as (x & Hx & Hin). right.
  exists x. by rewrite Hx.
Qed.

Lemma save_new_run_samples_out (plate_o : PlateObj) st r st' sid x :
  save_new_run plate_o st = (r, st') →
  samples st !! sid = Some x → ¬ in_plate st plate_o.1 x →
  samples st' !! sid = Some x.
Proof.
  unfold save_new_run. intros Heq Hx Hin. injection Heq as <- <-. simpl.
  rewrite addAllWellSampleSet_lookup by (by intros ws [? _]%elem_of_all_well_samples).
  rewrite decide_False; [done|].
  intros (y & Hy & Hin')%all_well_samples_in_plate. congruence.
Qed.

(** A step of the loop of lines 66-80 on another plate than [pid]. *)
Lemma ensure_run_other pid j st st' :
  j ≠ pid → ensure_run () j st = (inr (), st') →
  wells st' = wells st ∧ plates st' = plates st ∧ runs st ⊆ runs st'
  ∧ listPlateAcquisitions st' pid ≡ₚ listPlateAcquisitions st pid
  ∧ ∀ sid x, samples st !! sid = Some x → in_plate st pid x → samples st' !! sid = Some x.
Proof.
  intros Hne Hrun.
  pose proof (ensure_run_synthesis _ _ _ _ Hrun) as [Hp Hw Hr _].
  split_and!; [done..| |].
  - destruct (ensure_run_cases j st) as [[_ Hc]|(p & _ & Hc)]; rewrite Hc in Hrun; [done|].
    case_decide; [|by injection Hrun as <-].
    apply (save_new_run_runs _ _ _ _ pid) in Hrun. simpl in Hrun.
    by rewrite decide_False in Hrun.
  - intros sid x Hx Hin.
    destruct (ensure_run_cases j st) as [[_ Hc]|(p & _ & Hc)]; rewrite Hc in Hrun; [done|].
    case_decide; [|by injection Hrun as <-].
    eapply save_new_run_samples_out; [done..|]. simpl. intros Hin'.
    by destruct (in_plate_unique _ _ _ _ Hin Hin').
Qed.

(** The step on [pid] itself, when it has no run. *)
Lemma ensure_run_synthesizes pid p st st' :
  unique_positions st pid →
  plates st !! pid = Some p → listPlateAcquisitions st pid = [] →
  ensure_run () pid st = (inr (), st') →
  wells st' = wells st ∧ plates st' = plates st
  ∧ listPlateAcquisitions st' pid = [(fresh_id st, mkRun (plate_name p) pid None)]
  ∧ ∀ sid x, samples st !! sid = Some x → in_plate st pid x →
      samples st' !! sid = Some (mkWellSample (ws_well x) (Some (fresh_id st))).
Proof.
  intros Huniq Hp Hnil Hrun.
  pose proof (ensure_run_synthesis _ _ _ _ Hrun) as [Hpl Hw _ _].
  destruct (ensure_run_cases pid st) as [[? _]|(p' & Hp' & Hc)]; [congruence|].
  rewrite Hc, Hnil, decide_True in Hrun by done.
  assert (p' = p) as -> by congruence.
  split_and!; [done..| |].
  - apply Permutation_singleton_r.
    rewrite (save_new_run_runs _ _ _ _ pid Hrun). simpl.
    by rewrite decide_True, Hnil by done.
  - intros sid x Hx Hin. by eapply (save_new_run_samples_in (pid, p)).
Qed.

(** The step on [pid] once it has a run. *)
Lemma ensure_run_has_run pid st r st' :
  listPlateAcquisitions st pid ≠ [] → ensure_run () pid st = (r, st') → st' = st.
Proof.
  intros Hne Hrun.
  destruct (ensure_run_cases pid st) as [[_ Hc]|(p & _ & Hc)]; rewrite Hc in Hrun.
  - by injection Hrun as <- <-.
  - rewrite decide_False in Hrun; [by injection Hrun as <- <-|].
    by destruct (listPlateAcquisitions st pid).
Qed.

Section synthesis.
Context (pid : Z) (p : Plate).

Lemma ensure_runs_keep (ids : list Z) rid st st' :
  listPlateAcquisitions st pid = [(rid, mkRun (plate_name p) pid None)] →
  for_loop ids () ensure_run st = (inr (), st') →
  wells st' = wells st ∧ plates st' = plates st
  ∧ listPlateAcquisitions st' pid = [(rid, mkRun (plate_name p) pid None)]
  ∧ ∀ sid x, samples st !! sid = Some x → in_plate st pid x → samples st' !! sid = Some x.
Proof.
  intros Hrun.
  apply (for_loop_ok (λ _ s,
    wells s = wells st ∧ plates s = plates st
    ∧ listPlateAcquisitions s pid = [(rid, mkRun (plate_name p) pid None)]
    ∧ ∀ sid x, samples st !! sid = Some x → in_plate st pid x → samples s !! sid = Some x));
    [|done].
  intros j [] s [] s' _ (Hw & Hp & Hl & Hs) Hj.
  destruct (decide (j = pid)) as [->|Hne].
  - apply ensure_run_has_run in Hj as ->; [done|]. by rewrite Hl.
  - apply (ensure_run_other pid) in Hj as (Hw' & Hp' & _ & Hl' & Hs'); [|done].
    split_and!; [congruence..| |].
    + apply Permutation_singleton_r. by rewrite Hl', Hl.
    + intros sid x Hx Hin. apply Hs'; [by apply Hs|].
      by apply (in_plate_wells st).
Qed.

Lemma ensure_runs_synthesize (ids : list Z) st st' :
  unique_positions st pid →
  pid ∈ ids → plates st !! pid = Some p → listPlateAcquisitions st pid = [] →
  for_loop ids () ensure_run st = (inr (), st') →
  ∃ rid, runs st !! rid = None
    ∧ wells st' = wells st ∧ plates st' = plates st
    ∧ listPlateAcquisitions st' pid = [(rid, mkRun (plate_name p) pid None)]
    ∧ ∀ sid x, samples st !! sid = Some x → in_plate st pid x →
        samples st' !! sid = Some (mkWellSample (ws_well x) (Some rid)).
Proof.
  revert st. induction ids as [|j ids IH]; intros st Huniq Hin Hp Hnil Hloop.
  { by apply elem_of_nil in Hin. }
  rewrite for_loop_cons in Hloop.
  destruct (ensure_run () j st) as [[e|[]] st1] eqn:Hj; [done|].
  destruct (decide (j = pid)) as [->|Hne].
  - apply (ensure_run_synthesizes pid p) in Hj as (Hw & Hpl & Hl & Hs); [|done..].
    apply (ensure_runs_keep _ (fresh_id st)) in Hloop as (Hw' & Hpl' & Hl' & Hs'); [|done].
    exists (fresh_id st). split_and!; [apply fresh_id_runs|congruence..|done|].
    intros sid x Hx Hi. apply Hs'; [by apply Hs|].
    apply (in_plate_wells st); [done|]. done.
  - apply elem_of_cons in Hin as [?|Hin]; [done|].
    apply (ensure_run_other pid) in Hj as (Hw & Hpl & Hr & Hl & Hs); [|done].
    destruct (IH st1) as (rid & Hfresh & Hw' & Hpl' & Hl' & Hs');
      [by unfold unique_positions; rewrite Hw|done|congruence| |done|].
    { apply Permutation_nil_r. by rewrite Hl, Hnil. }
    exists rid. split_and!; [by eapply lookup_weaken_None|congruence..|done|].
    intros sid x Hx Hi. apply Hs'; [by apply Hs|]. by apply (in_plate_wells st).
Qed.
End synthesis.

(** ** The work list of a source plate *)

Lemma filter_none {A} (P : A → Prop) `{∀ x, Decision (P x)} (l : list A) :
  (∀ x, x ∈ l → ¬ P x) → filter P l = [].
Proof.
  induction l as [|x l IH]; intros Hall; [done|].
  rewrite filter_cons_False by (apply Hall; by left).
  apply IH. intros y Hy. apply Hall. by right.
Qed.

Lemma filter_all {A} (P : A → Prop) `{∀ x, Decision (P x)} (l : list A) :
  (∀ x, x ∈ l → P x) → filter P l = l.
Proof.
  induction l as [|x l IH]; intros Hall; [done|].
  rewrite filter_cons_True by (apply Hall; by left).
  f_equal. apply IH. intros y Hy. apply Hall. by right.
Qed.

Lemma filter_bind_unique {A B} (P : B → Prop) `{∀ y, Decision (P y)}
    (g : A → list B) (l : list A) (a : A) :
  NoDup l → a ∈ l →
  (∀ x y, x ∈ l → x ≠ a → y ∈ g x → ¬ P y) →
  (∀ y, y ∈ g a → P y) →
  filter P (l ≫= g) = g a.
Proof.
  intros Hnd Hin Hother Ha.
  induction l as [|x l IH]; [by apply elem_of_nil in Hin|].
  apply NoDup_cons in Hnd as [Hx Hnd].
  rewrite bind_cons, filter_app.
  apply elem_of_cons in Hin as [->|Hin].
  - rewrite (filter_all P (g x)) by done.
    rewrite (filter_none P (l ≫= g)); [by rewrite app_nil_r|].
    intros y (x' & Hy & Hxl)%list_elem_of_bind.
    apply (Hother x' y); [by right| |done]. by intros ->.
  - assert (x ≠ a) as Hne by (by intros ->).
    rewrite (filter_none P (g x)).
    + apply IH; [done..|]. intros x' y Hx'. apply Hother. by right.
    + intros y Hy. apply (Hother x y); [by left|done..].
Qed.

Lemma elem_of_getObjects_Plate st ids (plate_o : PlateObj) :
  plate_o ∈ getObjects_Plate st ids ↔
  plates st !! plate_o.1 = Some plate_o.2 ∧ plate_o.1 ∈ ids.
Proof.
  unfold getObjects_Plate. rewrite list_elem_of_filter. destruct plate_o as [i p].
  rewrite elem_of_map_to_list. simpl. tauto.
Qed.

Lemma expand_plates_of_plate st ids pid p :
  plates st !! pid = Some p → pid ∈ ids →
  filter (λ item, item_plate_id item = Some pid) (expand_plates st ids)
  = (λ run_o, (Some (pid, p), run_o)) <$> listPlateAcquisitions st pid.
Proof.
  intros Hp Hin. unfold expand_plates.
  apply (filter_bind_unique _
    (λ plate_o : PlateObj,
       (λ run_o : RunObj, (Some plate_o, run_o)) <$> listPlateAcquisitions st plate_o.1)
    _ (pid, p)).
  - apply NoDup_filter, NoDup_map_to_list.
  - by apply elem_of_getObjects_Plate.
  - intros [k q] item [Hq _]%elem_of_getObjects_Plate Hne
      (run_o & -> & _)%list_elem_of_fmap [= ->]. simpl in *. congruence.
  - by intros item (run_o & -> & _)%list_elem_of_fmap.
Qed.

Lemma elem_of_set_difference source_ids tid i :
  i ∈ set_difference source_ids tid ↔ i ∈ source_ids ∧ i ≠ tid.
Proof. unfold set_difference. by rewrite elem_of_remove_dups, list_elem_of_filter, (comm and). Qed.

Lemma resolve_plate_inv tid source_ids st wl st1 :
  resolve tid source_ids "Plate" st = (inr wl, st1) →
  for_loop (set_difference source_ids tid) () ensure_run st = (inr (), st1)
  ∧ wl = expand_plates st1 (set_difference source_ids tid).
Proof.
  unfold resolve. rewrite decide_True by done.
  intros ([] & s & Hl & Hg)%bind_ok_inv. unfold gets in Hg. by injection Hg as <- <-.
Qed.

(** C7: with [source_type = "Plate"], a source plate without a run, whose
    wells have pairwise different positions, gets exactly one run,
    synthesized with the name of the plate; all the samples of the wells of
    that plate belong to it, and the plate contributes this run, and no
    other, to the work list. *)
Theorem runless_source_gets_one_run (st : Store) (tid : Z) (srcs : SourceIds)
    (wl : list WorkItem) (st1 : Store) (pid : Z) (p : Plate) :
  resolve tid (as_list srcs) "Plate" st = (inr wl, st1) →
  pid ∈ as_list srcs → pid ≠ tid →
  plates st !! pid = Some p → listPlateAcquisitions st pid = [] →
  unique_positions st pid →
  ∃ rid,
    runs st !! rid = None
    ∧ listPlateAcquisitions st1 pid = [(rid, mkRun (plate_name p) pid None)]
    ∧ (∀ sid x, samples st !! sid = Some x → in_plate st pid x →
         samples st1 !! sid = Some (mkWellSample (ws_well x) (Some rid)))
    ∧ filter (λ item, item_plate_id item = Some pid) wl
      = [(Some (pid, p), (rid, mkRun (plate_name p) pid None))].
Proof.
  intros [Hloop ->]%resolve_plate_inv Hin Hne Hp Hnil Huniq.
  assert (pid ∈ set_difference (as_list srcs) tid) as Hin'
    by (by apply elem_of_set_difference).
  destruct (ensure_runs_synthesize pid p _ st st1 Huniq Hin' Hp Hnil Hloop)
    as (rid & Hfresh & Hw & Hpl & Hl & Hs).
  exists rid. split_and!; [done..|].
  rewrite (expand_plates_of_plate st1 _ pid p) by (by rewrite ?Hpl).
  by rewrite Hl.
Qed.

Lemma runless_source_witness :
  ∃ rid,
    runs TwoScreens.st0 !! rid = None
    ∧ listPlateAcquisitions
        (resolve 1 [2] "Plate" TwoScreens.st0).2 2 = [(rid, mkRun "P2" 2 None)]
    ∧ (∀ sid x, samples TwoScreens.st0 !! sid = Some x → in_plate TwoScreens.st0 2 x →
         samples (resolve 1 [2] "Plate" TwoScreens.st0).2 !! sid
         = Some (mkWellSample (ws_well x) (Some rid)))
    ∧ filter (λ item, item_plate_id item = Some 2)
        (expand_plates (resolve 1 [2] "Plate" TwoScreens.st0).2 [2])
      = [(Some (2, mkPlate "P2" (Some 8) None None), (rid, mkRun "P2" 2 None))].
Proof.
  refine (runless_source_gets_one_run TwoScreens.st0 1 (IdList [2]) _ _ 2
            (mkPlate "P2" (Some 8) None None) _ _ _ _ _ _).
  - vm_compute. reflexivity.
  - simpl. by apply list_elem_of_singleton.
  - lia.
  - vm_compute. reflexivity.
  - vm_compute. reflexivity.
  - apply all_unique_positions, (bool_decide_unpack _). vm_compute. exact I.
Defined.

(** ** What a failed assertion leaves behind *)

Lemma synthesized_refl st ids : synthesized st ids st.
Proof.
  split; [apply synthesis_only_refl| | |by left].
  - intros rid run ??. congruence.
  - intros rid run rid' run' (Hnone & Hsome & _). congruence.
Qed.

Lemma synthesized_run_mono st s s' ids rid run :
  runs s ⊆ runs s' → synthesized_run st s ids rid run → synthesized_run st s' ids rid run.
Proof.
  intros Hsub (Hnone & Hsome & Hin & Hnil & Hp). split_and!; [done| |done..].
  by eapply lookup_weaken.
Qed.

Lemma listPlateAcquisitions_nil st plate_id :
  listPlateAcquisitions st plate_id = []
  ↔ ∀ rid run, runs st !! rid = Some run → run_plate run ≠ plate_id.
Proof.
  split.
  - intros Hnil rid run Hr Hp.
    assert ((rid, run) ∈ listPlateAcquisitions st plate_id) as Hin
      by (by apply elem_of_listPlateAcquisitions).
    rewrite Hnil in Hin. by apply elem_of_nil in Hin.
  - intros Hall. apply filter_none. intros [rid run] Hin%elem_of_map_to_list. simpl.
    by apply (Hall rid run).
Qed.

(** A round of the loop of lines 66-80 keeps the relation. *)
Lemma ensure_run_synthesized st ids s j r s' :
  synthesized st ids s → j ∈ ids →
  ensure_run () j s = (r, s') → synthesized st ids s'.
Proof.
  intros Hsyn Hj Hrun.
  destruct (ensure_run_cases j s) as [[_ Hc]|(p & Hp & Hc)]; rewrite Hc in Hrun.
  { by injection Hrun as <- <-. }
  case_decide as Hlen; [|by injection Hrun as <- <-].
  apply nil_length_inv in Hlen.
  pose proof (save_new_run_synthesis _ _ _ _ Hrun) as Hstep.
  destruct Hsyn as [Honly Hnew Hone Hch].
  pose proof (syn_runs _ _ Hstep) as Hsub.
  assert (runs s' = <[fresh_id s := mkRun (plate_name p) j None]> (runs s)) as Hruns.
  { unfold save_new_run in Hrun. by injection Hrun as <- <-. }
  assert (synthesized_run st s' ids (fresh_id s) (mkRun (plate_name p) j None)) as Hfresh.
  { split_and!; simpl.
    - eapply lookup_weaken_None; [apply fresh_id_runs|apply (syn_runs _ _ Honly)].
    - by rewrite Hruns, lookup_insert_eq.
    - done.
    - apply listPlateAcquisitions_nil. intros rid run Hr.
      apply (proj1 (listPlateAcquisitions_nil s j) Hlen rid).
      by eapply lookup_weaken, (syn_runs _ _ Honly).
    - exists p. by rewrite <-(syn_plates _ _ Honly). }
  assert (∀ rid run, synthesized_run st s' ids rid run →
            rid = fresh_id s ∧ run = mkRun (plate_name p) j None
            ∨ rid ≠ fresh_id s ∧ synthesized_run st s ids rid run) as Hcases.
  { intros rid run (Hnone & Hsome & Hrest). rewrite Hruns in Hsome.
    apply lookup_insert_Some in Hsome as [[<- <-]|[Hne Hsome]]; [by left|].
    right. split; [done|]. by apply Hnew. }
  split.
  - by eapply synthesis_only_trans.
  - intros rid run Hsome Hnone. rewrite Hruns in Hsome.
    apply lookup_insert_Some in Hsome as [[<- <-]|[Hne Hsome]]; [done|].
    eapply synthesized_run_mono; [done|]. by apply Hnew.
  - intros rid run rid' run' H1 H2 Heq.
    destruct (Hcases _ _ H1) as [[-> ->]|[Hne1 H1']],
             (Hcases _ _ H2) as [[-> ->]|[Hne2 H2']]; [done| | |by eapply Hone].
    + exfalso. destruct H2' as (_ & Hr & _).
      by apply (proj1 (listPlateAcquisitions_nil s j) Hlen rid' run').
    + exfalso. destruct H1' as (_ & Hr & _).
      by apply (proj1 (listPlateAcquisitions_nil s j) Hlen rid run).
  - intros sid.
    destruct (save_new_run_samples _ _ _ _ sid Hrun) as [Heq|(x1 & Hx1 & Hin & Heq)].
    + rewrite Heq. destruct (Hch sid) as [?|(x & rid & run & Hx & Hr & Hin & Hx')];
        [by left|].
      right. exists x, rid, run. split_and!; [done| |done..].
      by eapply synthesized_run_mono.
    + right. simpl in Hin.
      assert (∃ x, samples st !! sid = Some x ∧ ws_well x = ws_well x1) as (x & Hx & Hw).
      { pose proof (syn_samples _ _ Honly sid) as Hws. rewrite Hx1 in Hws.
        destruct (samples st !! sid) as [x|]; [|done]. exists x. split; [done|].
        by injection Hws. }
      exists x, (fresh_id s), (mkRun (plate_name p) j None).
      split_and!; [done..| |by rewrite Heq, Hw]. simpl.
      unfold in_plate, sample_plate in *. by rewrite Hw, <-(syn_wells _ _ Honly).
Qed.

Lemma ensure_runs_synthesized st ids r st' :
  for_loop ids () ensure_run st = (r, st') → synthesized st ids st'.
Proof.
  apply (for_loop_store (λ s, synthesized st ids s)); [|apply synthesized_refl].
  intros j [] s r0 s' Hj Hsyn Hrun. by eapply ensure_run_synthesized.
Qed.

Lemma resolve_synthesized tid source_ids stype st r st' :
  resolve tid source_ids stype st = (r, st') →
  synthesized st (source_plate_ids tid source_ids stype) st'.
Proof.
  unfold resolve, source_plate_ids. case_decide.
  - intros [(e & Hl & _)|(a & st1 & Hl & Hg)]%bind_inv.
    + by eapply ensure_runs_synthesized.
    + unfold gets in Hg. injection Hg as <- <-. by eapply ensure_runs_synthesized.
  - unfold gets. intros Heq. injection Heq as <- <-. apply synthesized_refl.
Qed.

(** C2 (as the code has it): when the merge fails on an assertion (the
    target is missing, a run lacks its start time under "Acquisition start
    time", or the screen-safety check fails), no well has been created, no
    sample has changed its well and no run of the store has been changed.
    What may have been saved are the runs synthesized for sources without a
    run: a run that is new is the run of a plate named among the sources
    of a call with [source_type = "Plate"], not the target, that had no
    run, one run for such a plate, with the name of the plate; and a
    sample that is not as it was sits in a well of such a plate and has
    changed its run only, to the run of that plate.  When the sources are
    not plates, or every source plate that exists already has a run, the
    store is unchanged. *)
Theorem assertion_failure_saves_only_synthesized_runs (st : Store) (tid : Z)
    (srcs : SourceIds) (stype sw : string) (ss : bool) (msg : string) (st' : Store) :
  combine_plates tid srcs stype sw ss st = (inl (AssertionError msg), st') →
  synthesized st (source_plate_ids tid (as_list srcs) stype) st'
  ∧ (∀ i, i ∈ source_plate_ids tid (as_list srcs) stype →
       stype = "Plate" ∧ i ∈ as_list srcs ∧ i ≠ tid)
  ∧ ((stype ≠ "Plate"
      ∨ (∀ i p, i ∈ as_list srcs → i ≠ tid → plates st !! i = Some p →
           listPlateAcquisitions st i ≠ []))
     → st' = st).
Proof.
  intros Hfail. split_and!.
  - apply combine_plates_assertion_store in Hfail as [->|(wl & Hr)].
    + apply synthesized_refl.
    + by eapply resolve_synthesized.
  - unfold source_plate_ids. intros i. case_decide; [|by intros ?%elem_of_nil].
    by intros [? ?]%elem_of_set_difference.
  - apply combine_plates_assertion_store in Hfail as [->|(wl & Hr)]; [done|].
    intros Hcond. by eapply resolve_nothing_to_do.
Qed.

Lemma gets_ok_inv {A} (f : Store → A) st a st' :
  gets f st = (inr a, st') → a = f st ∧ st' = st.
Proof. unfold gets. intros Heq. by injection Heq as <- <-. Qed.

Lemma modify_inv f st r st' : modify f st = (r, st') → r = inr () ∧ st' = f st.
Proof. unfold modify. intros Heq. by injection Heq as <- <-. Qed.

(** ** A completed merge, stage by stage *)

Lemma combine_plates_ok_inv st tid srcs stype sw ss msg (tp' : PlateObj) st' :
  combine_plates tid srcs stype sw ss st = (inr (msg, tp'), st') →
  ∃ (tp : PlateObj) wl0 st1 wl well_d k loaded st2 wd' n,
    getObject_Plate st tid = Some tp
    ∧ resolve tid (as_list srcs) stype st = (inr wl0, st1)
    ∧ order_runs sw wl0 st1 = (inr wl, st1)
    ∧ populate_target tp.1 wl (index_wells st1 tp) st1 = (inr (well_d, k, loaded), st2)
    ∧ for_loop loaded (tp, well_d, 0%nat) merge_item st2 = (inr (tp', wd', n), st')
    ∧ msg = summary_message n (length wl) tp'.1 k.
Proof.
  destruct (getObject_Plate st tid) as [tp|] eqn:Ht;
    [|by rewrite combine_plates_no_target].
  rewrite (combine_plates_staged _ _ _ _ _ _ _ Ht).
  intros (wl0 & st1 & Hr & H1)%bind_ok_inv.
  apply bind_ok_inv in H1 as (wl & st1' & Ho & H2).
  pose proof (order_runs_store _ _ _ _ _ Ho) as ->.
  apply bind_ok_inv in H2 as ([] & st1' & Hs & H3).
  assert (st1' = st1) as ->.
  { destruct ss; [by apply screen_safety_store in Hs|]. by apply ret_inv in Hs as [_ ->]. }
  unfold merge_runs in H3.
  apply bind_ok_inv in H3 as (d0 & s & Hg & H4). unfold gets in Hg. injection Hg as <- <-.
  apply bind_ok_inv in H4 as ([[well_d k] loaded] & st2 & Hp & H5).
  apply bind_ok_inv in H5 as ([[tp2 wd'] n] & st3 & Hl & H6).
  apply ret_inv in H6 as [[= -> ->] ->].
  by exists tp, wl0, st1, wl, well_d, k, loaded, st2, wd', n.
Qed.

(** ** The index of the target's wells *)

Lemma index_fold_lookup (plate : Plate) (l : list WellObj) (d0 : gmap string Z) label i :
  foldl (λ well_d (well : WellObj), <[getWellPos plate well.2 := well.1]> well_d) d0 l
    !! label = Some i →
  d0 !! label = Some i ∨ ∃ w, (i, w) ∈ l ∧ getWellPos plate w = label.
Proof.
  revert d0. induction l as [|[j w] l IH]; intros d0; simpl; [by left|].
  intros [Hd|(w' & Hin & Hpos)]%IH.
  - destruct (decide (getWellPos plate w = label)) as [<-|Hne].
    + rewrite lookup_insert_eq in Hd. injection Hd as ->. right. exists w.
      split; [by left|done].
    + rewrite lookup_insert_ne in Hd by done. by left.
  - right. exists w'. split; [by right|done].
Qed.

Lemma index_fold_covers (plate : Plate) (l : list WellObj) (d0 : gmap string Z) label :
  is_Some (d0 !! label) ∨ (∃ well : WellObj, well ∈ l ∧ getWellPos plate well.2 = label) →
  is_Some (foldl (λ well_d (well : WellObj), <[getWellPos plate well.2 := well.1]> well_d)
             d0 l !! label).
Proof.
  revert d0. induction l as [|[j w] l IH]; intros d0; simpl.
  - intros [?|(? & ?%elem_of_nil & _)]; done.
  - intros [Hd|(well & Hin & Hpos)]; apply IH.
    + left. destruct (decide (getWellPos plate w = label)) as [<-|Hne].
      * rewrite lookup_insert_eq. eauto.
      * by rewrite lookup_insert_ne.
    + apply elem_of_cons in Hin as [->|Hin].
      * left. simpl in Hpos. rewrite Hpos, lookup_insert_eq. eauto.
      * right. eauto.
Qed.

Lemma index_wells_target st (plate : PlateObj) :
  target_index st plate.1 (index_wells st plate).
Proof.
  unfold index_wells. intros label i
    [Hd|(w & [? ?]%elem_of_plate_listChildren & _)]%index_fold_lookup; [done|eauto].
Qed.

(** The label of every well the plate lists is in the index. *)
Lemma index_wells_covers st (plate : PlateObj) (well : WellObj) :
  well ∈ plate_listChildren st plate.1 →
  is_Some (index_wells st plate !! getWellPos plate.2 well.2).
Proof. intros Hin. apply index_fold_covers. right. by exists well. Qed.

(** ** Populating the target *)

Lemma populated_refl tid st : populated tid st st.
Proof. split; [done..|]. intros i w ??. congruence. Qed.

(** The wells of another plate are the ones it had. *)
Lemma populated_wells_other tid st0 st i w :
  populated tid st0 st → well_plate w ≠ tid →
  wells st !! i = Some w ↔ wells st0 !! i = Some w.
Proof.
  intros Hpop Hne. split;
    [|intros Hw0; by eapply lookup_weaken, (pop_wells _ _ _ Hpop)].
  intros Hw. destruct (wells st0 !! i) as [w0|] eqn:Hw0.
  - pose proof (lookup_weaken _ _ _ _ Hw0 (pop_wells _ _ _ Hpop)) as Hw'.
    congruence.
  - by destruct (pop_new _ _ _ Hpop i w Hw Hw0).
Qed.

Lemma populated_unique_other tid st0 st plate_id :
  populated tid st0 st → plate_id ≠ tid →
  unique_positions st0 plate_id → unique_positions st plate_id.
Proof.
  intros Hpop Hne Huniq i j wi wj Hi Hj Hpi Hpj.
  apply (populated_wells_other tid st0 st) in Hi, Hj; [|congruence..].
  by apply Huniq.
Qed.

(** A sample sits in the well it sat in. *)
Lemma populated_in_plate tid st0 st plate_id sid x :
  populated tid st0 st → samples st0 !! sid = Some x →
  in_plate st plate_id x ↔ in_plate st0 plate_id x.
Proof.
  intros Hpop Hx. rewrite !in_plate_iff. split; intros (w & Hw & Hp); exists w;
    (split; [|done]).
  - destruct (wells st0 !! ws_well x) as [w0|] eqn:Hw0.
    + pose proof (lookup_weaken _ _ _ _ Hw0 (pop_wells _ _ _ Hpop)) as Hw'.
      congruence.
    + destruct (pop_new _ _ _ Hpop _ w Hw Hw0) as [_ Hfree]. by destruct (Hfree sid x).
  - by eapply lookup_weaken, (pop_wells _ _ _ Hpop).
Qed.

Lemma create_if_missing_inv tid st0 plate acc well st acc' st' :
  populate_inv tid st0 acc st →
  create_if_missing tid plate acc well st = (inr acc', st') →
  populate_inv tid st0 acc' st'.
Proof.
  intros ([Hpl Hsa Hru Hwe Hnew] & Hval & Hsize).
  unfold create_if_missing. case_decide as Hpos.
  { intros [[= ->] ->]%ret_inv. by split_and!. }
  intros (new & s & Hsave & [[= ->] ->]%ret_inv)%bind_ok_inv.
  unfold saveAndReturn_new_well in Hsave. injection Hsave as <- <-.
  pose proof (fresh_id_wells st) as Hfresh.
  split_and!.
  - split; simpl; [done..| |].
    + etrans; [done|]. by apply insert_subseteq.
    + intros i w. destruct (decide (i = fresh_id st)) as [->|Hne].
      * rewrite lookup_insert_eq. intros [= <-] H0. split; [done|].
        intros sid x Hx Heq. rewrite <-Hsa in Hx.
        apply fresh_id_ws_well_gt in Hx. lia.
      * rewrite lookup_insert_ne by done. apply Hnew.
  - intros label i. simpl.
    destruct (decide (getWellPos plate well.2 = label)) as [<-|Hne].
    + rewrite lookup_insert_eq. intros [= <-]. eexists.
      by rewrite lookup_insert_eq.
    + rewrite lookup_insert_ne by done. intros (w & Hw & ?)%Hval.
      exists w. rewrite lookup_insert_ne; [done|]. congruence.
  - simpl. rewrite map_size_insert_None by done. lia.
Qed.

Lemma populate_item_inv tid st0 acc item st acc' st' :
  populate_inv tid st0 acc.1 st → Forall (loaded_from tid st0) acc.2 →
  populate_item tid acc item st = (inr acc', st') →
  populate_inv tid st0 acc'.1 st' ∧ Forall (loaded_from tid st0) acc'.2
  ∧ ∃ children, acc'.2 = acc.2 ++ [(item, children)].
Proof.
  intros Hinv Hloaded. unfold populate_item. destruct item.1 as [plate|] eqn:Hplate; [|done].
  intros (children & s & [-> ->]%gets_ok_inv & H1)%bind_ok_inv.
  apply bind_ok_inv in H1 as (acc1 & s1 & Hloop & [Heq ->]%ret_inv).
  injection Heq as Heq. subst acc'. simpl.
  split_and!.
  - revert Hloop. apply (for_loop_ok (populate_inv tid st0)); [|done].
    intros well a s0 a' s0' _. apply create_if_missing_inv.
  - apply Forall_app. split; [done|]. apply Forall_singleton.
    exists plate, st. by destruct Hinv.
  - by eexists.
Qed.

Lemma populate_loop tid st0 (wl : list WorkItem) :
  ∀ acc st acc' st',
    populate_inv tid st0 acc.1 st → Forall (loaded_from tid st0) acc.2 →
    for_loop wl acc (populate_item tid) st = (inr acc', st') →
    populate_inv tid st0 acc'.1 st' ∧ Forall (loaded_from tid st0) acc'.2
    ∧ ∃ loaded, acc'.2 = acc.2 ++ loaded ∧ loaded.*1 = wl.
Proof.
  induction wl as [|item wl IH]; intros acc st acc' st' Hinv Hloaded.
  { intros [[= <-] <-]%ret_inv. split_and!; [done..|]. exists []. by rewrite app_nil_r. }
  rewrite for_loop_cons.
  destruct (populate_item tid acc item st) as [[e|acc1] st1] eqn:Hstep; [done|].
  apply (populate_item_inv tid st0) in Hstep
    as (Hinv1 & Hloaded1 & children & Hacc1); [|done..].
  intros (Hinv' & Hloaded' & loaded & Hacc' & Hfst)%IH; [|done..].
  split_and!; [done..|]. exists ((item, children) :: loaded).
  rewrite Hacc', Hacc1, <-app_assoc. split; [done|]. by rewrite fmap_cons, Hfst.
Qed.

(** Lines 114-129, from the index of the target as loaded in [st]. *)
Lemma populate_target_inv st (tp : PlateObj) wl well_d k loaded st' :
  populate_target tp.1 wl (index_wells st tp) st = (inr (well_d, k, loaded), st') →
  populated tp.1 st st' ∧ target_index st' tp.1 well_d
  ∧ size (wells st') = (size (wells st) + k)%nat
  ∧ Forall (loaded_from tp.1 st) loaded ∧ loaded.*1 = wl.
Proof.
  unfold populate_target. intros Hloop.
  apply (populate_loop tp.1 st) in Hloop
    as ((Hpop & Hidx & Hsize) & Hloaded & loaded' & Heq & Hfst); simpl in *.
  - subst loaded. by split_and!.
  - split_and!; [apply populated_refl|apply index_wells_target|simpl; lia].
  - constructor.
Qed.

(** ** The wells an entry has listed *)

Lemma elem_of_load_children st plate_id (child : WellObj * list SampleObj) :
  child ∈ load_children st plate_id ↔
  child.1 ∈ plate_listChildren st plate_id ∧ child.2 = well_listChildren st child.1.1.
Proof.
  unfold load_children. rewrite list_elem_of_fmap. split.
  - by intros (well & -> & Hin).
  - intros [Hin Heq]. exists child.1. split; [|done]. destruct child. simpl in *. by subst.
Qed.

(** A listed sample sits in a well of the plate. *)
Lemma listed_samples_in_plate st plate_id (ws : SampleObj) :
  ws ∈ listed_samples (load_children st plate_id) →
  samples st !! ws.1 = Some ws.2 ∧ in_plate st plate_id ws.2.
Proof.
  unfold listed_samples. intros (child & Hws & [Hw Heq]%elem_of_load_children)%list_elem_of_bind.
  rewrite Heq in Hws. apply elem_of_well_listChildren in Hws as [Hs Hwell].
  apply elem_of_plate_listChildren in Hw as [Hw Hp].
  split; [done|]. apply in_plate_iff. exists child.1.2. by rewrite Hwell.
Qed.

(** When no two wells of the plate share a position, every sample that
    sits in a well of the plate is listed. *)
Lemma listed_samples_all st plate_id sid x :
  unique_positions st plate_id →
  samples st !! sid = Some x → in_plate st plate_id x →
  (sid, x) ∈ listed_samples (load_children st plate_id).
Proof.
  intros Huniq Hx (w & Hw & Hp)%in_plate_iff. unfold listed_samples.
  apply list_elem_of_bind. exists ((ws_well x, w), well_listChildren st (ws_well x)). split.
  - by apply elem_of_well_listChildren.
  - apply elem_of_load_children. split; [|done]. by apply plate_listChildren_all.
Qed.

Lemma NoDup_well_listChildren st well_id : NoDup (well_listChildren st well_id).
Proof. apply NoDup_filter, NoDup_map_to_list. Qed.

(** No sample is listed twice. *)
Lemma NoDup_listed_samples st plate_id :
  NoDup (listed_samples (load_children st plate_id)).*1.
Proof.
  apply NoDup_fmap_2_strong.
  - intros [i x] [i' x'] [Hx _]%listed_samples_in_plate [Hx' _]%listed_samples_in_plate.
    simpl in *. intros <-. congruence.
  - unfold listed_samples. apply NoDup_bind.
    + intros child child' ws [Hw Heq]%elem_of_load_children
        [Hw' Heq']%elem_of_load_children. rewrite Heq, Heq'.
      intros [_ Hi]%elem_of_well_listChildren [_ Hi']%elem_of_well_listChildren.
      apply elem_of_plate_listChildren in Hw as [Hw _], Hw' as [Hw' _].
      destruct child as [[i w] l], child' as [[i' w'] l']. simpl in *.
      assert (i' = i) as -> by congruence. assert (w' = w) as -> by congruence.
      congruence.
    + intros child [_ ->]%elem_of_load_children. apply NoDup_well_listChildren.
    + unfold load_children. apply NoDup_fmap_2; [by intros ?? [= ->]|].
      apply NoDup_plate_listChildren.
Qed.

(** What an entry has listed, when its plate is not the target and has no
    two wells at one position: the samples that sit in the wells of the
    plate in [st0], each once. *)
Lemma loaded_from_samples tid st0 (item : Loaded) :
  loaded_from tid st0 item →
  ∃ plate : PlateObj, item.1.1 = Some plate
    ∧ NoDup (listed_samples item.2).*1
    ∧ (∀ ws : SampleObj, ws ∈ listed_samples item.2 → samples st0 !! ws.1 = Some ws.2)
    ∧ (plate.1 ≠ tid → unique_positions st0 plate.1 →
       ∀ sid x, samples st0 !! sid = Some x → in_plate st0 plate.1 x →
         (sid, x) ∈ listed_samples item.2).
Proof.
  intros (plate & s & Hp & Hpop & ->). exists plate. split_and!; [done|..].
  - apply NoDup_listed_samples.
  - intros ws [Hs _]%listed_samples_in_plate. by rewrite <-(pop_samples _ _ _ Hpop).
  - intros Hne Huniq sid x Hx Hin. apply listed_samples_all.
    + by eapply populated_unique_other.
    + by rewrite (pop_samples _ _ _ Hpop).
    + by eapply populated_in_plate.
Qed.

(** ** Folding one run into the target *)

Lemma move_sample_loop run_id well_oi (wss : list SampleObj) acc st acc' st' :
  for_loop wss acc (move_sample run_id well_oi) st = (inr acc', st') →
  st' = st
  ∧ acc'.1 = acc.1 ++ ((λ ws, (ws, well_oi))
                <$> filter (λ ws : SampleObj, ws_plateAcquisition ws.2 = Some run_id) wss)
  ∧ acc'.2 = (acc.2 + length (filter (λ ws : SampleObj,
                                  ws_plateAcquisition ws.2 = Some run_id) wss))%nat.
Proof.
  revert acc. induction wss as [|ws wss IH]; intros acc.
  { intros [[= ->] ->]%ret_inv. by rewrite app_nil_r, Nat.add_0_r. }
  rewrite for_loop_cons. unfold move_sample at 1.
  destruct (ws_plateAcquisition ws.2) as [r|] eqn:Hr; [|done].
  destruct (decide (r = run_id)) as [->|Hne]; simpl.
  - intros (-> & -> & ->)%IH. simpl.
    rewrite filter_cons_True by done. simpl.
    split_and!; [done|by rewrite <-app_assoc|lia].
  - intros (-> & -> & ->)%IH.
    by rewrite filter_cons_False by (rewrite Hr; congruence).
Qed.

Lemma move_well_loop plate run_id well_d (children : Children) acc st acc' st' :
  for_loop children acc (move_well plate run_id well_d) st = (inr acc', st') →
  st' = st
  ∧ acc'.1 = acc.1 ++ run_moves plate run_id well_d children
  ∧ acc'.2 = (acc.2 + length (run_moves plate run_id well_d children))%nat
  ∧ ∀ child : WellObj * list SampleObj, child ∈ children →
      is_Some (well_d !! getWellPos plate child.1.2).
Proof.
  revert acc. induction children as [|child children IH]; intros acc.
  { intros [[= ->] ->]%ret_inv. unfold run_moves. simpl.
    rewrite app_nil_r, Nat.add_0_r. split_and!; [done..|]. by intros ? ?%elem_of_nil. }
  rewrite for_loop_cons. unfold move_well at 1.
  destruct (well_d !! getWellPos plate child.1.2) as [well_oi|] eqn:Hd; [|done].
  destruct (for_loop child.2 acc (move_sample run_id well_oi) st)
    as [[e|acc1] st1] eqn:Hs; [done|].
  apply move_sample_loop in Hs as (-> & H1 & H2).
  intros (-> & H1' & H2' & Hall)%IH.
  unfold run_moves. rewrite bind_cons, Hd. fold (run_moves plate run_id well_d children).
  rewrite length_app, length_fmap.
  split_and!; [done|by rewrite H1', H1, <-app_assoc|lia|].
  intros w [->|Hw]%elem_of_cons; [by rewrite Hd|by apply Hall].
Qed.

(** A move is a listed sample of the run and an entry of the index. *)
Lemma elem_of_run_moves plate run_id well_d (children : Children) (ws : SampleObj) tw :
  (ws, tw) ∈ run_moves plate run_id well_d children →
  ws ∈ listed_samples children ∧ ws_plateAcquisition ws.2 = Some run_id
  ∧ ∃ label, well_d !! label = Some tw.
Proof.
  unfold run_moves, listed_samples. rewrite !list_elem_of_bind.
  intros (child & Hin & Hchild).
  destruct (well_d !! getWellPos plate child.1.2) as [well_oi|] eqn:Hd;
    [|by apply elem_of_nil in Hin].
  apply list_elem_of_fmap in Hin as (ws' & [= <- <-] & [Hr Hin]%list_elem_of_filter).
  split_and!; [by exists child|done|by eexists].
Qed.

(** Every listed sample of the run has a move, once the label of every
    listed well is in the index. *)
Lemma run_moves_all plate run_id well_d (children : Children) (ws : SampleObj) :
  (∀ child : WellObj * list SampleObj, child ∈ children →
     is_Some (well_d !! getWellPos plate child.1.2)) →
  ws ∈ listed_samples children → ws_plateAcquisition ws.2 = Some run_id →
  ∃ tw, (ws, tw) ∈ run_moves plate run_id well_d children.
Proof.
  unfold run_moves, listed_samples. intros Hcov (child & Hin & Hchild)%list_elem_of_bind Hr.
  destruct (Hcov child Hchild) as [tw Htw]. exists tw.
  apply list_elem_of_bind. exists child. split; [|done]. rewrite Htw.
  apply list_elem_of_fmap. exists ws. split; [done|]. by apply list_elem_of_filter.
Qed.

Lemma run_moves_samples plate run_id well_d (children : Children) :
  (run_moves plate run_id well_d children).*1
  `sublist_of` listed_samples children.
Proof.
  unfold run_moves, listed_samples. induction children as [|child children IH]; [done|].
  rewrite !bind_cons, fmap_app. apply sublist_app; [|done].
  destruct (well_d !! _); [|apply sublist_nil_l].
  rewrite <-list_fmap_compose. simpl. rewrite list_fmap_id. apply sublist_filter.
Qed.

(** No sample has two moves. *)
Lemma NoDup_run_moves plate run_id well_d (children : Children) :
  NoDup (listed_samples children).*1 →
  NoDup (run_moves plate run_id well_d children).*1.*1.
Proof.
  intros Hnd. apply (sublist_NoDup _ (listed_samples children).*1); [done|].
  apply fmap_sublist, run_moves_samples.
Qed.

(** What saving the wells does to the table of samples. *)
Lemma save_wells_lookup_other (pending : Pending) m sid :
  sid ∉ pending.*1.*1 → foldl setWell m pending !! sid = m !! sid.
Proof.
  revert m. induction pending as [|mv pending IH]; intros m Hnin; [done|].
  simpl. rewrite IH by (intros ?; apply Hnin; by right).
  unfold setWell. rewrite lookup_insert_ne; [done|]. intros Heq. apply Hnin.
  rewrite !fmap_cons, Heq. by left.
Qed.

Lemma save_wells_lookup_moved (pending : Pending) m sid :
  sid ∈ pending.*1.*1 →
  ∃ (ws : SampleObj) tw, (ws, tw) ∈ pending ∧ ws.1 = sid
    ∧ foldl setWell m pending !! sid = Some (mkWellSample tw (ws_plateAcquisition ws.2)).
Proof.
  revert m. induction pending as [|mv pending IH]; intros m Hin.
  { by apply elem_of_nil in Hin. }
  simpl. destruct (decide (sid ∈ pending.*1.*1)) as [Hk|Hk].
  - destruct (IH (setWell m mv) Hk) as (ws & tw & Hmv & Hid & Hl).
    exists ws, tw. split_and!; [by right|done..].
  - rewrite save_wells_lookup_other by done. destruct mv as [ws tw].
    rewrite !fmap_cons in Hin. apply elem_of_cons in Hin as [->|?]; [|done].
    exists ws, tw. split_and!; [by left|done|]. unfold setWell. simpl.
    by rewrite lookup_insert_eq.
Qed.

(** The round of the loop of line 132 on one entry, when it completes. *)
Lemma merge_item_ok tid (tp : PlateObj) well_d n (item : Loaded) st
    (tp' : PlateObj) well_d' n' st' :
  tp.1 = tid →
  merge_item (tp, well_d, n) item st = (inr (tp', well_d', n'), st') →
  ∃ plate : PlateObj, item.1.1 = Some plate ∧
    let pending := run_moves plate.2 item.1.2.1 well_d item.2 in
    n' = (n + length pending)%nat
    ∧ plates st' = plates st ∧ wells st' = wells st
    ∧ samples st' = foldl setWell (samples st) pending
    ∧ runs st' = <[item.1.2.1 := mkRun (run_name item.1.2.2) tid
                                   (run_startTime item.1.2.2)]> (runs st)
    ∧ tp'.1 = tid ∧ well_d' = index_wells st' tp'
    ∧ ∀ child : WellObj * list SampleObj, child ∈ item.2 →
        is_Some (well_d !! getWellPos plate.2 child.1.2).
Proof.
  intros Htp. unfold merge_item. destruct item.1.1 as [plate|]; [|done].
  intros ([pending n1] & s1 & Hloop & H2)%bind_ok_inv.
  apply move_well_loop in Hloop as (-> & Hpend & Hn & Hcov). simpl in Hpend, Hn.
  apply bind_ok_inv in H2 as ([] & s2 & [_ ->]%modify_inv & H3).
  apply bind_ok_inv in H3 as ([] & s3 & [_ ->]%modify_inv & H4).
  apply bind_ok_inv in H4 as (reloaded & s4 & [-> ->]%gets_ok_inv & H5).
  destruct (getObject_Plate _ tp.1) as [tp2|] eqn:Ht; [|done].
  apply bind_ok_inv in H5 as (d & s5 & [-> ->]%gets_ok_inv & [[= -> -> ->] ->]%ret_inv).
  apply getObject_Plate_Some in Ht as [Ht _].
  exists plate. split; [done|]. simpl. subst pending.
  split_and!; [done..|by rewrite Htp|congruence|done|done].
Qed.

(** ** The runs of the work list are distinct *)

Lemma elem_of_expand_plates st ids (item : WorkItem) :
  item ∈ expand_plates st ids ↔
  ∃ (plate_o : PlateObj) (run_o : RunObj),
    item = (Some plate_o, run_o)
    ∧ plate_o ∈ getObjects_Plate st ids
    ∧ run_o ∈ listPlateAcquisitions st plate_o.1.
Proof.
  unfold expand_plates. rewrite list_elem_of_bind. split.
  - intros (plate_o & (run_o & -> & Hr)%list_elem_of_fmap & Hp). by exists plate_o, run_o.
  - intros (plate_o & run_o & -> & Hp & Hr). exists plate_o. split; [|done].
    by apply list_elem_of_fmap_2.
Qed.

Lemma expand_plates_NoDup st ids : NoDup (expand_plates st ids).*2.*1.
Proof.
  rewrite <-list_fmap_compose. apply NoDup_fmap_2_strong.
  - intros item item'
      ([k q] & [r rr] & -> & [Hq _]%elem_of_getObjects_Plate
         & [Hr Hk]%elem_of_listPlateAcquisitions)%elem_of_expand_plates
      ([k' q'] & [r' rr'] & -> & [Hq' _]%elem_of_getObjects_Plate
         & [Hr' Hk']%elem_of_listPlateAcquisitions)%elem_of_expand_plates.
    simpl in *. intros <-. assert (rr' = rr) as -> by congruence.
    assert (k' = k) as -> by congruence. congruence.
  - unfold expand_plates. apply NoDup_bind.
    + intros plate_o plate_o' item _ _ (? & -> & _)%list_elem_of_fmap
        (? & [= -> _] & _)%list_elem_of_fmap. done.
    + intros plate_o _. apply NoDup_fmap_2; [by intros ?? [= ->]|].
      apply NoDup_filter, NoDup_map_to_list.
    + apply NoDup_filter, NoDup_map_to_list.
Qed.

Lemma fmap_snd_decorated {A K} (f : A → K * A) (l : list A) :
  (∀ x, (f x).2 = x) → (f <$> l).*2 = l.
Proof.
  intros Hf. induction l as [|x l IH]; [done|]. rewrite !fmap_cons, Hf. by f_equal.
Qed.

Lemma expand_runs_NoDup st ids : NoDup (expand_runs st ids).*2.*1.
Proof.
  unfold expand_runs. rewrite fmap_snd_decorated by done.
  apply (sublist_NoDup _ (map_to_list (runs st)).*1).
  - apply NoDup_fst_map_to_list.
  - apply fmap_sublist, sublist_filter.
Qed.

Lemma resolve_NoDup tid source_ids stype st wl st1 :
  resolve tid source_ids stype st = (inr wl, st1) → NoDup wl.*2.*1.
Proof.
  unfold resolve. case_decide.
  - intros ([] & s & _ & [-> ->]%gets_ok_inv)%bind_ok_inv. apply expand_plates_NoDup.
  - intros [-> ->]%gets_ok_inv. apply expand_runs_NoDup.
Qed.

(** ** Ordering permutes the work list *)

Lemma insert_sorted_perm {K A} (ltb : K → K → bool) (x : K * A) l :
  insert_sorted ltb x l ≡ₚ x :: l.
Proof.
  induction l as [|y l IH]; simpl; [done|].
  destruct (ltb y.1 x.1); [|done]. by rewrite IH, Permutation_swap.
Qed.

Lemma sort_decorated_perm {K A} (ltb : K → K → bool) (l : list (K * A)) :
  sort_decorated ltb l ≡ₚ l.
Proof.
  unfold sort_decorated. induction l as [|x l IH]; simpl; [done|].
  by rewrite insert_sorted_perm, IH.
Qed.

Lemma keys_of_length {K A} (key : A → exn + K) (l : list A) keys :
  keys_of key l = inr keys → length keys = length l.
Proof.
  revert keys. induction l as [|x l IH]; intros keys; simpl.
  - by intros [= <-].
  - destruct (key x); [done|]. destruct (keys_of key l); [done|].
    intros [= <-]. simpl. by rewrite (IH _ eq_refl).
Qed.

Lemma sorted_perm {K A} (ltb : K → K → bool) (key : A → exn + K) (l : list A) st l' st' :
  sorted ltb key l st = (inr l', st') → l' ≡ₚ l.
Proof.
  unfold sorted. destruct (keys_of key l) as [e|keys] eqn:Hk; [done|].
  intros [[= ->] _]%ret_inv. rewrite sort_decorated_perm, snd_zip; [done|].
  apply keys_of_length in Hk. lia.
Qed.

Lemma order_runs_perm sort_way wl st wl' st' :
  order_runs sort_way wl st = (inr wl', st') → wl' ≡ₚ wl.
Proof.
  unfold order_runs. case_decide; [|case_decide; [|case_decide]].
  - apply sorted_perm.
  - apply sorted_perm.
  - rewrite bind_unfold. unfold assert. case_bool_decide; [|done]. apply sorted_perm.
  - by intros [[= ->] _]%ret_inv.
Qed.

(** ** Samples and their runs *)

Lemma runs_consistent_check st :
  map_Forall (λ _, sample_consistent st) (samples st) → runs_consistent st.
Proof.
  intros Hall sid x r Hx Hr. specialize (Hall sid x Hx). unfold sample_consistent in Hall.
  rewrite Hr in Hall. destruct (runs st !! r) as [run|]; [|done]. by exists run.
Qed.

(** The synthesis of runs keeps the samples consistent with the runs. *)
Lemma synthesized_consistent st ids st' :
  synthesized st ids st' → runs_consistent st → runs_consistent st'.
Proof.
  intros [[Hpl Hw Hr Hs] Hnew Hone Hch] Hcons sid x' r Hx' Hrun.
  destruct (Hch sid) as [Heq|(x & rid & run & Hx & Hsyn & Hin & Heq)].
  - rewrite Heq in Hx'. destruct (Hcons sid x' r Hx' Hrun) as (run & Hr' & Hin).
    exists run. split; [by eapply lookup_weaken|]. by apply (in_plate_wells st).
  - rewrite Heq in Hx'. injection Hx' as <-. simpl in Hrun. injection Hrun as <-.
    destruct Hsyn as (_ & Hsome & _). exists run. split; [done|].
    apply (in_plate_wells st); [done|]. by unfold in_plate, sample_plate in *.
Qed.

Lemma of_runs_app rs rs' x : of_runs (rs ++ rs') x ↔ of_runs rs x ∨ of_runs rs' x.
Proof. unfold of_runs. by rewrite fmap_app, elem_of_app. Qed.

Lemma of_runs_singleton r x : of_runs [r] x ↔ ws_plateAcquisition x = Some r.
Proof. unfold of_runs. simpl. by rewrite list_elem_of_singleton. Qed.

Lemma of_runs_perm rs rs' x : rs ≡ₚ rs' → of_runs rs x ↔ of_runs rs' x.
Proof. unfold of_runs. by intros ->. Qed.

Lemma samples_of_runs_perm st rs rs' :
  rs ≡ₚ rs' → samples_of_runs st rs = samples_of_runs st rs'.
Proof.
  intros Hperm. unfold samples_of_runs. apply map_filter_ext. intros sid x _.
  by apply of_runs_perm.
Qed.

Lemma samples_of_runs_nil st : samples_of_runs st [] = ∅.
Proof.
  unfold samples_of_runs. apply map_empty. intros sid.
  apply map_lookup_filter_None. right. intros x _. unfold of_runs. simpl.
  apply not_elem_of_nil.
Qed.

Lemma samples_of_runs_snoc st rs r :
  r ∉ rs →
  size (samples_of_runs st (rs ++ [r]))
  = (size (samples_of_runs st rs) + size (samples_of_runs st [r]))%nat.
Proof.
  intros Hfresh. unfold samples_of_runs. rewrite <-map_size_disj_union.
  - f_equal. rewrite <-map_filter_or. apply map_filter_ext. intros sid x _.
    simpl. apply of_runs_app.
  - apply map_disjoint_spec. intros sid x y
      [Hsx Hx]%map_lookup_filter_Some [Hsy Hy]%map_lookup_filter_Some.
    assert (y = x) as -> by congruence. simpl in *.
    apply of_runs_singleton in Hy. unfold of_runs in Hx. rewrite Hy in Hx.
    apply list_elem_of_fmap in Hx as (r' & [= <-] & Hin). done.
Qed.

(** ** The entries of the work list *)

Lemma elem_of_getObjects_PlateAcquisition st ids (run_o : RunObj) :
  run_o ∈ getObjects_PlateAcquisition st ids ↔
  runs st !! run_o.1 = Some run_o.2 ∧ run_o.1 ∈ ids.
Proof.
  unfold getObjects_PlateAcquisition. rewrite list_elem_of_filter. destruct run_o as [i r].
  rewrite elem_of_map_to_list. simpl. tauto.
Qed.

(** An entry of the work list holds a run of the store and, as its plate,
    the plate of that run; with [source_type = "Plate"] that plate is not
    the target, otherwise the run is one of the named ones. *)
Lemma resolve_items tid source_ids stype st wl st1 (item : WorkItem) :
  resolve tid source_ids stype st = (inr wl, st1) → item ∈ wl →
  runs st1 !! item.2.1 = Some item.2.2
  ∧ (stype = "Plate" ∨ item.2.1 ∈ source_ids ∧ st1 = st)
  ∧ ∀ plate : PlateObj, item.1 = Some plate →
      plate.1 = run_plate item.2.2 ∧ (stype = "Plate" → plate.1 ≠ tid).
Proof.
  unfold resolve. case_decide as Hs.
  - intros ([] & s & _ & [-> ->]%gets_ok_inv)%bind_ok_inv
      (plate_o & run_o & -> & [_ Hin]%elem_of_getObjects_Plate
         & [Hr Hp]%elem_of_listPlateAcquisitions)%elem_of_expand_plates.
    simpl. split_and!; [done|by left|]. intros plate [= <-].
    split; [done|]. intros _. by apply elem_of_set_difference in Hin as [_ ?].
  - intros [-> ->]%gets_ok_inv. unfold expand_runs.
    intros (run_o & -> & [Hr Hin]%elem_of_getObjects_PlateAcquisition)%list_elem_of_fmap.
    simpl. split_and!; [done|by right|]. intros plate [Hp _]%getObject_Plate_Some.
    done.
Qed.

(** ** The loop over the work list *)

Lemma target_index_wells st st' tid well_d :
  wells st' = wells st → target_index st tid well_d → target_index st' tid well_d.
Proof. unfold target_index. by intros ->. Qed.

Section merge_step.
Context (tid : Z) (st1 st2 : Store) (rs : list Z).
Context (tp : PlateObj) (well_d : gmap string Z) (n : nat) (item : Loaded) (s : Store).
Context (tp' : PlateObj) (well_d' : gmap string Z) (n' : nat) (s' : Store).
Context (Htp : tp.1 = tid) (Hidx : target_index st2 tid well_d).
Context (Hfresh : item.1.2.1 ∉ rs) (Hlist : exact_listing st1 item).
Context (Hfold : folded tid st1 st2 rs n s).
Context (Hstep : merge_item (tp, well_d, n) item s = (inr (tp', well_d', n'), s')).

Lemma merge_item_folded :
  folded tid st1 st2 (rs ++ [item.1.2.1]) n' s'
  ∧ tp'.1 = tid ∧ target_index st2 tid well_d'.
Proof using All.
  destruct (merge_item_ok _ _ _ _ _ _ _ _ _ _ Htp Hstep)
    as (plate & Hp & Hn & Hpl & Hw & Hs & _ & Htp' & Hwd' & Hcov).
  destruct Hlist as (_ & Hnd & Hin & Hall).
  destruct Hfold as [Fpl Fw Fn Fabs Fkept Fmoved].
  set (r := item.1.2.1) in *.
  set (pending := run_moves plate.2 r well_d item.2) in *.
  (* the samples with a move are the samples of the run *)
  assert (∀ sid, sid ∈ pending.*1.*1 ↔
            ∃ x, samples st1 !! sid = Some x ∧ ws_plateAcquisition x = Some r) as Hmoves.
  { intros sid. split.
    - intros (ws & -> & ([ws' tw] & [= <-] & Hmv)%list_elem_of_fmap)%list_elem_of_fmap.
      apply elem_of_run_moves in Hmv as (Hl & Hr & _). exists ws.2. split; [|done].
      by apply Hin.
    - intros (x & Hx & Hr).
      destruct (run_moves_all plate.2 r well_d item.2 (sid, x) Hcov) as [tw Htw];
        [by apply Hall|done|].
      apply list_elem_of_fmap. exists (sid, x). split; [done|].
      apply list_elem_of_fmap. by exists ((sid, x), tw). }
  split_and!.
  - split.
    + congruence.
    + congruence.
    + rewrite samples_of_runs_snoc by done. rewrite Hn, Fn. f_equal.
      rewrite <-(length_fmap fst pending), <-(length_fmap fst pending.*1).
      rewrite <-length_map_to_list, <-(length_fmap fst (map_to_list _)).
      apply Permutation_length, NoDup_Permutation;
        [by apply NoDup_run_moves|apply NoDup_fst_map_to_list|].
      intros sid. rewrite Hmoves. rewrite list_elem_of_fmap. split.
      * intros (x & Hx & Hr). exists (sid, x). split; [done|].
        apply elem_of_map_to_list, map_lookup_filter_Some. split; [done|].
        by apply of_runs_singleton.
      * intros ([i x] & -> & [Hx Hr]%elem_of_map_to_list%map_lookup_filter_Some).
        exists x. split; [done|]. by apply of_runs_singleton in Hr.
    + intros sid Hnone. rewrite Hs, save_wells_lookup_other; [by apply Fabs|].
      rewrite Hmoves. intros (x & Hx & _). congruence.
    + intros sid x Hx Hnot. rewrite Hs, save_wells_lookup_other.
      * apply Fkept; [done|]. intros Hof. apply Hnot, of_runs_app. by left.
      * rewrite Hmoves. intros (x' & Hx' & Hr). apply Hnot, of_runs_app. right.
        apply of_runs_singleton. congruence.
    + intros sid x Hx Hof. rewrite Hs.
      destruct (decide (ws_plateAcquisition x = Some r)) as [Hr|Hr].
      * assert (sid ∈ pending.*1.*1) as Hmv by (apply Hmoves; eauto).
        destruct (save_wells_lookup_moved pending (samples s) sid Hmv)
          as (ws & tw & Hmv' & <- & Hl).
        apply elem_of_run_moves in Hmv' as (Hws & _ & label & Hlabel).
        apply Hin in Hws. assert (ws.2 = x) as Heq by congruence.
        destruct (Hidx label tw Hlabel) as (w' & Hw' & Hp').
        exists tw, w'. by rewrite Hl, Heq.
      * rewrite save_wells_lookup_other.
        -- apply Fmoved; [done|]. apply of_runs_app in Hof as [?|Hof]; [done|].
           by apply of_runs_singleton in Hof.
        -- rewrite Hmoves. intros (x' & Hx' & Hr'). congruence.
  - done.
  - rewrite Hwd'. apply (target_index_wells s'); [congruence|].
    rewrite <-Htp'. apply index_wells_target.
Qed.
End merge_step.

Lemma merge_loop tid st1 st2 (loaded : list Loaded) :
  ∀ rs (tp : PlateObj) well_d n s (tp' : PlateObj) well_d' n' s',
    NoDup (rs ++ loaded.*1.*2.*1) → Forall (exact_listing st1) loaded →
    tp.1 = tid → target_index st2 tid well_d → folded tid st1 st2 rs n s →
    for_loop loaded (tp, well_d, n) merge_item s = (inr (tp', well_d', n'), s') →
    folded tid st1 st2 (rs ++ loaded.*1.*2.*1) n' s' ∧ tp'.1 = tid.
Proof.
  induction loaded as [|item loaded IH];
    intros rs tp well_d n s tp' well_d' n' s' Hnd Hall Htp Hidx Hfold.
  { intros [[= -> -> ->] ->]%ret_inv. simpl. by rewrite app_nil_r. }
  rewrite for_loop_cons.
  destruct (merge_item (tp, well_d, n) item s) as [[e|[[tp1 wd1] n1]] s1] eqn:Hstep;
    [done|].
  rewrite !fmap_cons in Hnd |- *. apply Forall_cons in Hall as [Hitem Hall].
  assert (item.1.2.1 ∉ rs) as Hfresh.
  { apply NoDup_app in Hnd as (_ & Hdisj & _). intros Hin. apply (Hdisj _ Hin). by left. }
  destruct (merge_item_folded tid st1 st2 rs tp well_d n item s tp1 wd1 n1 s1)
    as (Hfold1 & Htp1 & Hidx1); [done..|].
  rewrite (cons_middle _ rs), app_assoc in Hnd |- *.
  by apply IH.
Qed.

(** ** The message *)

Lemma string_app_assoc (a b c : string) : (a +:+ b) +:+ c = a +:+ (b +:+ c).
Proof.
  induction a as [|x a IH]; [done|].
  change (String x ((a +:+ b) +:+ c) = String x (a +:+ (b +:+ c))). by rewrite IH.
Qed.

(** The message of lines 155-158, written out. *)
Lemma summary_message_eq (count_well_sample n_runs : nat) (target_id : Z)
    (new_well_count : nat) :
  summary_message count_well_sample n_runs target_id new_well_count
  = pretty count_well_sample +:+ " Images from " +:+ pretty n_runs
    +:+ " Runs merged into Plate:" +:+ pretty target_id +:+ "."
    +:+ (if decide (0 < new_well_count)%nat
         then " " +:+ pretty new_well_count +:+ " Wells created." else "").
Proof.
  unfold summary_message. case_decide.
  - by rewrite !string_app_assoc.
  - reflexivity.
Qed.

(** ** A completed merge *)

(** The stages of a merge that returns, with what each of them
    establishes. *)
Lemma combine_plates_completes st tid srcs stype sw ss msg (tp' : PlateObj) st' :
  combine_plates tid srcs stype sw ss st = (inr (msg, tp'), st') →
  (∀ pid, pid ≠ tid → unique_positions st pid) →
  runs_consistent st →
  (stype ≠ "Plate" → ∀ r run,
     r ∈ as_list srcs → runs st !! r = Some run → run_plate run ≠ tid) →
  ∃ wl0 st1 wl k st2 n,
    resolve tid (as_list srcs) stype st = (inr wl0, st1)
    ∧ wl ≡ₚ wl0
    ∧ wells st1 = wells st
    ∧ populated tid st1 st2
    ∧ size (wells st2) = (size (wells st1) + k)%nat
    ∧ folded tid st1 st2 wl.*2.*1 n st'
    ∧ msg = summary_message n (length wl) tid k.
Proof.
  intros (tp & wl0 & st1 & wl & well_d & k & loaded & st2 & wd' & n
          & Ht & Hr & Ho & Hp & Hl & ->)%combine_plates_ok_inv Huniq Hcons Hsrc.
  apply getObject_Plate_Some in Ht as [Htid _].
  apply populate_target_inv in Hp as (Hpop & Hidx & Hsize & Hloaded & Hfst).
  rewrite Htid in *.
  apply order_runs_perm in Ho as Hperm.
  pose proof (resolve_synthesized _ _ _ _ _ _ Hr) as Hsyn.
  pose proof (syn_wells _ _ (syn_only _ _ _ Hsyn)) as Hw1.
  pose proof (synthesized_consistent _ _ _ Hsyn Hcons) as Hcons1.
  assert (Forall (exact_listing st1) loaded) as Hexact.
  { apply Forall_forall. intros item Hitem.
    rewrite Forall_forall in Hloaded.
    destruct (loaded_from_samples tid st1 item (Hloaded item Hitem))
      as (plate & Hplate & Hnd & Hin & Hall).
    assert (item.1 ∈ wl0) as Hwl.
    { rewrite <-Hperm, <-Hfst. by apply list_elem_of_fmap_2. }
    destruct (resolve_items _ _ _ _ _ _ _ Hr Hwl) as (Hrun & Hmode & Hpl).
    destruct (Hpl plate Hplate) as [Hpid Hplate_mode].
    assert (plate.1 ≠ tid) as Hne.
    { destruct (decide (stype = "Plate")) as [Hs|Hs]; [by apply Hplate_mode|].
      destruct Hmode as [?|[Hin' ->]]; [done|]. rewrite Hpid. by eapply Hsrc. }
    split_and!; [by rewrite Hplate|done..|].
    intros sid x Hx Hrx. apply Hall; [done| |done|].
    - unfold unique_positions. rewrite Hw1. by apply Huniq.
    - destruct (Hcons1 sid x _ Hx Hrx) as (run & Hrun' & Hinp).
      rewrite Hpid. congruence. }
  assert (folded tid st1 st2 [] 0 st2) as Hinit.
  { split; [done|done| | | |].
    - by rewrite samples_of_runs_nil, map_size_empty.
    - intros sid. by rewrite (pop_samples _ _ _ Hpop).
    - intros sid x. by rewrite (pop_samples _ _ _ Hpop).
    - intros sid x _ Hof. unfold of_runs in Hof. by apply elem_of_nil in Hof. }
  apply (merge_loop tid st1 st2 loaded []) in Hl as [Hfold Htp']; [|
    |done|done|done|done].
  2: { simpl. rewrite Hfst, Hperm. by eapply resolve_NoDup. }
  simpl in Hfold. rewrite Hfst in Hfold.
  exists wl0, st1, wl, k, st2, n. split_and!; [done..|by rewrite Htp'].
Qed.



(** ** The orderings by name *)

Lemma str_ltb_lt a b : str_ltb a b = true ↔ OrderedTypeEx.String_as_OT.lt a b.
Proof.
  rewrite <-OrderedTypeEx.String_as_OT.cmp_lt.
  unfold str_ltb, String.ltb, OrderedTypeEx.String_as_OT.cmp.
  by destruct (String.compare a b).
Qed.

Lemma str_ltb_total a b : str_ltb a b = false → str_ltb b a = false → a = b.
Proof.
  unfold str_ltb, String.ltb. rewrite (String.compare_antisym b a).
  destruct (String.compare a b) eqn:Hc; simpl; try done.
  by apply String.compare_eq_iff in Hc.
Qed.

Lemma str_ltb_order : strict_order str_ltb.
Proof.
  split.
  - intros a. unfold str_ltb, String.ltb.
    pose proof (String.compare_antisym a a) as Hc.
    by destruct (String.compare a a).
  - intros a b. unfold str_ltb, String.ltb. rewrite (String.compare_antisym a b).
    by destruct (String.compare b a).
  - intros a b c Hba Hcb. destruct (str_ltb c a) eqn:Hca; [|done].
    destruct (str_ltb a b) eqn:Hab.
    + apply str_ltb_lt in Hca, Hab.
      pose proof (OrderedTypeEx.String_as_OT.lt_trans _ _ _ Hca Hab) as Hcb'.
      apply str_ltb_lt in Hcb'. congruence.
    + assert (a = b) as -> by (by apply str_ltb_total). congruence.
Qed.

Lemma pair_ltb_order : strict_order pair_ltb.
Proof.
  pose proof str_ltb_order as [Hirr Hasym Htrans].
  assert (∀ a b : string, str_ltb a b = true → a ≠ b) as Hne.
  { intros a b Hab ->. by rewrite Hirr in Hab. }
  split.
  - intros [a1 a2]. unfold pair_ltb. simpl. by rewrite !Hirr, andb_false_r.
  - intros [a1 a2] [b1 b2]. unfold pair_ltb. simpl.
    intros [Hlt|[Heq%bool_decide_eq_true Hlt]%andb_prop]%orb_prop.
    + rewrite (Hasym _ _ Hlt). simpl. rewrite bool_decide_eq_false_2; [done|].
      intros ->. by apply (Hne _ _ Hlt).
    + subst b1. by rewrite Hirr, (Hasym _ _ Hlt), andb_false_r.
  - intros [a1 a2] [b1 b2] [c1 c2]. unfold pair_ltb. simpl.
    intros [Hb1 Hb2]%orb_false_elim [Hc1 Hc2]%orb_false_elim.
    apply orb_false_intro; [by eapply Htrans|].
    apply andb_false_iff. destruct (decide (c1 = a1)) as [->|Hca]; [right|left].
    + assert (b1 = a1) as -> by (by apply str_ltb_total).
      rewrite bool_decide_eq_true_2 in Hb2, Hc2 by done. simpl in *. by eapply Htrans.
    + by apply bool_decide_eq_false_2.
Qed.

Section sort_decorated.
Context {K A : Type} `{EqDecision K} (ltb : K → K → bool) (Hord : strict_order ltb).

Lemma insert_sorted_elem_of (x y : K * A) l : y ∈ insert_sorted ltb x l ↔ y = x ∨ y ∈ l.
Proof. by rewrite insert_sorted_perm, elem_of_cons. Qed.

Lemma insert_sorted_StronglySorted (x : K * A) l :
  StronglySorted (λ a b, ltb b.1 a.1 = false) l →
  StronglySorted (λ a b, ltb b.1 a.1 = false) (insert_sorted ltb x l).
Proof using Hord.
  destruct Hord as [_ Hasym Htrans].
  induction 1 as [|y l Hl IH Hy]; simpl; [repeat constructor|].
  destruct (ltb y.1 x.1) eqn:Hyx.
  - constructor; [done|]. apply Forall_forall. intros z [->|Hz]%insert_sorted_elem_of.
    + by apply Hasym.
    + by eapply Forall_forall in Hy.
  - constructor; [by constructor|]. constructor; [done|].
    apply Forall_forall. intros z Hz. eapply Forall_forall in Hy; [|done].
    by eapply Htrans.
Qed.

Lemma sort_decorated_StronglySorted (l : list (K * A)) :
  StronglySorted (λ a b, ltb b.1 a.1 = false) (sort_decorated ltb l).
Proof using Hord.
  unfold sort_decorated. induction l as [|x l IH]; simpl; [constructor|].
  by apply insert_sorted_StronglySorted.
Qed.

(** An entry is inserted before the entries with the same key. *)
Lemma insert_sorted_filter (k : K) (x : K * A) l :
  StronglySorted (λ a b, ltb b.1 a.1 = false) l →
  filter (λ y, y.1 = k) (insert_sorted ltb x l)
  = filter (λ y, y.1 = k) (x :: l).
Proof using Hord.
  destruct Hord as [Hirr _ _].
  induction 1 as [|y l Hl IH Hy]; simpl; [done|].
  destruct (ltb y.1 x.1) eqn:Hyx; [|done].
  rewrite filter_cons, IH, !filter_cons.
  destruct (decide (y.1 = k)) as [Hyk|Hyk]; destruct (decide (x.1 = k)) as [Hxk|Hxk];
    try done.
  by rewrite Hyk, Hxk, Hirr in Hyx.
Qed.

Lemma sort_decorated_filter (k : K) (l : list (K * A)) :
  filter (λ y, y.1 = k) (sort_decorated ltb l) = filter (λ y, y.1 = k) l.
Proof using Hord.
  unfold sort_decorated. induction l as [|x l IH]; simpl; [done|].
  rewrite insert_sorted_filter by apply sort_decorated_StronglySorted.
  by rewrite !filter_cons, IH.
Qed.
End sort_decorated.

Lemma keys_of_Some {K A} (key : A → exn + K) (l : list A) keys :
  keys_of key l = inr keys ↔ Forall2 (λ x k, key x = inr k) l keys.
Proof.
  revert keys. induction l as [|x l IH]; intros keys; simpl.
  - split; [intros [= <-]; constructor|by inversion 1].
  - destruct (key x) as [e|k] eqn:Hk.
    + split; [done|]. inversion 1; congruence.
    + destruct (keys_of key l) as [e|ks] eqn:Hks.
      * split; [done|]. inversion 1 as [|???? _ Hl]; subst.
        apply IH in Hl. congruence.
      * split.
        -- intros [= <-]. constructor; [done|]. by apply IH.
        -- inversion 1 as [|???? Hx Hl]; subst. apply IH in Hl. congruence.
Qed.

Lemma keys_of_raises {K A} (key : A → exn + K) (l : list A) e :
  keys_of key l = inl e → ∃ x, x ∈ l ∧ key x = inl e.
Proof.
  induction l as [|x l IH]; simpl; [done|].
  destruct (key x) as [e'|k] eqn:Hk.
  - intros [= <-]. exists x. split; [by left|done].
  - destruct (keys_of key l) as [e'|ks]; [|done].
    intros [= <-]. destruct IH as (y & Hy & Hky); [done|]. exists y. split; [by right|done].
Qed.

Lemma zip_keys_elem_of {K A} (key : A → exn + K) (l : list A) keys (p : K * A) :
  Forall2 (λ x k, key x = inr k) l keys → p ∈ zip keys l → key p.2 = inr p.1.
Proof.
  induction 1 as [|x k l keys Hk _ IH]; simpl; [by intros ?%elem_of_nil|].
  intros [->|Hin]%elem_of_cons; [done|by apply IH].
Qed.

Lemma filter_fmap_snd {K A} `{EqDecision K} (key : A → exn + K) (k : K) (s : list (K * A)) :
  (∀ p, p ∈ s → key p.2 = inr p.1) →
  filter (λ x, key x = inr k) s.*2 = (filter (λ y, y.1 = k) s).*2.
Proof.
  induction s as [|p s IH]; intros Hall; [done|].
  rewrite fmap_cons, !filter_cons, IH by (intros q Hq; apply Hall; by right).
  assert (key p.2 = inr p.1) as Hp by (apply Hall; by left).
  destruct (decide (p.1 = k)) as [Hk|Hk].
  - rewrite decide_True; [done|]. by rewrite Hp, Hk.
  - rewrite decide_False; [done|]. rewrite Hp. congruence.
Qed.

(** What [sorted] returns when no key raises. *)
Lemma sorted_spec {K A} `{EqDecision K} (ltb : K → K → bool) (key : A → exn + K)
    (l : list A) st :
  strict_order ltb → (∀ x, x ∈ l → ∃ k, key x = inr k) →
  ∃ l', sorted ltb key l st = (inr l', st)
    ∧ l' ≡ₚ l ∧ ascending ltb key l'
    ∧ ∀ k, with_key key k l' = with_key key k l.
Proof.
  intros Hord Hkeys. unfold sorted.
  destruct (keys_of key l) as [e|keys] eqn:Hk.
  { apply keys_of_raises in Hk as (x & Hx & He). destruct (Hkeys x Hx). congruence. }
  apply keys_of_Some in Hk as Hall.
  assert (length keys = length l) as Hlen by (by apply Forall2_length in Hall).
  eexists. split; [done|].
  assert (∀ p, p ∈ sort_decorated ltb (zip keys l) → key p.2 = inr p.1) as Hdec.
  { intros p. rewrite sort_decorated_perm. by apply zip_keys_elem_of. }
  split_and!.
  - rewrite sort_decorated_perm, snd_zip; [done|lia].
  - unfold ascending.
    pose proof (sort_decorated_StronglySorted ltb Hord (zip keys l)) as Hs.
    induction Hs as [|p s Hs IH Hp]; [constructor|].
    rewrite fmap_cons. constructor.
    + apply IH. intros q Hq. apply Hdec. by right.
    + apply Forall_forall. intros y (q & -> & Hq)%list_elem_of_fmap ka kb Ha Hb.
      rewrite Hdec in Ha by (by left). rewrite Hdec in Hb by (by right).
      injection Ha as <-. injection Hb as <-. by eapply Forall_forall in Hp.
  - intros k. unfold with_key. rewrite filter_fmap_snd by done.
    rewrite sort_decorated_filter by done.
    rewrite <-(filter_fmap_snd key) by (intros p; by apply zip_keys_elem_of).
    rewrite snd_zip; [done|lia].
Qed.

(** X1: with "Acquisition name" the ordering cannot fail and does not touch
    the store; the work list comes back with the same entries, in ascending
    order of the names of the runs, and the runs of one name keep the order
    they were resolved in. *)
Theorem acquisition_name_order_sorts (plate_run_l : list WorkItem) (st : Store) :
  ∃ sorted_l,
    order_runs "Acquisition name" plate_run_l st = (inr sorted_l, st)
    ∧ sorted_l ≡ₚ plate_run_l
    ∧ StronglySorted
        (λ a b : WorkItem, str_ltb (run_name b.2.2) (run_name a.2.2) = false) sorted_l
    ∧ ∀ name, filter (λ x : WorkItem, run_name x.2.2 = name) sorted_l
              = filter (λ x : WorkItem, run_name x.2.2 = name) plate_run_l.
Proof.
  destruct (sorted_spec str_ltb key_run_name plate_run_l st str_ltb_order)
    as (l' & Hs & Hperm & Hasc & Hstable); [by eexists|].
  exists l'. unfold order_runs. rewrite decide_False, decide_True by done.
  split_and!; [done..| |].
  - unfold ascending in Hasc. rewrite <-(list_fmap_id l').
    eapply StronglySorted_fmap; [|done]. intros a b Hab. by apply Hab.
  - intros name. specialize (Hstable name). unfold with_key, key_run_name in Hstable.
    erewrite (list_filter_iff _ (λ x : WorkItem, inr (run_name x.2.2) = inr name));
      [|intros x; split; [by intros ->|by intros [= ->]]].
    rewrite Hstable. apply list_filter_iff.
    intros x; split; [by intros [= ->]|by intros ->].
Qed.

(** X2: with "Plate & run name" and a work list whose runs all have their
    plate, the work list comes back with the same entries in ascending
    order of the pair (name of the plate, name of the run), entries with
    equal pairs in the order they were resolved in; a run whose plate is
    missing makes the key fail with an [AttributeError] instead. *)
Theorem plate_and_run_name_order_sorts (plate_run_l : list WorkItem) (st : Store) :
  ((∀ item : WorkItem, item ∈ plate_run_l → is_Some item.1) →
   ∃ sorted_l,
     order_runs "Plate & run name" plate_run_l st = (inr sorted_l, st)
     ∧ sorted_l ≡ₚ plate_run_l
     ∧ ascending pair_ltb key_plate_run_name sorted_l
     ∧ ∀ names, with_key key_plate_run_name names sorted_l
                = with_key key_plate_run_name names plate_run_l)
  ∧ ((∃ item : WorkItem, item ∈ plate_run_l ∧ item.1 = None) →
     order_runs "Plate & run name" plate_run_l st
     = (inl (AttributeError (NoneType_has_no "getName")), st)).
Proof.
  unfold order_runs. rewrite decide_True by done. split.
  - intros Hall. apply sorted_spec; [apply pair_ltb_order|].
    intros x [plate Hp]%Hall. unfold key_plate_run_name. rewrite Hp. by eexists.
  - intros (item & Hin & Hnone). unfold sorted.
    destruct (keys_of key_plate_run_name plate_run_l) as [e|keys] eqn:Hk.
    + apply keys_of_raises in Hk as (x & _ & Hx). unfold key_plate_run_name in Hx.
      destruct x.1; [done|]. by injection Hx as <-.
    + apply keys_of_Some in Hk.
      apply list_elem_of_lookup in Hin as [i Hi].
      destruct (Forall2_lookup_l _ _ _ _ _ Hk Hi) as (k & _ & Hkey).
      unfold key_plate_run_name in Hkey. by rewrite Hnone in Hkey.
Qed.

(** ** Loops, whatever their outcome *)

(** An invariant that the completed iterations keep holds when the loop
    completes; when an iteration raises, the loop raises what it raised, in
    the store it left. *)
Lemma for_loop_inv {A S} (I : S → Store → Prop) (E : exn → Store → Prop)
    (l : list A) (body : S → A → M S) :
  (∀ x acc st, x ∈ l → I acc st →
     match body acc x st with
     | (inl e, st') => E e st'
     | (inr acc', st') => I acc' st'
     end) →
  ∀ acc st, I acc st →
    match for_loop l acc body st with
    | (inl e, st') => E e st'
    | (inr acc', st') => I acc' st'
    end.
Proof.
  induction l as [|x l IH]; intros Hbody acc st HI; [done|].
  rewrite for_loop_cons.
  pose proof (Hbody x acc st (list_elem_of_here _ _) HI) as Hx.
  destruct (body acc x st) as [[e|acc1] st1]; [done|].
  apply IH; [|done]. intros y acc' s Hy. apply Hbody. by right.
Qed.

(** ** One run, whatever the outcome *)

Lemma move_sample_store run_id well_oi acc ws st r st' :
  move_sample run_id well_oi acc ws st = (r, st') → st' = st.
Proof.
  unfold move_sample. destruct (ws_plateAcquisition ws.2); [|by intros []%raise_inv].
  case_decide; by intros []%ret_inv.
Qed.

Lemma move_well_store plate run_id well_d acc well st r st' :
  move_well plate run_id well_d acc well st = (r, st') → st' = st.
Proof.
  unfold move_well. destruct (well_d !! _); [|by intros []%raise_inv].
  apply (for_loop_store (λ s, s = st)); [|done].
  intros ws a s r0 s' _ -> Hs. by apply move_sample_store in Hs.
Qed.

Lemma move_well_loop_store plate run_id well_d children acc st r st' :
  for_loop children acc (move_well plate run_id well_d) st = (r, st') → st' = st.
Proof.
  apply (for_loop_store (λ s, s = st)); [|done].
  intros well a s r0 s' _ -> Hs. by apply move_well_store in Hs.
Qed.

(** A run that cannot be folded leaves the store as it was: what is moved
    in memory is saved only once all the wells of the plate are through. *)
Lemma merge_item_raises (tp : PlateObj) well_d n (item : Loaded) st e st' :
  is_Some (plates st !! tp.1) →
  merge_item (tp, well_d, n) item st = (inl e, st') → st' = st.
Proof.
  intros [p Hp]. unfold merge_item. destruct item.1.1 as [plate|]; [|by intros []%raise_inv].
  intros [Hl|([pending n'] & s2 & Hl & H2)]%bind_err_inv.
  { by apply move_well_loop_store in Hl. }
  apply move_well_loop_store in Hl as ->.
  apply bind_err_inv in H2 as [?|([] & s3 & [_ ->]%modify_inv & H3)]; [done|].
  apply bind_err_inv in H3 as [?|([] & s4 & [_ ->]%modify_inv & H4)]; [done|].
  apply bind_err_inv in H4 as [?|(reloaded & s5 & [-> ->]%gets_ok_inv & H5)]; [done|].
  unfold getObject_Plate in H5. simpl in H5. rewrite Hp in H5. simpl in H5.
  by apply bind_err_inv in H5 as [?|(? & ? & _ & ?)].
Qed.

(** ** The runs after the loop *)

Lemma merge_loop_plates tid (loaded : list Loaded) :
  ∀ (tp : PlateObj) well_d n st (tp' : PlateObj) well_d' n' st',
    tp.1 = tid →
    for_loop loaded (tp, well_d, n) merge_item st = (inr (tp', well_d', n'), st') →
    plates st' = plates st ∧ wells st' = wells st ∧ tp'.1 = tid.
Proof.
  induction loaded as [|item wl IH]; intros tp well_d n st tp' well_d' n' st' Htp.
  { by intros [[= -> _ _] ->]%ret_inv. }
  rewrite for_loop_cons.
  destruct (merge_item (tp, well_d, n) item st) as [[e|[[tp1 wd1] n1]] st1] eqn:Hstep;
    [done|].
  destruct (merge_item_ok _ _ _ _ _ _ _ _ _ _ Htp Hstep)
    as (plate & _ & _ & Hpl & Hw & _ & _ & Htp1 & _).
  intros (Hpl' & Hw' & Htp')%IH; [|done]. split_and!; congruence.
Qed.

Lemma merge_loop_runs tid (loaded : list Loaded) :
  ∀ (tp : PlateObj) well_d n st (tp' : PlateObj) well_d' n' st',
    tp.1 = tid → NoDup loaded.*1.*2.*1 →
    for_loop loaded (tp, well_d, n) merge_item st = (inr (tp', well_d', n'), st') →
    (∀ item : WorkItem, item ∈ loaded.*1 →
       runs st' !! item.2.1
       = Some (mkRun (run_name item.2.2) tid (run_startTime item.2.2)))
    ∧ (∀ rid, rid ∉ loaded.*1.*2.*1 → runs st' !! rid = runs st !! rid).
Proof.
  induction loaded as [|item wl IH]; intros tp well_d n st tp' well_d' n' st' Htp Hnd.
  { intros [_ ->]%ret_inv. split; [by intros ? ?%elem_of_nil|done]. }
  rewrite for_loop_cons.
  destruct (merge_item (tp, well_d, n) item st) as [[e|[[tp1 wd1] n1]] st1] eqn:Hstep;
    [done|].
  rewrite !fmap_cons in Hnd. apply NoDup_cons in Hnd as [Hfresh Hnd].
  destruct (merge_item_ok _ _ _ _ _ _ _ _ _ _ Htp Hstep)
    as (plate & _ & _ & _ & _ & _ & Hruns & Htp1 & _).
  intros (Hin & Hout)%IH; [|done..]. split.
  - rewrite fmap_cons. intros it [->|Hit]%elem_of_cons; [|by apply Hin].
    by rewrite Hout, Hruns, lookup_insert_eq.
  - intros rid Hrid. rewrite !fmap_cons, not_elem_of_cons in Hrid.
    destruct Hrid as [Hne Hrid]. rewrite Hout, Hruns by done.
    by rewrite lookup_insert_ne.
Qed.

(** The runs of the work list are runs of the store it was resolved in. *)
Lemma resolve_runs tid source_ids stype st wl st1 (item : WorkItem) :
  resolve tid source_ids stype st = (inr wl, st1) → item ∈ wl →
  runs st1 !! item.2.1 = Some item.2.2.
Proof.
  unfold resolve. case_decide.
  - intros ([] & s & _ & [-> ->]%gets_ok_inv)%bind_ok_inv.
    by intros (plate_o & run_o & -> & _ & [? _]%elem_of_listPlateAcquisitions)
              %elem_of_expand_plates.
  - intros [-> ->]%gets_ok_inv. unfold expand_runs, getObjects_PlateAcquisition.
    intros ([rid r] & -> & [_ ?%elem_of_map_to_list]%list_elem_of_filter)%list_elem_of_fmap.
    done.
Qed.

(** ** A completed merge: the runs *)

Lemma combine_plates_runs st tid srcs stype sw ss msg (tp' : PlateObj) st' :
  combine_plates tid srcs stype sw ss st = (inr (msg, tp'), st') →
  ∃ wl st1,
    resolve tid (as_list srcs) stype st = (inr wl, st1)
    ∧ plates st' = plates st
    ∧ (∀ item : WorkItem, item ∈ wl →
         runs st1 !! item.2.1 = Some item.2.2
         ∧ runs st' !! item.2.1
           = Some (mkRun (run_name item.2.2) tid (run_startTime item.2.2)))
    ∧ (∀ rid, rid ∉ wl.*2.*1 → runs st' !! rid = runs st1 !! rid).
Proof.
  intros (tp & wl0 & st1 & wl & well_d & k & loaded & st2 & wd' & n
          & Ht & Hr & Ho & Hp & Hl & ->)%combine_plates_ok_inv.
  apply getObject_Plate_Some in Ht as [Htid _].
  apply populate_target_inv in Hp as ([Hpl _ Hruns _ _] & _ & _ & _ & Hfst).
  apply order_runs_perm in Ho as Hperm.
  assert (NoDup loaded.*1.*2.*1) as Hnd by (rewrite Hfst, Hperm; by eapply resolve_NoDup).
  pose proof Hl as Hpl'. apply (merge_loop_plates tid) in Hpl' as (Hpl' & _ & _); [|done].
  apply (merge_loop_runs tid) in Hl as [Hin Hout]; [|done..].
  rewrite Hfst in Hin, Hout.
  apply resolve_synthesis in Hr as Hsyn. destruct Hsyn as [Hpl1 _ _ _].
  exists wl0, st1. split_and!; [done|congruence| |].
  - intros item Hitem. split; [by eapply resolve_runs|].
    apply Hin. by rewrite Hperm.
  - intros rid Hrid. rewrite Hout, Hruns; [done|]. by rewrite Hperm.
Qed.

(** X3: when the merge completes, every run of the work list is in the
    store with the target as its plate, under the name and with the start
    time it had; no other run is changed by the merge proper. *)
Theorem merged_runs_belong_to_target (st : Store) (tid : Z) (srcs : SourceIds)
    (stype sw : string) (ss : bool) (msg : string) (tp' : PlateObj) (st' : Store) :
  combine_plates tid srcs stype sw ss st = (inr (msg, tp'), st') →
  ∃ wl st1,
    resolve tid (as_list srcs) stype st = (inr wl, st1)
    ∧ (∀ item : WorkItem, item ∈ wl →
         runs st1 !! item.2.1 = Some item.2.2
         ∧ runs st' !! item.2.1
           = Some (mkRun (run_name item.2.2) tid (run_startTime item.2.2)))
    ∧ (∀ rid, rid ∉ wl.*2.*1 → runs st' !! rid = runs st1 !! rid).
Proof.
  intros (wl & st1 & Hr & _ & Hin & Hout)%combine_plates_runs. by exists wl, st1.
Qed.

Lemma merged_runs_witness :
  ∃ wl st1,
    resolve 1 [2] "Plate" Scenario.st0 = (inr wl, st1)
    ∧ (∀ item : WorkItem, item ∈ wl →
         runs st1 !! item.2.1 = Some item.2.2
         ∧ runs (combine_plates 1 (IdList [2]) "Plate" "Acquisition name" true
                   Scenario.st0).2 !! item.2.1
           = Some (mkRun (run_name item.2.2) 1 (run_startTime item.2.2))).
Proof.
  destruct (merged_runs_belong_to_target Scenario.st0 1 (IdList [2]) "Plate"
              "Acquisition name" true
              "3 Images from 1 Runs merged into Plate:1. 1 Wells created."
              (1, mkPlate "P1" (Some 7) None None)
              (combine_plates 1 (IdList [2]) "Plate" "Acquisition name" true
                 Scenario.st0).2)
    as (wl & st1 & Hr & Hin & _).
  - vm_compute. reflexivity.
  - exists wl, st1. split; [exact Hr|exact Hin].
Defined.

(** The loop of lines 66-80 completes only when every source exists. *)
Lemma ensure_runs_exist (ids : list Z) st st' i :
  for_loop ids () ensure_run st = (inr (), st') → i ∈ ids → is_Some (plates st !! i).
Proof.
  intros Hloop Hin. destruct (plates st !! i) as [p|] eqn:Hp; [by eexists|].
  destruct (ensure_runs_missing ids st i Hin Hp) as [s Hs]. congruence.
Qed.

(** X4: when a merge with [source_type = "Plate"] completes, every source
    plate is still there, as it was, and has no run left: all its runs, the
    synthesized one included, have gone to the target. *)
Theorem source_plates_keep_no_run (st : Store) (tid : Z) (srcs : SourceIds)
    (sw : string) (ss : bool) (msg : string) (tp' : PlateObj) (st' : Store) (pid : Z) :
  combine_plates tid srcs "Plate" sw ss st = (inr (msg, tp'), st') →
  pid ∈ as_list srcs → pid ≠ tid →
  is_Some (plates st !! pid) ∧ plates st' !! pid = plates st !! pid
  ∧ listPlateAcquisitions st' pid = [].
Proof.
  intros (wl & st1 & Hr & Hpl & Hin & Hout)%combine_plates_runs Hsrc Hne.
  apply resolve_synthesis in Hr as Hsyn. destruct Hsyn as [Hpl1 _ _ _].
  apply resolve_plate_inv in Hr as [Hloop ->].
  assert (pid ∈ set_difference (as_list srcs) tid) as Hpid
    by (by apply elem_of_set_difference).
  destruct (ensure_runs_exist _ _ _ pid Hloop Hpid) as [p Hp].
  split_and!; [by eexists|by rewrite Hpl|].
  apply filter_none. intros [rid r] Hrun%elem_of_map_to_list Hplate. simpl in *.
  destruct (decide (rid ∈ (expand_plates st1 (set_difference (as_list srcs) tid)).*2.*1))
    as [Hmem|Hmem].
  - apply list_elem_of_fmap in Hmem as (run_o & -> & (item & -> & Hitem)%list_elem_of_fmap).
    destruct (Hin item Hitem) as [_ Hrow]. rewrite Hrun in Hrow.
    injection Hrow as ->. simpl in Hplate. congruence.
  - rewrite Hout in Hrun by done. apply Hmem.
    apply list_elem_of_fmap. exists (rid, r). split; [done|].
    apply list_elem_of_fmap. exists (Some (pid, p), (rid, r)). split; [done|].
    apply elem_of_expand_plates. exists (pid, p), (rid, r). split_and!; [done| |].
    + apply elem_of_getObjects_Plate. simpl. by rewrite Hpl1.
    + by apply elem_of_listPlateAcquisitions.
Qed.

Lemma source_plates_keep_no_run_witness :
  listPlateAcquisitions
    (combine_plates 1 (IdList [2]) "Plate" "Acquisition name" true Scenario.st0).2 2
  = [].
Proof.
  refine (proj2 (proj2 (source_plates_keep_no_run Scenario.st0 1 (IdList [2])
            "Acquisition name" true
            "3 Images from 1 Runs merged into Plate:1. 1 Wells created."
            (1, mkPlate "P1" (Some 7) None None) _ 2 _ _ _))).
  - vm_compute. reflexivity.
  - simpl. by apply list_elem_of_singleton.
  - lia.
Defined.

(** ** A fold that fails *)

(** X5: the loop of line 132 saves run by run.  When it raises, the store
    is the one left by the complete fold of the entries before the failing
    one: those runs are moved with all their samples, the failing run and
    the runs after it are untouched. *)
Theorem failed_fold_keeps_merged_prefix (tp : PlateObj) (well_d : gmap string Z)
    (n : nat) (loaded : list Loaded) (st : Store) (e : exn) (st' : Store) :
  is_Some (plates st !! tp.1) →
  for_loop loaded (tp, well_d, n) merge_item st = (inl e, st') →
  ∃ done item rest state,
    loaded = done ++ item :: rest
    ∧ for_loop done (tp, well_d, n) merge_item st = (inr state, st')
    ∧ merge_item state item st' = (inl e, st').
Proof.
  revert tp well_d n st. induction loaded as [|item wl IH]; intros tp well_d n st Htp;
    [done|].
  rewrite for_loop_cons.
  destruct (merge_item (tp, well_d, n) item st) as [[e1|[[tp1 wd1] n1]] st1] eqn:Hstep.
  - intros [= -> ->]. apply merge_item_raises in Hstep as Hst; [|done]. subst st'.
    by exists [], item, wl, (tp, well_d, n).
  - destruct (merge_item_ok tp.1 _ _ _ _ _ _ _ _ _ eq_refl Hstep)
      as (plate & _ & _ & Hpl & _ & _ & _ & Htp1 & _).
    intros (wl1 & it & wl2 & state & -> & Hloop & Hfail)%IH;
      [|by rewrite Htp1, Hpl].
    exists (item :: wl1), it, wl2, state. split_and!; [done| |done].
    by rewrite for_loop_cons, Hstep.
Qed.

(** On the store [Partial.st0] the fold merges "R2" and fails on "R3",
    whose plate holds a sample without a run. *)
Lemma failed_fold_witness :
  (populate_target 1 Partial.loaded.*1
     (index_wells Partial.st0 Partial.target_plate) Partial.st0).1
  = inr (index_wells Partial.st0 Partial.target_plate, 0%nat, Partial.loaded)
  ∧ ∃ done item rest state,
      Partial.loaded = done ++ item :: rest
      ∧ for_loop done (Partial.target_plate,
                       index_wells Partial.st0 Partial.target_plate, 0%nat)
          merge_item Partial.st0
        = (inr state,
           (combine_plates 1 (IdList [2; 3]) "Plate" "Acquisition name" true
              Partial.st0).2)
      ∧ merge_item state item
          (combine_plates 1 (IdList [2; 3]) "Plate" "Acquisition name" true Partial.st0).2
        = (inl (AttributeError (NoneType_has_no "_id")),
           (combine_plates 1 (IdList [2; 3]) "Plate" "Acquisition name" true
              Partial.st0).2).
Proof.
  split; [vm_compute; reflexivity|].
  apply (failed_fold_keeps_merged_prefix Partial.target_plate
           (index_wells Partial.st0 Partial.target_plate) 0%nat).
  - vm_compute. by eexists.
  - vm_compute. reflexivity.
Defined.

(** ** What no outcome undoes *)

Lemma preserved_refl st : preserved st st.
Proof. split; [done..|]. intros rid run Hr. by exists run. Qed.

Lemma preserved_trans st1 st2 st3 :
  preserved st1 st2 → preserved st2 st3 → preserved st1 st3.
Proof.
  intros [Hp1 Hw1 Hs1 Hr1] [Hp2 Hw2 Hs2 Hr2]. split.
  - congruence.
  - by trans (wells st2).
  - intros sid. by rewrite Hs2.
  - intros rid run (run1 & Hrun1 & Hn1 & Ht1)%Hr1.
    destruct (Hr2 _ _ Hrun1) as (run2 & Hrun2 & Hn2 & Ht2).
    exists run2. split_and!; congruence.
Qed.

Lemma synthesis_only_preserved st st' : synthesis_only st st' → preserved st st'.
Proof.
  intros [Hp Hw Hr Hs]. split; [done|by rewrite Hw| |].
  - intros sid. by rewrite <-!(fmap_is_Some ws_well), Hs.
  - intros rid run Hrun. exists run. split; [by eapply lookup_weaken|done].
Qed.

Lemma create_if_missing_store tid plate acc well st r st' :
  create_if_missing tid plate acc well st = (r, st') →
  plates st' = plates st ∧ samples st' = samples st ∧ runs st' = runs st
  ∧ wells st ⊆ wells st'.
Proof.
  unfold create_if_missing. case_decide; [by intros [_ ->]%ret_inv|].
  intros [(e & Hs & _)|(new & s & Hs & [_ ->]%ret_inv)]%bind_inv;
    unfold saveAndReturn_new_well in Hs; [done|].
  injection Hs as <- <-. simpl. split_and!; [done..|].
  apply insert_subseteq, fresh_id_wells.
Qed.

Lemma populate_target_store tid wl well_d st r st' :
  populate_target tid wl well_d st = (r, st') →
  plates st' = plates st ∧ samples st' = samples st ∧ runs st' = runs st
  ∧ wells st ⊆ wells st'.
Proof.
  unfold populate_target.
  apply (for_loop_store (λ s, plates s = plates st ∧ samples s = samples st
                              ∧ runs s = runs st ∧ wells st ⊆ wells s)); [|done].
  intros item acc s r0 s' _ Hs. unfold populate_item.
  destruct item.1 as [plate|]; [|by intros [_ ->]%raise_inv].
  intros [(e & Hg & _)|(children & s1 & [-> ->]%gets_ok_inv & H1)]%bind_inv; [done|].
  assert (∀ l r1 s1, for_loop l acc.1 (create_if_missing tid plate.2) s = (r1, s1) →
            plates s1 = plates st ∧ samples s1 = samples st
            ∧ runs s1 = runs st ∧ wells st ⊆ wells s1) as Hloop.
  { intros l r1 s1.
    apply (for_loop_store (λ s, plates s = plates st ∧ samples s = samples st
                                ∧ runs s = runs st ∧ wells st ⊆ wells s)); [|done].
    intros well acc0 s0 r2 s0' _ (Hp & Hsa & Hr & Hw)
      (Hp' & Hsa' & Hr' & Hw')%create_if_missing_store.
    split_and!; [congruence..|]. by trans (wells s0). }
  apply bind_inv in H1 as [(e & Hl & _)|(a & s1 & Hl & [_ ->]%ret_inv)];
    by apply Hloop in Hl.
Qed.

(** The samples are the same after a run is folded. *)
Lemma merge_item_samples tid (tp : PlateObj) well_d n item st
    (tp' : PlateObj) well_d' n' st' sid :
  tp.1 = tid → listed_in st item →
  merge_item (tp, well_d, n) item st = (inr (tp', well_d', n'), st') →
  is_Some (samples st' !! sid) ↔ is_Some (samples st !! sid).
Proof.
  intros Htp Hlisted Hrun.
  destruct (merge_item_ok _ _ _ _ _ _ _ _ _ _ Htp Hrun)
    as (plate & _ & _ & _ & _ & -> & _).
  destruct (decide (sid ∈ (run_moves plate.2 item.1.2.1 well_d item.2).*1.*1)) as [Hin|Hnin].
  - destruct (save_wells_lookup_moved _ (samples st) sid Hin) as (ws & tw & Hmv & <- & ->).
    apply elem_of_run_moves in Hmv as (Hws & _). split; [intros _|by eexists].
    by apply Hlisted.
  - by rewrite save_wells_lookup_other.
Qed.

Lemma merge_loop_preserved tid (loaded : list Loaded) (tp : PlateObj) well_d n st r st' :
  tp.1 = tid → is_Some (plates st !! tid) →
  (∀ item : Loaded, item ∈ loaded →
     runs st !! item.1.2.1 = Some item.1.2.2 ∧ listed_in st item) →
  for_loop loaded (tp, well_d, n) merge_item st = (r, st') →
  preserved st st'.
Proof.
  intros Htp Htid Hwl Hloop.
  assert (∀ item (state : MergeState) s, item ∈ loaded →
            state.1.1.1 = tid ∧ preserved st s →
            match merge_item state item s with
            | (inl e, s') => preserved st s'
            | (inr state', s') => state'.1.1.1 = tid ∧ preserved st s'
            end) as Hbody.
  { intros item [[tp0 wd0] n0] s Hitem [Htp0 Hpres]. simpl in Htp0.
    destruct (Hwl item Hitem) as [Hrun0 Hlisted].
    destruct (merge_item (tp0, wd0, n0) item s) as [[e0|[[tp1 wd1] n1]] s1] eqn:Hstep.
    - apply merge_item_raises in Hstep as ->; [done|].
      by rewrite Htp0, (pres_plates _ _ Hpres).
    - destruct (merge_item_ok tid _ _ _ _ _ _ _ _ _ Htp0 Hstep)
        as (plate & _ & _ & Hpl & Hw1 & _ & Hruns & Htp1 & _).
      split; [done|]. destruct Hpres as [Hp Hws Hsa Hru]. split.
      + congruence.
      + by rewrite Hw1.
      + intros sid.
        assert (listed_in s item) as Hlisted'.
        { intros ws Hin. apply Hsa. by apply Hlisted. }
        by rewrite (merge_item_samples tid _ _ _ _ _ _ _ _ _ sid Htp0 Hlisted' Hstep).
      + intros rid run Hrun. rewrite Hruns.
        destruct (decide (rid = item.1.2.1)) as [->|Hne].
        * rewrite lookup_insert_eq. eexists. split; [done|].
          rewrite Hrun0 in Hrun. by injection Hrun as <-.
        * rewrite lookup_insert_ne by done. by apply Hru. }
  pose proof (for_loop_inv (λ (state : MergeState) s, state.1.1.1 = tid ∧ preserved st s)
                (λ _ s, preserved st s) loaded merge_item Hbody (tp, well_d, n) st
                (conj Htp (preserved_refl st))) as Hinv.
  rewrite Hloop in Hinv. destruct r; [done|]. by destruct Hinv.
Qed.

Lemma merge_runs_preserved (tp : PlateObj) (wl : list WorkItem) st r st' :
  is_Some (plates st !! tp.1) →
  (∀ item : WorkItem, item ∈ wl → runs st !! item.2.1 = Some item.2.2) →
  merge_runs tp wl st = (r, st') → preserved st st'.
Proof.
  intros Htp Hwl. unfold merge_runs.
  intros [(e & Hg & _)|(d0 & s0 & [-> ->]%gets_ok_inv & H1)]%bind_inv; [done|].
  apply bind_inv in H1 as [(e & Hp & _)|([[well_d k] loaded] & st2 & Hp & H2)].
  { apply populate_target_store in Hp as (? & Hs & Hr & ?).
    split; [done..|intros sid; by rewrite Hs|]. intros rid run Hrun. exists run.
    by rewrite Hr. }
  apply populate_target_store in Hp as Hstore. destruct Hstore as (Hpl & Hs & Hr & Hw).
  apply populate_target_inv in Hp as (_ & _ & _ & Hloaded & Hfst).
  assert (preserved st st2) as Hpres.
  { split; [done..|intros sid; by rewrite Hs|]. intros rid run Hrun. exists run.
    by rewrite Hr. }
  apply (preserved_trans _ st2); [done|].
  assert (∀ item : Loaded, item ∈ loaded →
            runs st2 !! item.1.2.1 = Some item.1.2.2 ∧ listed_in st2 item) as Hitems.
  { intros item Hitem. split.
    - rewrite Hr. apply Hwl. rewrite <-Hfst. by apply list_elem_of_fmap_2.
    - rewrite Forall_forall in Hloaded.
      destruct (loaded_from_samples _ _ _ (Hloaded item Hitem)) as (_ & _ & _ & Hin & _).
      intros ws Hws. rewrite Hs. rewrite (Hin ws Hws). by eexists. }
  assert (∀ r0 s0, for_loop loaded (tp, well_d, 0%nat) merge_item st2 = (r0, s0) →
            preserved st2 s0) as Hloop.
  { intros r0 s0. apply (merge_loop_preserved tp.1); [done|by rewrite Hpl|done]. }
  apply bind_inv in H2 as [(e & Hl & _)|([[tp2 wd] n] & st3 & Hl & [_ ->]%ret_inv)];
    by apply Hloop in Hl.
Qed.

(** X6: whatever its outcome, a call deletes nothing and writes no plate
    and no existing well: the plates are as they were, every well is still
    there as it was, the samples are the same ones, and every run is still
    there under its name and with its start time. *)
Theorem merge_deletes_nothing (st : Store) (tid : Z) (srcs : SourceIds)
    (stype sw : string) (ss : bool) :
  preserved st (combine_plates tid srcs stype sw ss st).2.
Proof.
  destruct (getObject_Plate st tid) as [tp|] eqn:Ht.
  2: { rewrite combine_plates_no_target by done. apply preserved_refl. }
  rewrite (combine_plates_staged _ _ _ _ _ _ _ Ht).
  apply getObject_Plate_Some in Ht as [Htid Htp].
  match goal with |- preserved _ (?m st).2 => destruct (m st) as [r st'] eqn:Hrun end.
  simpl.
  apply bind_inv in Hrun as [(e & Hr & _)|(wl0 & st1 & Hr & H1)].
  { apply resolve_synthesis in Hr. by apply synthesis_only_preserved. }
  apply resolve_synthesis in Hr as Hsyn.
  apply (preserved_trans _ st1); [by apply synthesis_only_preserved|].
  apply bind_inv in H1 as [(e & Ho & _)|(wl & st2 & Ho & H2)].
  { apply order_runs_store in Ho as ->. apply preserved_refl. }
  apply order_runs_store in Ho as Hst. subst st2.
  apply order_runs_perm in Ho as Hperm.
  apply bind_inv in H2 as [(e & Hs & _)|([] & st2 & Hs & H3)].
  { destruct ss; [apply screen_safety_store in Hs as ->|by apply ret_inv in Hs as [? _]].
    apply preserved_refl. }
  assert (st2 = st1) as ->.
  { destruct ss; [by apply screen_safety_store in Hs|by apply ret_inv in Hs as [_ ->]]. }
  eapply merge_runs_preserved; [| |done].
  - rewrite Htid, (syn_plates _ _ Hsyn), Htp. by eexists.
  - intros item Hitem. eapply resolve_runs; [done|]. by rewrite <-Hperm.
Qed.

(** ** Samples without a run *)

Lemma move_sample_loop_runs run_id well_oi (wss : list SampleObj) acc st acc' st' :
  for_loop wss acc (move_sample run_id well_oi) st = (inr acc', st') →
  ∀ ws : SampleObj, ws ∈ wss → is_Some (ws_plateAcquisition ws.2).
Proof.
  revert acc st. induction wss as [|ws wss IH]; intros acc st;
    [by intros _ ? ?%elem_of_nil|].
  rewrite for_loop_cons.
  destruct (move_sample run_id well_oi acc ws st) as [[e|acc1] st1] eqn:Hs; [done|].
  intros Hl y [->|Hy]%elem_of_cons; [|by eapply IH].
  unfold move_sample in Hs. destruct (ws_plateAcquisition ws.2); [by eexists|done].
Qed.

Lemma move_well_loop_runs plate run_id well_d (children : Children) acc st acc' st' :
  for_loop children acc (move_well plate run_id well_d) st = (inr acc', st') →
  ∀ ws : SampleObj, ws ∈ listed_samples children → is_Some (ws_plateAcquisition ws.2).
Proof.
  revert acc st. induction children as [|child children IH]; intros acc st.
  { intros _ ws Hws. unfold listed_samples in Hws. by apply elem_of_nil in Hws. }
  rewrite for_loop_cons.
  destruct (move_well plate run_id well_d acc child st) as [[e|acc1] st1] eqn:Hw; [done|].
  intros Hl ws. unfold listed_samples. rewrite bind_cons.
  intros [Hws|Hws]%elem_of_app; [|by eapply IH].
  unfold move_well in Hw. destruct (well_d !! _); [|done].
  by eapply move_sample_loop_runs.
Qed.

(** A run is folded only if every sample its plate has listed belongs to
    some run: line 136 reads the run of each of them. *)
Lemma merge_item_reads_runs (tp : PlateObj) well_d n (item : Loaded) st state st' :
  merge_item (tp, well_d, n) item st = (inr state, st') →
  ∀ ws : SampleObj, ws ∈ listed_samples item.2 → is_Some (ws_plateAcquisition ws.2).
Proof.
  unfold merge_item. destruct item.1.1 as [plate|]; [|done].
  intros ([pending n1] & s1 & Hloop & _)%bind_ok_inv.
  by eapply move_well_loop_runs.
Qed.

Lemma merge_loop_reads_runs (loaded : list Loaded) :
  ∀ state st state' st',
    for_loop loaded state merge_item st = (inr state', st') →
    ∀ (item : Loaded) (ws : SampleObj),
      item ∈ loaded → ws ∈ listed_samples item.2 → is_Some (ws_plateAcquisition ws.2).
Proof.
  induction loaded as [|it wl IH]; intros state st state' st';
    [by intros _ ?? ?%elem_of_nil|].
  rewrite for_loop_cons.
  destruct (merge_item state it st) as [[e|state1] st1] eqn:Hstep; [done|].
  intros Hloop item ws [->|Hin]%elem_of_cons; [|by eapply IH].
  destruct state as [[tp well_d] n]. by eapply merge_item_reads_runs.
Qed.

(** X7: a merge completes only if every run of the work list has its
    plate and, when that plate is not the target and no two of its wells
    share a position, every sample in a well of that plate belongs to some
    run.  A sample without a run in a plate that has runs stops the merge
    at line 136, with an [AttributeError]. *)
Theorem completed_merge_met_no_runless_sample (st : Store) (tid : Z) (srcs : SourceIds)
    (stype sw : string) (ss : bool) (msg : string) (tp' : PlateObj) (st' : Store) :
  combine_plates tid srcs stype sw ss st = (inr (msg, tp'), st') →
  ∃ wl st1,
    resolve tid (as_list srcs) stype st = (inr wl, st1)
    ∧ ∀ item : WorkItem, item ∈ wl →
        ∃ plate : PlateObj, item.1 = Some plate
          ∧ (plate.1 ≠ tid → unique_positions st1 plate.1 →
             ∀ sid x, samples st1 !! sid = Some x → in_plate st1 plate.1 x →
               is_Some (ws_plateAcquisition x)).
Proof.
  intros (tp & wl0 & st1 & wl & well_d & k & loaded & st2 & wd' & n
          & Ht & Hr & Ho & Hp & Hl & ->)%combine_plates_ok_inv.
  apply getObject_Plate_Some in Ht as [Htid _].
  apply order_runs_perm in Ho as Hperm.
  apply populate_target_inv in Hp as (_ & _ & _ & Hloaded & Hfst).
  exists wl0, st1. split; [done|]. intros item Hitem.
  rewrite <-Hperm, <-Hfst in Hitem.
  apply list_elem_of_fmap in Hitem as (ld & -> & Hld).
  rewrite Forall_forall in Hloaded.
  destruct (loaded_from_samples _ _ _ (Hloaded ld Hld)) as (plate & Hplate & _ & _ & Hall).
  exists plate. split; [done|]. rewrite Htid in Hall.
  intros Hne Huniq sid x Hx Hin.
  by apply (merge_loop_reads_runs _ _ _ _ _ Hl ld (sid, x) Hld), Hall.
Qed.

Lemma completed_merge_witness :
  ∃ wl st1,
    resolve 1 [2] "Plate" Scenario.st0 = (inr wl, st1)
    ∧ ∀ item : WorkItem, item ∈ wl →
        ∃ plate : PlateObj, item.1 = Some plate
          ∧ (plate.1 ≠ 1 → unique_positions st1 plate.1 →
             ∀ sid x, samples st1 !! sid = Some x → in_plate st1 plate.1 x →
               is_Some (ws_plateAcquisition x)).
Proof.
  apply (completed_merge_met_no_runless_sample Scenario.st0 1 (IdList [2]) "Plate"
           "Acquisition name" true
           "3 Images from 1 Runs merged into Plate:1. 1 Wells created."
           (1, mkPlate "P1" (Some 7) None None)
           (combine_plates 1 (IdList [2]) "Plate" "Acquisition name" true
              Scenario.st0).2).
  vm_compute. reflexivity.
Defined.

(** ** The wells that are created *)

Lemma at_source_position_mono st st' wl w :
  wells st ⊆ wells st' → at_source_position st wl w → at_source_position st' wl w.
Proof.
  intros Hsub (item & plate & j & w0 & ? & ? & Hw0 & ? & ?).
  exists item, plate, j, w0. split_and!; [done..| |done|done]. by eapply lookup_weaken.
Qed.

Lemma create_if_missing_created tid st0 wl (item : WorkItem) (plate : PlateObj)
    acc (well : WellObj) st acc' st' :
  item ∈ wl → item.1 = Some plate →
  wells st !! well.1 = Some well.2 → well_plate well.2 = plate.1 →
  created_at_sources st0 wl st →
  create_if_missing tid plate.2 acc well st = (inr acc', st') →
  created_at_sources st0 wl st' ∧ wells st ⊆ wells st'.
Proof.
  intros Hitem Hplate Hw Hp [Hsub Hnew]. unfold create_if_missing. case_decide.
  { by intros [_ ->]%ret_inv. }
  intros (new & s & Hsave & [_ ->]%ret_inv)%bind_ok_inv.
  unfold saveAndReturn_new_well in Hsave. injection Hsave as <- <-. simpl.
  assert (wells st ⊆ <[fresh_id st := mkWell tid (well_row well.2) (well_column well.2)]>
                       (wells st)) as Hins.
  { apply (insert_subseteq (wells st) (fresh_id st)), fresh_id_wells. }
  split; [|done]. split; simpl; [by etrans|].
  intros i w. destruct (decide (i = fresh_id st)) as [->|Hne].
  - rewrite lookup_insert_eq. intros [= <-] _.
    exists item, plate, well.1, well.2. split_and!; [done..| |done|done].
    by eapply lookup_weaken.
  - rewrite lookup_insert_ne by done. intros Hi H0.
    eapply at_source_position_mono; [|by apply (Hnew i)]. done.
Qed.

Lemma populate_item_created tid st0 wl acc (item : WorkItem) st acc' st' :
  item ∈ wl → created_at_sources st0 wl st →
  populate_item tid acc item st = (inr acc', st') →
  created_at_sources st0 wl st'.
Proof.
  intros Hitem Hinv. unfold populate_item. destruct item.1 as [plate|] eqn:Hplate; [|done].
  intros (children & s & [-> ->]%gets_ok_inv & H1)%bind_ok_inv.
  apply bind_ok_inv in H1 as (acc1 & s1 & Hloop & [_ ->]%ret_inv).
  apply (for_loop_ok (λ _ s, created_at_sources st0 wl s ∧ wells st ⊆ wells s))
    in Hloop as [Hc _]; [done| |done].
  intros well a s0 a' s0' Hwell [Hc Hsub] Hstep.
  apply list_elem_of_fmap in Hwell as (child & -> & [Hl _]%elem_of_load_children).
  apply elem_of_plate_listChildren in Hl as [Hw Hp].
  eapply create_if_missing_created in Hstep as [Hc' Hsub']; [|done..| |done|done].
  - split; [done|]. by etrans.
  - by eapply lookup_weaken.
Qed.

Lemma populate_target_created tid wl well_d st r st' :
  populate_target tid wl well_d st = (inr r, st') → created_at_sources st wl st'.
Proof.
  unfold populate_target.
  apply (for_loop_ok (λ _ s, created_at_sources st wl s)).
  - intros item a s a' s' Hitem Hc. by apply populate_item_created.
  - split; [done|]. intros i w ??. congruence.
Qed.

(** X8: when the merge completes, the number of wells the message reports
    as created is the number of wells the store has gained; every well of
    the store is still there, and a well that was added belongs to the
    target and is at the row and column of a well of a plate of the work
    list. *)
Theorem created_wells_are_counted (st : Store) (tid : Z) (srcs : SourceIds)
    (stype sw : string) (ss : bool) (msg : string) (tp' : PlateObj) (st' : Store) :
  combine_plates tid srcs stype sw ss st = (inr (msg, tp'), st') →
  ∃ wl st1 n k,
    resolve tid (as_list srcs) stype st = (inr wl, st1)
    ∧ msg = summary_message n (length wl) tid k
    ∧ size (wells st') = (size (wells st) + k)%nat
    ∧ wells st ⊆ wells st'
    ∧ ∀ i w, wells st' !! i = Some w → wells st !! i = None →
        well_plate w = tid ∧ at_source_position st' wl w.
Proof.
  intros (tp & wl0 & st1 & wl & well_d & k & loaded & st2 & wd' & n
          & Ht & Hr & Ho & Hp & Hl & ->)%combine_plates_ok_inv.
  apply getObject_Plate_Some in Ht as [Htid _].
  apply populate_target_created in Hp as Hcr. destruct Hcr as [Hsub Hnew].
  apply populate_target_inv in Hp as (Hpop & _ & Hsize & _ & _).
  apply order_runs_perm in Ho as Hperm.
  apply (merge_loop_plates tid) in Hl as (_ & Hw' & Htp'); [|done].
  apply resolve_synthesis in Hr as Hsyn. destruct Hsyn as [_ Hw1 _ _].
  exists wl0, st1, n, k. split_and!.
  - done.
  - by rewrite Htp', (Permutation_length Hperm).
  - by rewrite Hw', Hsize, Hw1.
  - rewrite Hw', <-Hw1. apply (pop_wells _ _ _ Hpop).
  - intros i w. rewrite Hw', <-Hw1. intros Hi H0. split.
    + rewrite <-Htid. by apply (pop_new _ _ _ Hpop i w Hi H0).
    + destruct (Hnew i w Hi H0) as (item & plate & j & w0 & Hitem & Hpl & Hj & Hpj & Hpos).
      exists item, plate, j, w0. rewrite Hw', <-Hperm. by split_and!.
Qed.

Lemma created_wells_witness :
  ∃ wl st1 n k,
    resolve 1 [2] "Plate" Scenario.st0 = (inr wl, st1)
    ∧ "3 Images from 1 Runs merged into Plate:1. 1 Wells created."
      = summary_message n (length wl) 1 k
    ∧ size (wells (combine_plates 1 (IdList [2]) "Plate" "Acquisition name" true
                     Scenario.st0).2)
      = (size (wells Scenario.st0) + k)%nat.
Proof.
  destruct (created_wells_are_counted Scenario.st0 1 (IdList [2]) "Plate"
              "Acquisition name" true
              "3 Images from 1 Runs merged into Plate:1. 1 Wells created."
              (1, mkPlate "P1" (Some 7) None None)
              (combine_plates 1 (IdList [2]) "Plate" "Acquisition name" true
                 Scenario.st0).2)
    as (wl & st1 & n & k & Hr & Hmsg & Hsize & _).
  - vm_compute. reflexivity.
  - exists wl, st1, n, k. split; [exact Hr|]. split; [exact Hmsg|exact Hsize].
Defined.

(** ** Plates of one naming *)

(** Then wells at one row and column have one label on both. *)
Lemma getWellPos_same_naming p q w w' :
  same_naming p q → well_position w = well_position w' →
  getWellPos p w = getWellPos q w'.
Proof.
  intros [Hr Hc] [= Hrow Hcol]. unfold getWellPos, getRowLabel, getColumnLabel.
  by rewrite Hr, Hc, Hrow, Hcol.
Qed.

(** The plate of an entry of the work list is a plate of the store. *)
Lemma resolve_item_plate tid source_ids stype st wl st1 (item : WorkItem) (plate : PlateObj) :
  resolve tid source_ids stype st = (inr wl, st1) → item ∈ wl → item.1 = Some plate →
  plates st1 !! plate.1 = Some plate.2.
Proof.
  unfold resolve. case_decide as Hs.
  - intros ([] & s & _ & [-> ->]%gets_ok_inv)%bind_ok_inv
      (plate_o & run_o & -> & [Hp _]%elem_of_getObjects_Plate & _)%elem_of_expand_plates.
    by intros [= <-].
  - intros [-> ->]%gets_ok_inv. unfold expand_runs.
    intros (run_o & -> & _)%list_elem_of_fmap. simpl.
    intros [<- Hp]%getObject_Plate_Some. done.
Qed.

Lemma create_if_missing_positions (tp : PlateObj) st0 plate acc (well : WellObj) st acc' st' :
  same_naming plate tp.2 →
  positions_inv tp st0 acc st →
  create_if_missing tp.1 plate acc well st = (inr acc', st') →
  positions_inv tp st0 acc' st'.
Proof.
  intros Hsame (Hsub & Huniq & Hcov & Hfree). unfold create_if_missing.
  case_decide as Hpos.
  { by intros [[= ->] ->]%ret_inv. }
  intros (new & s & Hsave & [[= ->] ->]%ret_inv)%bind_ok_inv.
  unfold saveAndReturn_new_well in Hsave. injection Hsave as <- <-.
  set (w' := mkWell tp.1 (well_row well.2) (well_column well.2)).
  assert (getWellPos plate well.2 = getWellPos tp.2 w') as Hlabel
    by (by apply getWellPos_same_naming).
  assert (∀ j wj, wells st !! j = Some wj → well_plate wj = tp.1 →
            well_position wj ≠ well_position w') as Hnone.
  { intros j wj Hj Hp Heq. apply Hpos. rewrite Hlabel.
    rewrite <-(getWellPos_same_naming tp.2 tp.2 wj w') by done. by eapply Hcov. }
  pose proof (fresh_id_wells st) as Hfresh. subst w'.
  split_and!; simpl.
  - etrans; [done|]. by apply insert_subseteq.
  - intros i j wi wj. simpl.
    destruct (decide (i = fresh_id st)) as [->|Hi];
      destruct (decide (j = fresh_id st)) as [->|Hj]; [done|..].
    + rewrite lookup_insert_eq, lookup_insert_ne by done.
      intros [= <-] Hwj _ Hp Heq. exfalso. by apply (Hnone j wj).
    + rewrite lookup_insert_eq, lookup_insert_ne by done.
      intros Hwi [= <-] Hp _ Heq. exfalso. by apply (Hnone i wi).
    + rewrite !lookup_insert_ne by done. by apply Huniq.
  - intros i w. destruct (decide (i = fresh_id st)) as [->|Hne].
    + rewrite lookup_insert_eq. intros [= <-] _. rewrite Hlabel, lookup_insert_eq.
      by eexists.
    + rewrite lookup_insert_ne by done. intros Hw Hp.
      destruct (decide (getWellPos plate well.2 = getWellPos tp.2 w)) as [->|Hne'].
      * rewrite lookup_insert_eq. by eexists.
      * rewrite lookup_insert_ne by done. by eapply Hcov.
  - intros i w. destruct (decide (i = fresh_id st)) as [->|Hne].
    + rewrite lookup_insert_eq. intros [= <-] _ j w0 Hj Hp.
      apply (Hnone j w0); [|done]. by eapply lookup_weaken.
    + rewrite lookup_insert_ne by done. apply Hfree.
Qed.

Lemma populate_target_positions (tp : PlateObj) (wl : list WorkItem) st r st' :
  (∀ (item : WorkItem) (plate : PlateObj),
     item ∈ wl → item.1 = Some plate → same_naming plate.2 tp.2) →
  unique_positions st tp.1 →
  populate_target tp.1 wl (index_wells st tp) st = (inr r, st') →
  positions_inv tp st r.1 st'.
Proof.
  intros Hsame Huniq. unfold populate_target. intros Hloop.
  apply (for_loop_ok (λ acc s, positions_inv tp st acc.1 s)) in Hloop; [done| |].
  - intros item acc s acc' s' Hitem Hinv. unfold populate_item.
    destruct item.1 as [plate|] eqn:Hplate; [|done].
    intros (children & s0 & [-> ->]%gets_ok_inv & H1)%bind_ok_inv.
    apply bind_ok_inv in H1 as (acc1 & s1 & Hl & [Heq ->]%ret_inv).
    injection Heq as Heq. subst acc'. simpl.
    apply (for_loop_ok (positions_inv tp st)) in Hl; [done| |done].
    intros well a s2 a' s2' _ Hinv2. apply create_if_missing_positions; [|done].
    by eapply Hsame.
  - split_and!; simpl; [done|done| |].
    + intros i w Hw Hp. apply (index_wells_covers st tp (i, w)).
      by apply plate_listChildren_all.
    + intros i w ??. congruence.
Qed.

(** X9: when every plate of the store names its rows and columns as the
    target does and no two wells of the target share a position, they do
    not after a completed merge either: every well is still there, and a
    well that was added belongs to the target, at a position the target
    had no well at. *)
Theorem same_naming_keeps_positions_unique (st : Store) (tid : Z) (tp : Plate)
    (srcs : SourceIds) (stype sw : string) (ss : bool) (r : string * PlateObj)
    (st' : Store) :
  combine_plates tid srcs stype sw ss st = (inr r, st') →
  plates st !! tid = Some tp →
  (∀ pid p, plates st !! pid = Some p → same_naming p tp) →
  unique_positions st tid →
  unique_positions st' tid
  ∧ wells st ⊆ wells st'
  ∧ ∀ i w, wells st' !! i = Some w → wells st !! i = None →
      well_plate w = tid
      ∧ ∀ j w0, wells st !! j = Some w0 → well_plate w0 = tid →
          well_position w0 ≠ well_position w.
Proof.
  destruct r as [msg tp'].
  intros (tp0 & wl0 & st1 & wl & well_d & k & loaded & st2 & wd' & n
          & Ht & Hr & Ho & Hp & Hl & ->)%combine_plates_ok_inv Htp Hsame Huniq.
  apply getObject_Plate_Some in Ht as [Htid Htp0].
  assert (tp0 = (tid, tp)) as -> by (destruct tp0; simpl in *; congruence).
  apply order_runs_perm in Ho as Hperm.
  apply resolve_synthesis in Hr as Hsyn. destruct Hsyn as [Hpl1 Hw1 _ _].
  apply populate_target_inv in Hp as Hpop. destruct Hpop as (Hpop & _).
  apply populate_target_positions in Hp as (Hsub & Huniq2 & _ & Hfree).
  - apply (merge_loop_plates tid) in Hl as (_ & Hw' & _); [|done].
    simpl in *. split_and!.
    + unfold unique_positions. rewrite Hw'. apply Huniq2.
    + by rewrite Hw', <-Hw1.
    + intros i w. rewrite Hw', <-Hw1. intros Hi H0. split.
      * by apply (pop_new _ _ _ Hpop i w Hi H0).
      * by apply (Hfree i).
  - intros item plate Hitem Hplate. simpl. apply (Hsame plate.1).
    rewrite <-Hpl1. eapply resolve_item_plate; [done| |done]. by rewrite <-Hperm.
  - simpl. unfold unique_positions. by rewrite Hw1.
Qed.

Lemma same_naming_witness :
  unique_positions
    (combine_plates 1 (IdList [2]) "Plate" "Acquisition name" true Scenario.st0).2 1.
Proof.
  refine (proj1 (same_naming_keeps_positions_unique Scenario.st0 1
                   (mkPlate "P1" (Some 7) None None) (IdList [2]) "Plate"
                   "Acquisition name" true
                   ("3 Images from 1 Runs merged into Plate:1. 1 Wells created.",
                    (1, mkPlate "P1" (Some 7) None None)) _ _ _ _ _)).
  - vm_compute. reflexivity.
  - vm_compute. reflexivity.
  - apply map_Forall_lookup, (bool_decide_unpack _). vm_compute. exact I.
  - apply all_unique_positions, (bool_decide_unpack _). vm_compute. exact I.
Defined.

(** ** When a merge of plates completes *)

Lemma for_loop_total {A S} (I : S → Store → Prop) (l : list A) (body : S → A → M S) :
  (∀ x acc st, x ∈ l → I acc st →
     ∃ acc' st', body acc x st = (inr acc', st') ∧ I acc' st') →
  ∀ acc st, I acc st →
    ∃ acc' st', for_loop l acc body st = (inr acc', st') ∧ I acc' st'.
Proof.
  induction l as [|x l IH]; intros Hbody acc st HI; [by exists acc, st|].
  rewrite for_loop_cons.
  destruct (Hbody x acc st) as (acc1 & st1 & -> & HI1); [by left|done|].
  apply IH; [|done]. intros y acc' s Hy. apply Hbody. by right.
Qed.

Lemma in_plate_ws_well st pid x x' :
  ws_well x = ws_well x' → in_plate st pid x → in_plate st pid x'.
Proof. unfold in_plate, sample_plate. by intros ->. Qed.

(** *** The work list *)

Lemma ensure_run_total pid st :
  is_Some (plates st !! pid) → ∃ st', ensure_run () pid st = (inr (), st').
Proof.
  intros [p Hp]. destruct (ensure_run_cases pid st) as [[? _]|(p' & _ & ->)]; [congruence|].
  case_decide; [|by eexists]. unfold save_new_run. by eexists.
Qed.

Lemma ensure_run_foldable j pid st st' :
  unique_positions st pid →
  ensure_run () j st = (inr (), st') → foldable st pid → foldable st' pid.
Proof.
  intros Huniq Hrun Hf.
  pose proof (ensure_run_synthesis _ _ _ _ Hrun) as [Hp Hw Hr Hs].
  assert (∀ sid x', samples st' !! sid = Some x' → in_plate st' pid x' →
            ∃ x, samples st !! sid = Some x ∧ in_plate st pid x) as Hpre.
  { intros sid x' Hx' Hin'. specialize (Hs sid). rewrite Hx' in Hs.
    destruct (samples st !! sid) as [x|]; [|done]. simpl in Hs. injection Hs as Hwell.
    exists x. split; [done|]. apply (in_plate_ws_well _ _ x'); [done|].
    by apply (in_plate_wells st st'). }
  destruct (decide (j = pid)) as [->|Hne].
  - destruct (decide (length (listPlateAcquisitions st pid) = 0%nat)) as [Hz|Hnz].
    + destruct (ensure_run_cases pid st) as [[_ Hc]|(p & Hpl & Hc)];
        [by rewrite Hc in Hrun|].
      apply (ensure_run_synthesizes pid p) in Hrun as (_ & _ & _ & Hsam);
        [|done|done|by apply nil_length_inv].
      intros _ sid x' Hx' Hin'. destruct (Hpre sid x' Hx' Hin') as (x & Hx & Hin).
      rewrite (Hsam sid x Hx Hin) in Hx'. injection Hx' as <-. simpl. by eexists.
    + apply ensure_run_has_run in Hrun as ->; [done|].
      by destruct (listPlateAcquisitions st pid).
  - apply (ensure_run_other pid) in Hrun as (_ & _ & _ & Hl & Hsam); [|done].
    intros Hnz sid x' Hx' Hin'. destruct (Hpre sid x' Hx' Hin') as (x & Hx & Hin).
    rewrite (Hsam sid x Hx Hin) in Hx'. injection Hx' as <-.
    apply (Hf (ltac:(by rewrite <-Hl)) sid x Hx Hin).
Qed.

Lemma ensure_runs_total (ids : list Z) st :
  (∀ i, i ∈ ids → is_Some (plates st !! i)) →
  ∃ st', for_loop ids () ensure_run st = (inr (), st')
    ∧ ∀ pid, unique_positions st pid → foldable st pid → foldable st' pid.
Proof.
  intros Hids.
  destruct (for_loop_total
    (λ (_ : unit) s, plates s = plates st ∧ wells s = wells st
       ∧ ∀ pid, unique_positions st pid → foldable st pid → foldable s pid)
    ids ensure_run) with (acc := ()) (st := st) as ([] & st' & Hl & _ & _ & Hf);
    [|done|by eauto].
  intros j [] s Hj (Hp & Hw & Hf). destruct (ensure_run_total j s) as (s' & Hrun).
  { rewrite Hp. by apply Hids. }
  exists (), s'. split; [done|].
  pose proof (ensure_run_synthesis _ _ _ _ Hrun) as [Hp' Hw' _ _].
  split_and!; [congruence..|].
  intros pid Huniq Hpid. eapply ensure_run_foldable; [|done|by apply Hf].
  unfold unique_positions. by rewrite Hw.
Qed.

Lemma resolve_plate_total tid ids st :
  (∀ i, i ∈ ids → i ≠ tid → is_Some (plates st !! i)) →
  ∃ st1, resolve tid ids "Plate" st
         = (inr (expand_plates st1 (set_difference ids tid)), st1)
    ∧ ∀ pid, unique_positions st pid → foldable st pid → foldable st1 pid.
Proof.
  intros Hids. destruct (ensure_runs_total (set_difference ids tid) st) as (st1 & Hl & Hf).
  { intros i [Hi Hne]%elem_of_set_difference. by apply Hids. }
  exists st1. split; [|done]. unfold resolve. rewrite decide_True by done.
  by rewrite bind_unfold, Hl.
Qed.

(** *** Ordering *)

Lemma keys_of_total {K A} (key : A → exn + K) (l : list A) :
  (∀ x, x ∈ l → ∃ k, key x = inr k) → ∃ keys, keys_of key l = inr keys.
Proof.
  induction l as [|x l IH]; intros Hall; simpl; [by eexists|].
  destruct (Hall x) as [k ->]; [by left|].
  destruct IH as [keys ->]; [|by eexists]. intros y Hy. apply Hall. by right.
Qed.

Lemma sorted_total {K A} (ltb : K → K → bool) (key : A → exn + K) (l : list A) st :
  (∀ x, x ∈ l → ∃ k, key x = inr k) → ∃ l', sorted ltb key l st = (inr l', st).
Proof.
  intros [keys Hk]%keys_of_total. unfold sorted. rewrite Hk. by eexists.
Qed.

Lemma order_runs_total sort_way (wl : list WorkItem) st :
  sort_way ≠ "Acquisition start time" →
  (∀ item : WorkItem, item ∈ wl → is_Some item.1) →
  ∃ wl', order_runs sort_way wl st = (inr wl', st).
Proof.
  intros Hsw Hwl. unfold order_runs. case_decide; [|case_decide; [|case_decide]].
  - apply sorted_total. intros x [plate Hx]%Hwl. unfold key_plate_run_name.
    rewrite Hx. by eexists.
  - apply sorted_total. intros x _. by eexists.
  - done.
  - by eexists.
Qed.

(** *** The screen *)

Lemma screen_safety_total (wl : list WorkItem) (tp : PlateObj) st s :
  plate_screen tp.2 = Some s →
  (∀ item : WorkItem, item ∈ wl →
     ∃ plate : PlateObj, item.1 = Some plate ∧ plate_screen plate.2 = Some s) →
  screen_safety wl tp st = (inr (), st).
Proof.
  intros Htp Hwl.
  assert (∃ ps : list PlateObj, wl.*1 = Some <$> ps
            ∧ ∀ p : PlateObj, p ∈ ps → plate_screen p.2 = Some s) as (ps & Hps & Hall).
  { induction wl as [|item wl IH];
      [exists []; split; [done|by intros ? ?%elem_of_nil]|].
    destruct (Hwl item) as (plate & Hp & Hs); [by left|].
    destruct IH as (ps & Hps & Hall); [intros it Hit; apply Hwl; by right|].
    exists (plate :: ps). split; [rewrite !fmap_cons, Hps; by f_equal|].
    intros p [->|Hin]%elem_of_cons; [done|by apply Hall]. }
  assert (∀ p : PlateObj, p ∈ ps ++ [tp] → plate_screen p.2 = Some s) as Hall'.
  { intros p [Hp|Hp%list_elem_of_singleton]%elem_of_app; [by apply Hall|by subst]. }
  rewrite screen_safety_spec, (proj2 (mapM_id_Some _ _) Hps).
  rewrite decide_True.
  2: { apply screenless_nil. intros p Hp. rewrite (Hall' p Hp). by eexists. }
  rewrite decide_True; [done|].
  apply remove_dups_singleton. exists s. split.
  - intros Hnil. assert (s ∈ screens_of (ps ++ [tp])) as Hin.
    { apply elem_of_screens_of. exists tp. split; [|done].
      apply elem_of_app. right. by left. }
    rewrite Hnil in Hin. by apply elem_of_nil in Hin.
  - intros x (p & Hp & Hx)%elem_of_screens_of. rewrite (Hall' p Hp) in Hx. congruence.
Qed.

(** *** The wells *)

Lemma populate_target_total tid (wl : list WorkItem) well_d st :
  (∀ item : WorkItem, item ∈ wl → is_Some item.1) →
  ∃ r st', populate_target tid wl well_d st = (inr r, st').
Proof.
  intros Hwl. unfold populate_target.
  destruct (for_loop_total (λ _ _, True) wl (populate_item tid)) with
    (acc := (well_d, 0%nat, @nil Loaded)) (st := st) as (r & st' & Hl & _);
    [|done|by eauto].
  intros item acc s [plate Hitem]%Hwl _. unfold populate_item. rewrite Hitem.
  rewrite bind_unfold. simpl.
  destruct (for_loop_total (λ _ _, True) (load_children s plate.1).*1
              (create_if_missing tid plate.2)) with (acc := acc.1) (st := s)
    as (r & s' & Hl & _); [|done|].
  - intros well acc0 s0 _ _.
    destruct (create_if_missing_ok tid plate.2 acc0 well s0) as (acc' & s0' & Hc). by eauto.
  - rewrite bind_unfold, Hl. by eauto.
Qed.

Lemma target_labels_mono tp st st' well_d :
  wells st ⊆ wells st' → target_labels tp st well_d → target_labels tp st' well_d.
Proof.
  intros Hsub Hl key (i & w & Hw & ?)%Hl. exists i, w. split; [|done].
  by eapply lookup_weaken.
Qed.

Lemma index_wells_labels st (tp : PlateObj) : target_labels tp st (index_wells st tp).
Proof.
  intros key [i Hi]. unfold index_wells in Hi.
  apply index_fold_lookup in Hi as [Hi|(w & [Hw Hp]%elem_of_plate_listChildren & Hkey)];
    [done|]. by exists i, w.
Qed.

(** The index of the target as loaded has the label of every well of the
    target. *)
Lemma index_wells_all st (tp : PlateObj) key :
  (∃ i w, wells st !! i = Some w ∧ well_plate w = tp.1 ∧ getWellPos tp.2 w = key) →
  is_Some (index_wells st tp !! key).
Proof.
  intros (i & w & Hw & Hp & <-).
  destruct (plate_listChildren_position st tp.1 i w Hw Hp) as (well & Hwell & Hpos).
  rewrite <-(getWellPos_same_naming tp.2 tp.2 well.2 w) by done.
  by apply index_wells_covers.
Qed.

Lemma create_if_missing_labels (tp : PlateObj) plate acc (well : WellObj) st acc' st' :
  same_naming plate tp.2 →
  target_labels tp st acc.1 →
  create_if_missing tp.1 plate acc well st = (inr acc', st') →
  target_labels tp st' acc'.1 ∧ wells st ⊆ wells st'
  ∧ (∀ key, is_Some (acc.1 !! key) → is_Some (acc'.1 !! key))
  ∧ is_Some (acc'.1 !! getWellPos plate well.2).
Proof.
  intros Hsame Hl. unfold create_if_missing. case_decide as Hpos.
  { by intros [[= ->] ->]%ret_inv. }
  intros (new & s & Hsave & [[= ->] ->]%ret_inv)%bind_ok_inv.
  unfold saveAndReturn_new_well in Hsave. injection Hsave as <- <-. simpl.
  pose proof (fresh_id_wells st) as Hfresh.
  assert (wells st ⊆ <[fresh_id st := mkWell tp.1 (well_row well.2) (well_column well.2)]>
                       (wells st)) as Hins by (by apply insert_subseteq).
  split_and!; [|done| |].
  - intros key Hkey. destruct (decide (getWellPos plate well.2 = key)) as [<-|Hne].
    + exists (fresh_id st), (mkWell tp.1 (well_row well.2) (well_column well.2)).
      simpl. rewrite lookup_insert_eq. split_and!; [done..|].
      symmetry. by apply getWellPos_same_naming.
    + rewrite lookup_insert_ne in Hkey by done.
      destruct (Hl key Hkey) as (i & w & Hw & ?). exists i, w. split; [|done].
      by eapply lookup_weaken.
  - intros key [j Hj]. destruct (decide (getWellPos plate well.2 = key)) as [<-|Hne].
    + rewrite lookup_insert_eq. by eexists.
    + rewrite lookup_insert_ne by done. by eexists.
  - rewrite lookup_insert_eq. by eexists.
Qed.

Lemma create_loop_labels (tp : PlateObj) plate (l : list WellObj) :
  same_naming plate tp.2 →
  ∀ acc st acc' st',
    target_labels tp st acc.1 →
    for_loop l acc (create_if_missing tp.1 plate) st = (inr acc', st') →
    target_labels tp st' acc'.1 ∧ wells st ⊆ wells st'
    ∧ (∀ key, is_Some (acc.1 !! key) → is_Some (acc'.1 !! key))
    ∧ ∀ well : WellObj, well ∈ l → is_Some (acc'.1 !! getWellPos plate well.2).
Proof.
  intros Hsame. induction l as [|well l IH]; intros acc st acc' st' Hl.
  { intros [[= ->] ->]%ret_inv. split_and!; [done..|]. by intros ? ?%elem_of_nil. }
  rewrite for_loop_cons.
  destruct (create_if_missing tp.1 plate acc well st) as [[e|acc1] st1] eqn:Hstep; [done|].
  apply create_if_missing_labels in Hstep as (Hl1 & Hsub1 & Hm1 & Hc1); [|done..].
  intros (Hl' & Hsub' & Hm' & Hc')%IH; [|done]. split_and!.
  - done.
  - by etrans.
  - intros key Hkey. by apply Hm', Hm1.
  - intros w [->|Hw]%elem_of_cons; [by apply Hm'|by apply Hc'].
Qed.

Lemma populate_item_labels (tp : PlateObj) acc (item : WorkItem) st acc' st' :
  (∀ plate : PlateObj, item.1 = Some plate → same_naming plate.2 tp.2) →
  target_labels tp st acc.1.1 → Forall (labels_in acc.1.1) acc.2 →
  populate_item tp.1 acc item st = (inr acc', st') →
  target_labels tp st' acc'.1.1 ∧ Forall (labels_in acc'.1.1) acc'.2.
Proof.
  intros Hsame Hl Hin. unfold populate_item.
  destruct item.1 as [plate|] eqn:Hplate; [|done].
  intros (children & s & [-> ->]%gets_ok_inv & H1)%bind_ok_inv.
  apply bind_ok_inv in H1 as (a1 & s1 & Hcreate & [Heq ->]%ret_inv).
  injection Heq as Heq. subst acc'. simpl.
  apply (create_loop_labels tp) in Hcreate as (Hl1 & _ & Hm1 & Hc1); [|by apply Hsame|done].
  split; [done|]. apply Forall_app. split.
  - eapply Forall_impl; [done|]. intros ld Hld pl Hpl child Hchild.
    by apply Hm1, (Hld pl).
  - apply Forall_singleton. intros pl Hpl child Hchild. simpl in *.
    assert (pl = plate) as -> by congruence.
    apply Hc1. by apply list_elem_of_fmap_2.
Qed.

Lemma populate_loop_labels (tp : PlateObj) (wl : list WorkItem) :
  (∀ (item : WorkItem) (plate : PlateObj),
     item ∈ wl → item.1 = Some plate → same_naming plate.2 tp.2) →
  ∀ acc st acc' st',
    target_labels tp st acc.1.1 → Forall (labels_in acc.1.1) acc.2 →
    for_loop wl acc (populate_item tp.1) st = (inr acc', st') →
    target_labels tp st' acc'.1.1 ∧ Forall (labels_in acc'.1.1) acc'.2.
Proof.
  induction wl as [|item wl IH]; intros Hsame acc st acc' st' Hl Hin.
  { by intros [[= ->] ->]%ret_inv. }
  rewrite for_loop_cons.
  destruct (populate_item tp.1 acc item st) as [[e|acc1] st1] eqn:Hstep; [done|].
  apply populate_item_labels in Hstep as [Hl1 Hin1]; [|by intros; eapply Hsame; [left|]|done..].
  apply IH; [|done..]. intros it pl Hit. apply Hsame. by right.
Qed.

Lemma populate_target_labels (tp : PlateObj) (wl : list WorkItem) st well_d k loaded st' :
  (∀ (item : WorkItem) (plate : PlateObj),
     item ∈ wl → item.1 = Some plate → same_naming plate.2 tp.2) →
  populate_target tp.1 wl (index_wells st tp) st = (inr (well_d, k, loaded), st') →
  target_labels tp st' well_d ∧ Forall (labels_in well_d) loaded.
Proof.
  intros Hsame Hloop. unfold populate_target in Hloop.
  apply (populate_loop_labels tp wl Hsame) in Hloop; [done| |constructor].
  apply index_wells_labels.
Qed.

(** *** The runs *)

Lemma merge_item_total tid (tp : PlateObj) well_d n (item : Loaded) st :
  tp.1 = tid → is_Some (plates st !! tid) → is_Some item.1.1 →
  labels_in well_d item →
  (∀ ws : SampleObj, ws ∈ listed_samples item.2 → is_Some (ws_plateAcquisition ws.2)) →
  ∃ state st', merge_item (tp, well_d, n) item st = (inr state, st').
Proof.
  intros Htp [p Hp] [plate Hitem] Hcov Hall.
  destruct (merge_item (tp, well_d, n) item st) as [[e|state] st'] eqn:Hrun; [|by eauto].
  exfalso. revert Hrun. unfold merge_item. rewrite Hitem.
  intros [Hl|([pending n'] & s2 & Hl & H2)]%bind_err_inv.
  { assert (∀ (child : WellObj * list SampleObj) (acc : Pending * nat) s,
              child ∈ item.2 → s = st →
              match move_well plate.2 item.1.2.1 well_d acc child s with
              | (inl _, _) => False
              | (inr _, s') => s' = st
              end) as Hbody.
    { intros child acc s Hchild ->.
      destruct (move_well plate.2 item.1.2.1 well_d acc child st) as [[e0|acc'] s'] eqn:Hmw;
        [|by apply move_well_store in Hmw].
      revert Hmw. unfold move_well.
      destruct (Hcov plate Hitem child Hchild) as [i ->].
      apply (for_loop_exn (λ _, False)).
      intros ws acc0 s0 e1 s0' Hws.
      unfold move_sample.
      destruct (Hall ws) as [r ->].
      { unfold listed_samples. apply list_elem_of_bind. by exists child. }
      by case_decide. }
    pose proof (for_loop_inv (λ _ s, s = st) (λ _ _, False) _ _ Hbody ([], n) st eq_refl)
      as Hinv.
    by rewrite Hl in Hinv. }
  apply move_well_loop_store in Hl as ->.
  apply bind_err_inv in H2 as [?|([] & s3 & [_ ->]%modify_inv & H3)]; [done|].
  apply bind_err_inv in H3 as [?|([] & s4 & [_ ->]%modify_inv & H4)]; [done|].
  apply bind_err_inv in H4 as [?|(reloaded & s5 & [-> ->]%gets_ok_inv & H5)]; [done|].
  unfold getObject_Plate in H5. simpl in H5. rewrite Htp, Hp in H5. simpl in H5.
  by apply bind_err_inv in H5 as [?|(? & ? & _ & ?)].
Qed.

Lemma merge_loop_total tid (p : Plate) (loaded : list Loaded) well_d0 well_d n st :
  plates st !! tid = Some p →
  target_labels (tid, p) st well_d0 →
  (∀ key, is_Some (well_d0 !! key) → is_Some (well_d !! key)) →
  Forall (λ item, is_Some item.1.1 ∧ labels_in well_d0 item
                  ∧ ∀ ws : SampleObj, ws ∈ listed_samples item.2 →
                      is_Some (ws_plateAcquisition ws.2)) loaded →
  ∃ state st', for_loop loaded ((tid, p), well_d, n) merge_item st = (inr state, st').
Proof.
  intros Hp Hlabels Hkeys Hall. rewrite Forall_forall in Hall.
  destruct (for_loop_total
    (λ (state : MergeState) s,
       state.1.1 = (tid, p) ∧ plates s = plates st ∧ wells s = wells st
       ∧ ∀ key, is_Some (well_d0 !! key) → is_Some (state.1.2 !! key))
    loaded merge_item) with (acc := ((tid, p), well_d, n)) (st := st)
    as (state & st' & Hl & _); [|done|by eauto].
  intros item [[tp0 wd0] n0] s Hitem (Htp0 & Hpl0 & Hw0 & Hk0). simpl in *. subst tp0.
  destruct (Hall item Hitem) as (Hplate & Hlin & Hruns).
  destruct (merge_item_total tid (tid, p) wd0 n0 item s)
    as ([[tp1 wd1] n1] & s1 & Hrun); [done|by rewrite Hpl0, Hp|done| |done|].
  { intros plate Hpl child Hchild. by apply Hk0, (Hlin plate). }
  exists (tp1, wd1, n1), s1. split; [done|].
  assert (getObject_Plate s1 tid = Some tp1 ∧ wd1 = index_wells s1 tp1
          ∧ plates s1 = plates s ∧ wells s1 = wells s) as (Ht1 & Hwd1 & Hp1 & Hw1).
  { revert Hrun. unfold merge_item. destruct item.1.1 as [plate|]; [|done].
    intros ([pending n'] & s2 & Hl & H2)%bind_ok_inv.
    apply move_well_loop_store in Hl as ->.
    apply bind_ok_inv in H2 as ([] & s3 & [_ ->]%modify_inv & H3).
    apply bind_ok_inv in H3 as ([] & s4 & [_ ->]%modify_inv & H4).
    apply bind_ok_inv in H4 as (reloaded & s5 & [-> ->]%gets_ok_inv & H5).
    simpl in H5. destruct (getObject_Plate _ tid) as [tp2|] eqn:Ht; [|done].
    apply bind_ok_inv in H5 as (d & s6 & [-> ->]%gets_ok_inv & [[= -> -> ->] ->]%ret_inv).
    done. }
  apply getObject_Plate_Some in Ht1 as [Htid1 Hrow1].
  assert (tp1 = (tid, p)) as ->.
  { destruct tp1 as [i q]. simpl in *. subst i. rewrite Hp1, Hpl0, Hp in Hrow1.
    by injection Hrow1 as <-. }
  simpl. split_and!; [done|congruence..|].
  intros key Hkey. rewrite Hwd1. apply index_wells_all.
  destruct (Hlabels key Hkey) as (i & w & Hw & ?). exists i, w.
  split; [|done]. by rewrite Hw1, Hw0.
Qed.

(** X10: a merge of plates completes when the target exists and every
    source exists, names its rows and columns as the target does, has no
    two wells at one position and, if it has a run, no sample outside of
    every run; the order is not "Acquisition start time" and, with the
    screen check on, the target and the sources belong to one screen. *)
Theorem plate_merge_completes (st : Store) (tid : Z) (tp : Plate) (srcs : SourceIds)
    (sw : string) (ss : bool) (s : Z) :
  plates st !! tid = Some tp →
  Forall (λ pid, pid ≠ tid →
            named_like st tp pid ∧ unique_positions st pid ∧ foldable st pid)
    (as_list srcs) →
  sw ≠ "Acquisition start time" →
  (ss = true → in_screen st s (tid :: as_list srcs)) →
  ∃ msg tp' st', combine_plates tid srcs "Plate" sw ss st = (inr (msg, tp'), st').
Proof.
  intros Hp Hsrc Hsw Hscreen. rewrite Forall_forall in Hsrc.
  assert (getObject_Plate st tid = Some (tid, tp)) as Ht.
  { unfold getObject_Plate. by rewrite Hp. }
  rewrite (combine_plates_staged _ _ _ _ _ _ _ Ht).
  destruct (resolve_plate_total tid (as_list srcs) st) as (st1 & Hr & Hf).
  { intros i Hi Hne. destruct (Hsrc i Hi Hne) as (Hnamed & _).
    unfold named_like in Hnamed. by destruct (plates st !! i). }
  apply resolve_synthesis in Hr as Hsyn. destruct Hsyn as [Hpl1 Hw1 _ _].
  set (wl0 := expand_plates st1 (set_difference (as_list srcs) tid)) in *.
  assert (∀ item : WorkItem, item ∈ wl0 →
            ∃ plate : PlateObj, item.1 = Some plate
              ∧ plates st !! plate.1 = Some plate.2
              ∧ plate.1 ∈ as_list srcs ∧ plate.1 ≠ tid
              ∧ same_naming plate.2 tp
              ∧ all_have_run st1 plate.1) as Hwl0.
  { intros item (plate & run & -> & [Hplate Hin]%elem_of_getObjects_Plate & Hrun)
             %elem_of_expand_plates.
    apply elem_of_set_difference in Hin as [Hin Hne].
    destruct (Hsrc plate.1 Hin Hne) as (Hnamed & Huniq & Hfold).
    exists plate. split_and!; [done|by rewrite <-Hpl1|done..| |].
    - unfold named_like in Hnamed. rewrite <-Hpl1, Hplate in Hnamed. done.
    - apply Hf; [done..|]. intros Hz%nil_length_inv.
      rewrite Hz in Hrun. by apply elem_of_nil in Hrun. }
  destruct (order_runs_total sw wl0 st1) as (wl & Ho); [done| |].
  { intros item (plate & -> & _)%Hwl0. by eexists. }
  apply order_runs_perm in Ho as Hperm.
  assert (∀ item : WorkItem, item ∈ wl →
            ∃ plate : PlateObj, item.1 = Some plate
              ∧ plates st !! plate.1 = Some plate.2
              ∧ plate.1 ∈ as_list srcs ∧ plate.1 ≠ tid
              ∧ same_naming plate.2 tp
              ∧ all_have_run st1 plate.1) as Hwl.
  { intros item Hitem. apply Hwl0. by rewrite <-Hperm. }
  rewrite bind_unfold, Hr. rewrite bind_unfold, Ho. rewrite bind_unfold.
  assert ((if ss then screen_safety wl (tid, tp) else ret ()) st1 = (inr (), st1)) as ->.
  { destruct ss; [|done]. specialize (Hscreen eq_refl).
    unfold in_screen in Hscreen. rewrite Forall_forall in Hscreen.
    apply screen_safety_total with s.
    - specialize (Hscreen tid (list_elem_of_here _ _)). rewrite Hp in Hscreen.
      simpl in *. congruence.
    - intros item (plate & Hitem & Hplate & Hin & _)%Hwl. exists plate. split; [done|].
      specialize (Hscreen plate.1 (list_elem_of_further _ _ _ Hin)).
      rewrite Hplate in Hscreen. simpl in *. congruence. }
  unfold merge_runs. rewrite bind_unfold. simpl. rewrite bind_unfold.
  destruct (populate_target_total tid wl (index_wells st1 (tid, tp)) st1)
    as ([[well_d k] loaded] & st2 & Hpop).
  { intros item (plate & -> & _)%Hwl. by eexists. }
  rewrite Hpop.
  apply (populate_target_inv st1 (tid, tp)) in Hpop as Hinv.
  destruct Hinv as (Hpopd & _ & _ & Hloaded & Hfst).
  apply (populate_target_labels (tid, tp)) in Hpop as [Hlabels Hlin].
  2: { intros item plate Hitem Hplate.
       destruct (Hwl item Hitem) as (plate' & Hplate' & _ & _ & _ & Hsame & _).
       assert (plate' = plate) as -> by congruence. done. }
  destruct (merge_loop_total tid tp loaded well_d well_d 0 st2)
    as ([[tp' wd'] n] & st' & Hloop); [|done|done| |].
  { by rewrite (pop_plates _ _ _ Hpopd), Hpl1. }
  { apply Forall_forall. intros ld Hld. rewrite Forall_forall in Hloaded, Hlin.
    assert (ld.1 ∈ wl) as Hitem by (rewrite <-Hfst; by apply list_elem_of_fmap_2).
    destruct (Hwl ld.1 Hitem) as (plate & Hplate & _ & _ & _ & _ & Hall).
    split_and!; [by rewrite Hplate|by apply Hlin|].
    destruct (Hloaded ld Hld) as (plate' & s0 & Hplate' & Hpop0 & Hchildren).
    assert (plate' = plate) as -> by congruence.
    intros ws Hws. rewrite Hchildren in Hws.
    apply listed_samples_in_plate in Hws as [Hs Hin].
    rewrite (pop_samples _ _ _ Hpop0) in Hs.
    apply (Hall ws.1 ws.2 Hs).
    by apply (populated_in_plate _ _ _ plate.1 ws.1 ws.2 Hpop0 Hs). }
  rewrite bind_unfold, Hloop. by eexists _, _, _.
Qed.

Lemma plate_merge_completes_witness :
  ∃ msg tp' st',
    combine_plates 1 (IdList [2]) "Plate" "Acquisition name" true Scenario.st0
    = (inr (msg, tp'), st').
Proof.
  apply (plate_merge_completes Scenario.st0 1 (mkPlate "P1" (Some 7) None None)
           (IdList [2]) "Acquisition name" true 7).
  - vm_compute. reflexivity.
  - apply Forall_singleton. intros _. split_and!.
    + apply (bool_decide_unpack _). vm_compute. exact I.
    + apply all_unique_positions, (bool_decide_unpack _). vm_compute. exact I.
    + apply (bool_decide_unpack _). vm_compute. exact I.
  - apply (bool_decide_unpack _). vm_compute. exact I.
  - intros _. apply (bool_decide_unpack _). vm_compute. exact I.
Defined.

(** ** Runs that are on the target already *)

Lemma run_eta (run : PlateAcquisition) tid :
  run_plate run = tid → mkRun (run_name run) tid (run_startTime run) = run.
Proof. destruct run. simpl. by intros ->. Qed.

Lemma store_eq (st st' : Store) :
  plates st' = plates st → wells st' = wells st → samples st' = samples st →
  runs st' = runs st → st' = st.
Proof. destruct st, st'. simpl. by intros -> -> -> ->. Qed.

Lemma NoDup_well_labels st plate : NoDup (well_labels st plate) → unique_labels st plate.
Proof.
  intros Hnd i j wi wj Hi Hj Hpi Hpj Hlabel.
  assert ((i, wi) ∈ wells_of_plate st plate.1) as Hin1 by (by apply elem_of_wells_of_plate).
  assert ((j, wj) ∈ wells_of_plate st plate.1) as Hin2 by (by apply elem_of_wells_of_plate).
  apply list_elem_of_lookup_1 in Hin1 as [a Ha], Hin2 as [b Hb].
  assert (a = b) as ->; [|congruence].
  eapply NoDup_lookup; [exact Hnd| |]; unfold well_labels; rewrite list_lookup_fmap;
    [rewrite Ha|rewrite Hb]; simpl; [done|]. by rewrite Hlabel.
Qed.

Lemma unique_labels_positions st plate : unique_labels st plate → unique_positions st plate.1.
Proof.
  intros Hl i j wi wj Hi Hj Hpi Hpj Hpos. apply (Hl i j wi wj); [done..|].
  by apply getWellPos_same_naming.
Qed.

(** With labels that differ, the index finds each well of the plate under
    its label. *)
Lemma index_wells_unique st (plate : PlateObj) i w :
  unique_labels st plate → wells st !! i = Some w → well_plate w = plate.1 →
  index_wells st plate !! getWellPos plate.2 w = Some i.
Proof.
  intros Hl Hw Hp.
  destruct (index_wells_covers st plate (i, w)) as [j Hj].
  { apply plate_listChildren_all; [by apply unique_labels_positions|done..]. }
  simpl in Hj. rewrite Hj. f_equal. unfold index_wells in Hj.
  apply index_fold_lookup in Hj as [?|(w' & [Hw' Hp']%elem_of_plate_listChildren & Hlabel)];
    [done|]. by apply (Hl j i w' w).
Qed.

Lemma merge_item_target (tp : PlateObj) well_d n (item : Loaded) st
    (tp' : PlateObj) well_d' n' st' :
  merge_item (tp, well_d, n) item st = (inr (tp', well_d', n'), st') →
  getObject_Plate st' tp.1 = Some tp'.
Proof.
  unfold merge_item. destruct item.1.1 as [plate|]; [|done].
  intros ([pending n1] & s1 & Hloop & H2)%bind_ok_inv.
  apply move_well_loop_store in Hloop as ->.
  apply bind_ok_inv in H2 as ([] & s2 & [_ ->]%modify_inv & H3).
  apply bind_ok_inv in H3 as ([] & s3 & [_ ->]%modify_inv & H4).
  apply bind_ok_inv in H4 as (reloaded & s4 & [-> ->]%gets_ok_inv & H5).
  destruct (getObject_Plate _ tp.1) as [tp2|] eqn:Ht; [|done].
  by apply bind_ok_inv in H5 as (d & s5 & [-> ->]%gets_ok_inv & [[= -> -> ->] ->]%ret_inv).
Qed.

(** Nothing is created for the target itself. *)
Lemma populate_target_present (tp : PlateObj) (wl : list WorkItem) st r st' :
  unique_positions st tp.1 →
  (∀ item : WorkItem, item ∈ wl → item.1 = Some tp) →
  populate_target tp.1 wl (index_wells st tp) st = (r, st') →
  st' = st
  ∧ ∀ acc, r = inr acc →
      acc.1 = (index_wells st tp, 0%nat)
      ∧ ∀ item : Loaded, item ∈ acc.2 →
          item.1 ∈ wl ∧ item.2 = load_children st tp.1.
Proof.
  intros Huniq Hwl Hrun. unfold populate_target in Hrun.
  set (I := λ (acc : gmap string Z * nat * list Loaded) (s : Store),
         s = st ∧ acc.1 = (index_wells st tp, 0%nat)
         ∧ ∀ item : Loaded, item ∈ acc.2 →
             item.1 ∈ wl ∧ item.2 = load_children st tp.1).
  assert (∀ (well : WellObj) (acc : gmap string Z * nat) s,
            well ∈ (load_children st tp.1).*1 →
            acc = (index_wells st tp, 0%nat) ∧ s = st →
            match create_if_missing tp.1 tp.2 acc well s with
            | (inl _, s') => s' = st
            | (inr acc', s') => acc' = (index_wells st tp, 0%nat) ∧ s' = st
            end) as Hwell.
  { intros well acc s (child & -> & [Hin _]%elem_of_load_children)%list_elem_of_fmap [-> ->].
    unfold create_if_missing. rewrite decide_True; [done|]. simpl.
    by apply index_wells_covers. }
  assert (∀ (item : WorkItem) acc s, item ∈ wl → I acc s →
            match populate_item tp.1 acc item s with
            | (inl _, s') => s' = st
            | (inr acc', s') => I acc' s'
            end) as Hitem.
  { intros item acc s Hin (-> & Hacc & Hloaded). unfold populate_item.
    rewrite (Hwl item Hin). rewrite bind_unfold. simpl. rewrite bind_unfold.
    pose proof (for_loop_inv (λ acc s, acc = (index_wells st tp, 0%nat) ∧ s = st)
             (λ _ s, s = st) _ _ Hwell acc.1 st (conj Hacc eq_refl)) as Hinv.
    destruct (for_loop _ acc.1 _ st) as [[e|acc1] s1]; [done|].
    destruct Hinv as [-> ->]. split_and!; [done..|]. simpl.
    intros ld [Hld| ->%list_elem_of_singleton]%elem_of_app; [by apply Hloaded|done]. }
  pose proof (for_loop_inv I (λ _ s, s = st) _ _ Hitem (index_wells st tp, 0%nat, []) st)
    as Hinv.
  rewrite Hrun in Hinv. destruct r as [e|acc].
  - split; [|by intros acc]. apply Hinv. split_and!; [done..|]. by intros ? ?%elem_of_nil.
  - destruct Hinv as (-> & Hacc & Hloaded).
    { split_and!; [done..|]. by intros ? ?%elem_of_nil. }
    split; [done|]. by intros acc' [= <-].
Qed.

Lemma save_wells_same (pending : Pending) (m : gmap Z WellSample) :
  (∀ mv : SampleObj * Z, mv ∈ pending → m !! mv.1.1 = Some mv.1.2 ∧ mv.2 = ws_well mv.1.2) →
  foldl setWell m pending = m.
Proof.
  induction pending as [|mv pending IH]; intros Hall; [done|]. simpl.
  destruct (Hall mv) as [Hm Hw]; [by left|].
  assert (setWell m mv = m) as ->.
  { unfold setWell. rewrite Hw. destruct mv as [[i x] tw]. simpl in *.
    destruct x. simpl. by apply insert_id. }
  apply IH. intros mv' Hin. apply Hall. by right.
Qed.

(** Folding a run that is on the target, with the index of the target,
    writes what is there. *)
Lemma merge_item_on_target (tp : PlateObj) n (item : Loaded) st state st' :
  unique_labels st tp → plates st !! tp.1 = Some tp.2 →
  item.1.1 = Some tp → item.2 = load_children st tp.1 →
  runs st !! item.1.2.1 = Some item.1.2.2 → run_plate item.1.2.2 = tp.1 →
  merge_item (tp, index_wells st tp, n) item st = (inr state, st') →
  st' = st ∧ state.1.1 = tp ∧ state.1.2 = index_wells st tp.
Proof.
  intros Huniq Hrow Hitem Hchildren Hrun Hplate Hstep. destruct state as [[tp' wd'] n'].
  destruct (merge_item_ok tp.1 _ _ _ _ _ _ _ _ _ eq_refl Hstep)
    as (plate & Hp & _ & Hpl & Hw & Hs & Hruns & Htp' & Hwd' & _).
  assert (plate = tp) as -> by congruence.
  rewrite (run_eta _ _ Hplate), insert_id in Hruns by done.
  assert (samples st' = samples st) as Hsam.
  { rewrite Hs. apply save_wells_same. intros [ws tw] Hmv. simpl.
    unfold run_moves in Hmv. apply list_elem_of_bind in Hmv as (child & Hmv & Hchild).
    rewrite Hchildren in Hchild. apply elem_of_load_children in Hchild as [Hlisted Hwss].
    apply elem_of_plate_listChildren in Hlisted as [Hwell Hwp].
    rewrite (index_wells_unique st tp child.1.1 child.1.2 Huniq Hwell Hwp) in Hmv.
    apply list_elem_of_fmap in Hmv as (ws' & [= -> ->] & [_ Hin]%list_elem_of_filter).
    rewrite Hwss in Hin. by apply elem_of_well_listChildren in Hin as [? ->]. }
  assert (st' = st) as -> by by apply store_eq.
  apply (merge_item_target tp) in Hstep.
  apply getObject_Plate_Some in Hstep as [Hid Hrow'].
  assert (tp' = tp) as ->.
  { destruct tp', tp. simpl in *. congruence. }
  by rewrite Hwd'.
Qed.

Lemma merge_loop_on_target (tp : PlateObj) (loaded : list Loaded) n st r st' :
  unique_labels st tp → plates st !! tp.1 = Some tp.2 →
  (∀ item : Loaded, item ∈ loaded →
     item.1.1 = Some tp ∧ item.2 = load_children st tp.1
     ∧ runs st !! item.1.2.1 = Some item.1.2.2 ∧ run_plate item.1.2.2 = tp.1) →
  for_loop loaded (tp, index_wells st tp, n) merge_item st = (r, st') → st' = st.
Proof.
  intros Huniq Hrow Hwl Hloop.
  assert (∀ item (state : MergeState) s, item ∈ loaded →
            s = st ∧ state.1.1 = tp ∧ state.1.2 = index_wells st tp →
            match merge_item state item s with
            | (inl _, s') => s' = st
            | (inr state', s') =>
                s' = st ∧ state'.1.1 = tp ∧ state'.1.2 = index_wells st tp
            end) as Hbody.
  { intros item [[tp0 wd0] n0] s Hitem (-> & Htp0 & Hwd0). simpl in Htp0, Hwd0. subst.
    destruct (Hwl item Hitem) as (Hplate & Hchildren & Hrun & Hrp).
    destruct (merge_item (tp, index_wells st tp, n0) item st) as [[e|state] s1] eqn:Hstep.
    - apply merge_item_raises in Hstep; [done|]. by rewrite Hrow.
    - by apply merge_item_on_target in Hstep. }
  pose proof (for_loop_inv
    (λ (state : MergeState) s, s = st ∧ state.1.1 = tp ∧ state.1.2 = index_wells st tp)
    (λ _ s, s = st) loaded merge_item Hbody (tp, index_wells st tp, n) st
    (conj eq_refl (conj eq_refl eq_refl))) as Hinv.
  rewrite Hloop in Hinv. destruct r; [done|]. by destruct Hinv.
Qed.

(** X11: merging runs that are on the target already changes nothing in
    the store, whatever the outcome of the call: no well is created, and
    each sample of such a run is written back with the well it is in.  The
    labels of the wells of the target are taken to be distinct. *)
Theorem remerging_target_runs_changes_nothing (st : Store) (tid : Z) (tp : Plate)
    (srcs : SourceIds) (stype sw : string) (ss : bool) :
  stype ≠ "Plate" → plates st !! tid = Some tp → unique_labels st (tid, tp) →
  (∀ rid run, rid ∈ as_list srcs → runs st !! rid = Some run → run_plate run = tid) →
  (combine_plates tid srcs stype sw ss st).2 = st.
Proof.
  intros Hstype Htp Huniq Hsrc.
  assert (getObject_Plate st tid = Some (tid, tp)) as Ht.
  { unfold getObject_Plate. by rewrite Htp. }
  rewrite (combine_plates_staged _ _ _ _ _ _ _ Ht).
  match goal with |- (?m st).2 = st => destruct (m st) as [r st'] eqn:Hrun end.
  simpl.
  apply bind_inv in Hrun as [(e & Hr & _)|(wl0 & st1 & Hr & H1)].
  { unfold resolve in Hr. rewrite decide_False in Hr by done. unfold gets in Hr. done. }
  unfold resolve in Hr. rewrite decide_False in Hr by done.
  apply gets_ok_inv in Hr as [-> ->].
  assert (∀ item : WorkItem, item ∈ expand_runs st (as_list srcs) →
            item.1 = Some (tid, tp)
            ∧ runs st !! item.2.1 = Some item.2.2 ∧ run_plate item.2.2 = tid) as Hwl0.
  { unfold expand_runs, getObjects_PlateAcquisition.
    intros item ([rid run] & -> & [Hin Hrun%elem_of_map_to_list]%list_elem_of_filter)
                %list_elem_of_fmap.
    simpl in *. pose proof (Hsrc rid run Hin Hrun) as Hrp. split_and!; [|done..].
    by rewrite Hrp. }
  apply bind_inv in H1 as [(e & Ho & _)|(wl & st2 & Ho & H2)].
  { by apply order_runs_store in Ho. }
  apply order_runs_store in Ho as Hst. subst st2.
  apply order_runs_perm in Ho as Hperm.
  apply bind_inv in H2 as [(e & Hs & _)|([] & st2 & Hs & H3)].
  { destruct ss; [by apply screen_safety_store in Hs|by apply ret_inv in Hs as [? _]]. }
  assert (st2 = st) as ->.
  { destruct ss; [by apply screen_safety_store in Hs|by apply ret_inv in Hs as [_ ->]]. }
  unfold merge_runs in H3.
  apply bind_inv in H3 as [(e & Hg & _)|(d0 & s0 & [-> ->]%gets_ok_inv & H4)]; [done|].
  assert (∀ item : WorkItem, item ∈ wl → item.1 = Some (tid, tp)) as Hplates.
  { intros item Hitem. apply Hwl0. by rewrite <-Hperm. }
  pose proof (unique_labels_positions _ _ Huniq) as Hpos.
  apply bind_inv in H4 as [(e & Hp & _)|([[well_d k] loaded] & st3 & Hp & H5)].
  { by apply (populate_target_present (tid, tp)) in Hp as [-> _]. }
  apply (populate_target_present (tid, tp)) in Hp as [-> Hacc]; [|done..].
  destruct (Hacc _ eq_refl) as [[= -> ->] Hloaded]. simpl in Hloaded.
  assert (∀ r0 s0, for_loop loaded ((tid, tp), index_wells st (tid, tp), 0%nat)
                     merge_item st = (r0, s0) → s0 = st) as Hloop.
  { intros r0 s0. apply merge_loop_on_target; [done..|].
    intros item Hitem. destruct (Hloaded item Hitem) as [Hin Hchildren].
    destruct (Hwl0 item.1) as (? & ? & ?); [by rewrite <-Hperm|]. by split_and!. }
  apply bind_inv in H5 as [(e & Hl & _)|([[tp2 wd] n] & st3 & Hl & [_ ->]%ret_inv)];
    by apply Hloop in Hl.
Qed.

Lemma remerging_target_runs_witness :
  unique_labels Scenario.st0 (2, mkPlate "P2" (Some 7) None None)
  ∧ (combine_plates 2 (IdList [5]) "Acquisition" "Acquisition name" true Scenario.st0).2
    = Scenario.st0.
Proof.
  assert (unique_labels Scenario.st0 (2, mkPlate "P2" (Some 7) None None)) as Huniq.
  { apply NoDup_well_labels, (bool_decide_unpack _). vm_compute. exact I. }
  split; [exact Huniq|].
  apply (remerging_target_runs_changes_nothing Scenario.st0 2
           (mkPlate "P2" (Some 7) None None) (IdList [5])
           "Acquisition" "Acquisition name" true).
  - apply (bool_decide_unpack _). vm_compute. exact I.
  - vm_compute. reflexivity.
  - exact Huniq.
  - simpl. intros rid run ->%list_elem_of_singleton Hrun.
    vm_compute in Hrun. by injection Hrun as <-.
Defined.

(** ** [run_script] *)

Lemma screen_safety_ok_inv (wl : list WorkItem) (tp : PlateObj) st st' :
  screen_safety wl tp st = (inr (), st') →
  ∃ s, plate_screen tp.2 = Some s
    ∧ ∀ item : WorkItem, item ∈ wl →
        ∃ plate : PlateObj, item.1 = Some plate ∧ plate_screen plate.2 = Some s.
Proof.
  rewrite screen_safety_spec.
  destruct (mapM id wl.*1) as [ps|] eqn:Hps; [|done].
  apply mapM_id_Some in Hps.
  case_decide as Hless; [|done]. case_decide as Hlen; [|done]. intros _.
  rewrite screenless_nil in Hless.
  apply remove_dups_singleton in Hlen as (s & _ & Hs).
  assert (∀ p : PlateObj, p ∈ ps ++ [tp] → plate_screen p.2 = Some s) as Hall.
  { intros p Hp. destruct (Hless p Hp) as [s' Hs']. rewrite Hs'. f_equal.
    apply Hs, elem_of_screens_of. by exists p. }
  exists s. split.
  - apply Hall, elem_of_app. right. by left.
  - intros item Hitem.
    assert (item.1 ∈ Some <$> ps) as (plate & Hplate & Hin)%list_elem_of_fmap.
    { rewrite <-Hps. by apply list_elem_of_fmap_2. }
    exists plate. split; [done|]. apply Hall, elem_of_app. by left.
Qed.

(** A completed merge with the screen check on has passed the check. *)
Lemma combine_plates_checked st tid srcs stype sw msg (tp' : PlateObj) st' :
  combine_plates tid srcs stype sw true st = (inr (msg, tp'), st') →
  ∃ (tp : PlateObj) wl0 st1 wl,
    getObject_Plate st tid = Some tp
    ∧ resolve tid (as_list srcs) stype st = (inr wl0, st1)
    ∧ order_runs sw wl0 st1 = (inr wl, st1)
    ∧ screen_safety wl tp st1 = (inr (), st1).
Proof.
  destruct (getObject_Plate st tid) as [tp|] eqn:Ht;
    [|by rewrite combine_plates_no_target].
  rewrite (combine_plates_staged _ _ _ _ _ _ _ Ht).
  intros (wl0 & st1 & Hr & H1)%bind_ok_inv.
  apply bind_ok_inv in H1 as (wl & st1' & Ho & H2).
  pose proof (order_runs_store _ _ _ _ _ Ho) as ->.
  apply bind_ok_inv in H2 as ([] & st1' & Hs & H3).
  apply screen_safety_store in Hs as Hst. subst st1'.
  by exists tp, wl0, st1, wl.
Qed.

(** X12: [run_script] cannot switch the screen check off: a merge started
    through it completes only if the target and the plate of every run of
    the work list belong to one and the same screen. *)
Theorem script_merges_within_one_screen (target : Z) (ids : list Z)
    (dtype sorting : string) (st : Store) (msg : string) (robj : PlateObj) (st' : Store) :
  run_script target ids dtype sorting st = (inr (msg, robj), st') →
  ∃ wl st1 s,
    resolve target ids dtype st = (inr wl, st1)
    ∧ plate_screen <$> plates st !! target = Some (Some s)
    ∧ ∀ item : WorkItem, item ∈ wl →
        ∃ plate : PlateObj, item.1 = Some plate ∧ plate_screen plate.2 = Some s.
Proof.
  unfold run_script.
  intros (tp & wl0 & st1 & wl & Ht & Hr & Ho & Hs)%combine_plates_checked.
  apply screen_safety_ok_inv in Hs as (s & Hts & Hwl).
  apply order_runs_perm in Ho as Hperm.
  apply getObject_Plate_Some in Ht as [Htid Htp].
  exists wl0, st1, s. split_and!; [done| |].
  - by rewrite Htp; simpl; rewrite Hts.
  - intros item Hitem. apply Hwl. by rewrite Hperm.
Qed.

Lemma script_merges_within_one_screen_witness :
  ∃ wl st1 s,
    resolve 1 [2] "Plate" Scenario.st0 = (inr wl, st1)
    ∧ plate_screen <$> plates Scenario.st0 !! 1 = Some (Some s)
    ∧ ∀ item : WorkItem, item ∈ wl →
        ∃ plate : PlateObj, item.1 = Some plate ∧ plate_screen plate.2 = Some s.
Proof.
  apply (script_merges_within_one_screen 1 [2] "Plate" "Acquisition name" Scenario.st0
           "3 Images from 1 Runs merged into Plate:1. 1 Wells created."
           (1, mkPlate "P1" (Some 7) None None)
           (run_script 1 [2] "Plate" "Acquisition name" Scenario.st0).2).
  vm_compute. reflexivity.
Defined.

(** *** The session *)

(** The plate a completed merge returns is the target, as the store has
    it then. *)
Lemma combine_plates_result st tid srcs stype sw ss msg (tp' : PlateObj) st' :
  combine_plates tid srcs stype sw ss st = (inr (msg, tp'), st') →
  getObject_Plate st' tid = Some tp'.
Proof.
  intros (tp & wl0 & st1 & wl & well_d & k & loaded & st2 & wd' & n
          & Ht & Hr & Ho & Hp & Hl & ->)%combine_plates_ok_inv.
  apply resolve_synthesis in Hr as [Hpl1 _ _ _].
  apply populate_target_store in Hp as (Hpl2 & _).
  apply getObject_Plate_Some in Ht as Htp. destruct Htp as [Htid _].
  assert (getObject_Plate st2 tid = Some tp) as Ht2.
  { unfold getObject_Plate in *. by rewrite Hpl2, Hpl1. }
  revert Hl. generalize 0%nat.
  intros n0 Hl.
  apply (for_loop_ok (λ (state : MergeState) s,
            state.1.1.1 = tid ∧ getObject_Plate s tid = Some state.1.1) loaded merge_item)
    in Hl as [_ Hres]; [done| |done].
  intros item [[tp0 wd0] n1] s [[tp1 wd1] n2] s' _ [Htp0 _] Hstep. simpl in *.
  destruct (merge_item_ok tid _ _ _ _ _ _ _ _ _ Htp0 Hstep)
    as (_ & _ & _ & _ & _ & _ & _ & Htp1 & _).
  apply merge_item_target in Hstep. rewrite Htp0 in Hstep. done.
Qed.

(** X13: what the client is told.  The session is closed in every case.
    When the merge completes, "Message" and "Result" are set, the result
    being the target plate.  A failed assertion is reported as "ERROR" with
    its message, and then at most synthesized runs have been saved.  Any
    other exception (a missing parameter, a source plate that does not
    exist, a sample without a run) sets no output at all; a missing
    parameter stops the script before the store is touched. *)
Theorem session_outcome (client : Client) (st : Store) :
  let '(r, client', st') := run_script_session client st in
  client_session_open client' = false
  ∧ client_params client' = client_params client
  ∧ match r with
    | None =>
        ∃ msg (robj : PlateObj),
          client_outputs client'
          = <["Result" := robject robj]>
              (<["Message" := rstring msg]> (client_outputs client))
          ∧ params_target (client_params client) = Some robj.1
          ∧ plates st' !! robj.1 = Some robj.2
    | Some (Raised (AssertionError err)) =>
        client_outputs client' = <["ERROR" := rstring err]> (client_outputs client)
        ∧ synthesis_only st st'
    | Some (Raised _) => client_outputs client' = client_outputs client
    | Some (ParamKeyError k) =>
        client_outputs client' = client_outputs client ∧ st' = st
        ∧ k ∈ [P_DTYPE; P_IDS; P_TARGET_PLATE_ID; P_SORTING]
    end.
Proof.
  unfold run_script_session, run_script_try, read_params, getitem.
  destruct client as [[dtype ids target sorting] outputs open]. simpl.
  destruct dtype as [dtype|]; [|split_and!; set_solver].
  destruct ids as [ids|]; [|split_and!; set_solver].
  destruct target as [target|]; [|split_and!; set_solver].
  destruct sorting as [sorting|]; [|split_and!; set_solver].
  destruct (run_script target ids dtype sorting st) as [[e|[msg robj]] st'] eqn:Hrun.
  - destruct e as [err| |]; simpl; split_and!; try done.
    unfold run_script in Hrun.
    apply combine_plates_assertion_store in Hrun as [->|(wl & Hr)];
      [apply synthesis_only_refl|by eapply resolve_synthesis].
  - simpl. split_and!; [done..|]. exists msg, robj. split; [done|].
    unfold run_script in Hrun. apply combine_plates_result in Hrun.
    apply getObject_Plate_Some in Hrun as [-> ?]. done.
Qed.

(** ** The assertions *)

Lemma sorted_not_assertion {K A} (ltb : K → K → bool) (key : A → exn + K) l st e st' :
  (∀ x e, key x = inl e → ¬ is_assertion e) →
  sorted ltb key l st = (inl e, st') → ¬ is_assertion e.
Proof.
  intros Hkey. unfold sorted. destruct (keys_of key l) as [e0|keys] eqn:Hk; [|done].
  intros [-> _]%raise_err_inv. apply keys_of_raises in Hk as (x & _ & Hx). by eapply Hkey.
Qed.

(** The only assertion of the ordering is the one of line 94. *)
Lemma order_runs_assertion sort_way (wl : list WorkItem) st msg st' :
  order_runs sort_way wl st = (inl (AssertionError msg), st') →
  msg = msg_no_start_time ∧ sort_way = "Acquisition start time"
  ∧ ∃ item : WorkItem, item ∈ wl ∧ run_startTime item.2.2 = None.
Proof.
  unfold order_runs. case_decide; [|case_decide; [|case_decide]].
  - intros Hs. apply sorted_not_assertion in Hs; [exfalso; apply Hs; exact I|].
    intros x e0. unfold key_plate_run_name. destruct x.1; [done|].
    intros [= <-]. cbn. tauto.
  - intros Hs. apply sorted_not_assertion in Hs; [exfalso; apply Hs; exact I|].
    by intros x e0.
  - intros [Ha|([] & s & _ & Hs)]%bind_err_inv.
    + unfold assert in Ha. case_bool_decide as Hnone; [done|].
      apply raise_err_inv in Ha as [[= ->] _]. split_and!; [done..|].
      apply list_elem_of_fmap in Hnone as (item & Hitem & Hin). by exists item.
    + apply sorted_not_assertion in Hs; [exfalso; apply Hs; exact I|].
      intros x e0 [= <-]. cbn. tauto.
  - done.
Qed.

(** The two assertions of the screen check, lines 111 and 112. *)
Lemma screen_safety_assertion (wl : list WorkItem) (tp : PlateObj) st msg st' :
  screen_safety wl tp st = (inl (AssertionError msg), st') →
  (∃ ids, ids ≠ [] ∧ msg = msg_not_in_screen ids)
  ∨ (∃ screen_l, (2 ≤ length screen_l)%nat ∧ NoDup screen_l
       ∧ msg = msg_different_screens screen_l).
Proof.
  rewrite screen_safety_spec. destruct (mapM id wl.*1) as [ps|]; [|done].
  case_decide as Hless.
  - case_decide as Hlen; [done|]. intros [= <- _]. right.
    eexists. split_and!; [|apply NoDup_remove_dups|done].
    assert (remove_dups (screens_of (ps ++ [tp])) ≠ []) as Hne.
    { rewrite screenless_nil in Hless. destruct (Hless tp) as [s Hs].
      { apply elem_of_app. right. by left. }
      assert (s ∈ remove_dups (screens_of (ps ++ [tp]))) as Hin.
      { apply elem_of_remove_dups, elem_of_screens_of. exists tp. split; [|done].
        apply elem_of_app. right. by left. }
      intros Hnil. rewrite Hnil in Hin. by apply elem_of_nil in Hin. }
    destruct (remove_dups (screens_of (ps ++ [tp]))) as [|a [|b l]]; simpl in *;
      [done|done|lia].
  - intros [= <- _]. left. by eexists.
Qed.

(** X14: the assertions a call can fail on are the three of the source,
    each with its message: the target does not exist (line 59); the order is
    "Acquisition start time" and a run of the work list has no start time
    (line 94); with the screen check on, a plate without screen (line 111)
    or, all plates having one, at least two different screens (line 112). *)
Theorem assertion_failures_are_the_three_checks (st : Store) (tid : Z) (srcs : SourceIds)
    (stype sw : string) (ss : bool) (msg : string) (st' : Store) :
  combine_plates tid srcs stype sw ss st = (inl (AssertionError msg), st') →
  (plates st !! tid = None ∧ msg = msg_target_not_found)
  ∨ (sw = "Acquisition start time" ∧ msg = msg_no_start_time
     ∧ ∃ wl st1 (item : WorkItem),
         resolve tid (as_list srcs) stype st = (inr wl, st1)
         ∧ item ∈ wl ∧ run_startTime item.2.2 = None)
  ∨ (ss = true ∧ ∃ ids, ids ≠ [] ∧ msg = msg_not_in_screen ids)
  ∨ (ss = true ∧ ∃ screen_l, (2 ≤ length screen_l)%nat ∧ NoDup screen_l
       ∧ msg = msg_different_screens screen_l).
Proof.
  destruct (getObject_Plate st tid) as [tp|] eqn:Ht.
  2: { rewrite combine_plates_no_target by done. intros [= <- _]. left.
       by apply getObject_Plate_None in Ht. }
  rewrite (combine_plates_staged _ _ _ _ _ _ _ Ht).
  intros [Hr|(wl0 & st1 & Hr & H1)]%bind_err_inv.
  { by apply resolve_exn in Hr. }
  apply bind_err_inv in H1 as [Ho|(wl & st2 & Ho & H2)].
  { apply order_runs_store in Ho as Hst. subst st'.
    apply order_runs_assertion in Ho as (-> & -> & item & Hitem & Hnone).
    right. left. split_and!; [done..|]. by exists wl0, st1, item. }
  apply bind_err_inv in H2 as [Hs|([] & st3 & Hs & H3)].
  { destruct ss; [|by apply ret_inv in Hs as [? _]].
    apply screen_safety_assertion in Hs as [Hids|Hscr]; right; right; [left|right]; done. }
  by apply merge_runs_exn in H3.
Qed.

Lemma assertion_failures_witness :
  (plates TwoScreens.st0 !! 1 = None
   ∧ msg_different_screens [8; 7] = msg_target_not_found)
  ∨ ("Acquisition name" = "Acquisition start time"
     ∧ msg_different_screens [8; 7] = msg_no_start_time
     ∧ ∃ wl st1 (item : WorkItem),
         resolve 1 [2] "Plate" TwoScreens.st0 = (inr wl, st1)
         ∧ item ∈ wl ∧ run_startTime item.2.2 = None)
  ∨ (true = true ∧ ∃ ids, ids ≠ [] ∧ msg_different_screens [8; 7] = msg_not_in_screen ids)
  ∨ (true = true ∧ ∃ screen_l, (2 ≤ length screen_l)%nat ∧ NoDup screen_l
       ∧ msg_different_screens [8; 7] = msg_different_screens screen_l).
Proof.
  apply (assertion_failures_are_the_three_checks TwoScreens.st0 1 (IdList [2]) "Plate"
           "Acquisition name" true (msg_different_screens [8; 7])
           (combine_plates 1 (IdList [2]) "Plate" "Acquisition name" true
              TwoScreens.st0).2).
  vm_compute. reflexivity.
Defined.

(** ** The claims on the worked stores *)

(** The scenario of the specification: one well is created, the three
    samples of "R1" move, and the run is reassigned. *)
Example scenario_merge :
  let out := combine_plates 1 (IdList [2]) "Plate" "Acquisition name" true Scenario.st0 in
  out.1 = inr ("3 Images from 1 Runs merged into Plate:1. 1 Wells created.",
               (1, mkPlate "P1" (Some 7) None None))
  ∧ (wells out.2 !! 22 = Some (mkWell 1 2 0) ∧ size (wells out.2) = 5%nat)
  ∧ listPlateAcquisitions out.2 1 = [(5, mkRun "R1" 1 None)]
  ∧ ws_well <$> samples out.2 !! 102 = Some 22.
Proof. split_and!; vm_compute; reflexivity. Qed.

Example sorted_is_stable (st : Store) :
  sorted str_ltb (λ x, inr x.1) [("b", 1); ("a", 2); ("b", 3); ("a", 4)] st
  = (inr [("a", 2); ("a", 4); ("b", 1); ("b", 3)], st).
Proof. reflexivity. Qed.

Lemma plate_name_label_witness :
  combine_plates 1 (IdList [2]) "Plate" "Plate name" true Timed.st0
  = (_ ← screen_safety (expand_plates Timed.st0 [2]) (1, mkPlate "P1" (Some 7) None None);
     merge_runs (1, mkPlate "P1" (Some 7) None None) (expand_plates Timed.st0 [2])) Timed.st0.
Proof.
  refine (proj2 (proj2 (proj2 (plate_name_label_does_not_sort
            (expand_plates Timed.st0 [2]) Timed.st0)))
            1 (IdList [2]) "Plate" true (1, mkPlate "P1" (Some 7) None None) Timed.st0 _ _).
  - vm_compute. reflexivity.
  - vm_compute. reflexivity.
Defined.

(** C1: both runs of the source plate have a start time, 200 and 100, and
    the ordering by start time is asked for: instead of the work list
    sorted by start time, line 95 raises an [AttributeError], because the
    key is applied to the [(plate, run)] tuple. *)
Theorem start_time_order_raises_on_timed_runs :
  (item_startTime <$> expand_plates Timed.st0 [2]) = [Some 200; Some 100]
  ∧ combine_plates 1 (IdList [2]) "Plate" "Acquisition start time" true Timed.st0
    = (inl (AttributeError tuple_has_no_getStartTime), Timed.st0).
Proof. split; vm_compute; reflexivity. Qed.

(** C2, refuted as stated: the source plate 2 has no run and sits in
    another screen than the target.  The merge fails the screen-safety
    check, and the run synthesized for plate 2 has been saved. *)
Lemma screen_failure_after_synthesis :
  let out := combine_plates 1 (IdList [2]) "Plate" "Acquisition name" true TwoScreens.st0 in
  out.1 = inl (AssertionError (msg_different_screens [8; 7]))
  ∧ listPlateAcquisitions TwoScreens.st0 2 = []
  ∧ listPlateAcquisitions out.2 2 = [(21, mkRun "P2" 2 None)]
  ∧ out.2 ≠ TwoScreens.st0.
Proof.
  split_and!; [vm_compute; reflexivity..|].
  intros Heq. apply (f_equal (λ st, listPlateAcquisitions st 2)) in Heq.
  vm_compute in Heq. discriminate.
Qed.

Lemma assertion_failure_witness :
  synthesized TwoScreens.st0 [2]
    (combine_plates 1 (IdList [2]) "Plate" "Acquisition name" true TwoScreens.st0).2.
Proof.
  refine (proj1 (assertion_failure_saves_only_synthesized_runs TwoScreens.st0 1
            (IdList [2]) "Plate" "Acquisition name" true
            (msg_different_screens [8; 7]) _ _)).
  vm_compute. reflexivity.
Defined.

(** C5: the target plate 1 has a well at row 0 and column 0, and so has the
    source plate 2, which names its rows by number and its columns by
    letter.  The well of the target is indexed as "A1", the well of the
    source is looked up as "1A": the merge creates a second well of the
    target at row 0 and column 0, and completes. *)
Theorem label_index_duplicates_target_position :
  let out := combine_plates 1 (IdList [2]) "Plate" "Acquisition name" true Naming.st0 in
  (unique_positions Naming.st0 1 ∧ unique_positions Naming.st0 2)
  ∧ index_wells Naming.st0 (1, mkPlate "P1" (Some 7) None None) = {[ "A1" := 10 ]}
  ∧ getWellPos (mkPlate "P2" (Some 7) (Some number) (Some letter)) (mkWell 2 0 0) = "1A"
  ∧ out.1 = inr ("1 Images from 1 Runs merged into Plate:1. 1 Wells created.",
                 (1, mkPlate "P1" (Some 7) None None))
  ∧ wells out.2 !! 10 = Some (mkWell 1 0 0)
  ∧ wells out.2 !! 21 = Some (mkWell 1 0 0)
  ∧ ¬ unique_positions out.2 1.
Proof.
  split_and!; [| |vm_compute; reflexivity..|].
  - apply all_unique_positions, (bool_decide_unpack _). vm_compute. exact I.
  - apply all_unique_positions, (bool_decide_unpack _). vm_compute. exact I.
  - intros Huniq. specialize (Huniq 10 21 (mkWell 1 0 0) (mkWell 1 0 0)).
    assert (10 = 21) as Heq; [|lia].
    apply Huniq; [vm_compute; reflexivity..|done|done|done].
Qed.

(** C3, refuted as stated: neither the target nor the source belongs to a
    screen, and the merge fails for that very reason. *)
Lemma screenless_plates_are_rejected :
  plate_screen <$> plates Screenless.st0 !! 1 = Some None
  ∧ plate_screen <$> plates Screenless.st0 !! 2 = Some None
  ∧ combine_plates 1 (IdList [2]) "Plate" "Acquisition name" true Screenless.st0
    = (inl (AssertionError "Screen safety error: plate 2, 1 not part of a screen"),
       Screenless.st0).
Proof. split_and!; vm_compute; reflexivity. Qed.

(** C9, refuted as stated: the target belongs to no screen and the check is
    enabled, yet the failure is the missing start time of line 94. *)
Lemma start_time_failure_precedes_screen_check :
  plate_screen <$> plates Screenless.st0 !! 1 = Some None
  ∧ combine_plates 1 (IdList [2]) "Plate" "Acquisition start time" true Screenless.st0
    = (inl (AssertionError msg_no_start_time), Screenless.st0)
  ∧ ∀ ids, msg_no_start_time ≠ msg_not_in_screen ids.
Proof.
  split_and!; [vm_compute; reflexivity..|].
  intros ids. unfold msg_no_start_time, msg_not_in_screen. simpl. discriminate.
Qed.

Lemma screen_check_includes_target_witness :
  (∃ ids, 1 ∈ ids
     ∧ combine_plates 1 (IdList [2]) "Plate" "Acquisition name" true Screenless.st0
       = (inl (AssertionError (msg_not_in_screen ids)), Screenless.st0))
  ∧ combine_plates 1 (IdList [1]) "Plate" "Plate name" true Screenless.st0
    = (inl (AssertionError (msg_not_in_screen [1])), Screenless.st0).
Proof.
  split.
  - refine (proj1 (screen_check_includes_target Screenless.st0 1 (1, mkPlate "P1" None None None)
              (IdList [2]) "Plate" "Acquisition name" _ _)
              (expand_plates Screenless.st0 [2]) (expand_plates Screenless.st0 [2])
              Screenless.st0 _ _ _).
    + vm_compute. reflexivity.
    + reflexivity.
    + vm_compute. reflexivity.
    + vm_compute. reflexivity.
    + intros item Hi. vm_compute in Hi. apply list_elem_of_singleton in Hi as ->.
      by eexists.
  - refine (proj2 (screen_check_includes_target Screenless.st0 1 (1, mkPlate "P1" None None None)
              (IdList [1]) "Plate" "Plate name" _ _) _ _).
    + vm_compute. reflexivity.
    + reflexivity.
    + reflexivity.
    + simpl. intros i Hi. by apply list_elem_of_singleton in Hi.
Defined.

Lemma self_merge_witness :
  (combine_plates 1 (IdList [1; 1]) "Plate" "Acquisition name" true Scenario.st0).2
  = Scenario.st0.
Proof.
  refine (proj1 (proj2 (self_merge_is_noop Scenario.st0 1 (IdList [1; 1])
                          "Acquisition name" true _))).
  simpl. intros i Hi. apply elem_of_cons in Hi as [->|Hi]; [done|].
  by apply list_elem_of_singleton in Hi.
Defined.

Lemma missing_source_plate_witness :
  ∃ st', combine_plates 1 (IdList [2; 9]) "Plate" "Acquisition name" true Scenario.st0
         = (inl (AttributeError (NoneType_has_no "listPlateAcquisitions")), st').
Proof.
  refine (missing_source_plate_raises_attribute_error Scenario.st0 1 (IdList [2; 9])
            "Acquisition name" true 9 _ _ _).
  - simpl. apply elem_of_cons. right. by apply list_elem_of_singleton.
  - lia.
  - vm_compute. reflexivity.
Defined.
